(** * Verification of the job-search enrichment route

    Source: src/webapp/src/app/api/search/route.ts.

    Shallow embedding of the enrichment pipeline of the search route:
    [ensureString], [formatSalary], [formatPosted], [extractContacts],
    [fetchCompanyInsight] and the fan-out/fan-in part of [POST].

    Modelling conventions.
    - A JavaScript string is a Rocq [string]; a character stands for the code
      unit of the same number, so the model covers the strings whose code
      units are all below 256 (Basic Latin and Latin-1).  Case mapping and the
      white-space class are the ECMAScript ones restricted to that range.
    - [undefined] (and [null]) in an optional field is [None].
    - A call that may throw returns a [completion]; [try]/[catch] is
      [try_catch].
    - What the JavaScript runtime supplies and the source does not define
      (the date parser, the locale formatters, the clock, the identifier
      generator, the network) is a parameter: a record of functions, or the
      payload of a scheduler event. *)

From Stdlib Require Import List Bool Arith ZArith Lia Ascii String Floats.
From Stdlib Require Import DecimalString Permutation.
Import ListNotations.

Local Open Scope bool_scope.
Local Open Scope string_scope.
Local Open Scope nat_scope.

(** ** Characters and strings, as ECMAScript treats them *)

Module JS.

Definition code (c : ascii) : nat := nat_of_ascii c.

Definition between (lo hi : nat) (c : ascii) : bool :=
  (lo <=? code c) && (code c <=? hi).

(** [WhiteSpace] and [LineTerminator] code points below 256: TAB, LF, VT, FF,
    CR, SPACE and NO-BREAK SPACE.  [String.prototype.trim] and the regular
    expression class [\s] both use this set. *)
Definition isWhiteSpace (c : ascii) : bool :=
  between 9 13 c || (code c =? 32) || (code c =? 160).

(** Upper-case letters with a lower-case partner 32 code points higher:
    A-Z, and the Latin-1 capitals U+00C0..U+00DE except the multiplication
    sign U+00D7. *)
Definition isUpper (c : ascii) : bool :=
  between 65 90 c || (between 192 222 c && negb (code c =? 215)).

Definition lowerChar (c : ascii) : ascii :=
  if isUpper c then ascii_of_nat (code c + 32) else c.

(** [String.prototype.toLowerCase]. *)
Fixpoint toLowerCase (s : string) : string :=
  match s with
  | EmptyString => EmptyString
  | String c s' => String (lowerChar c) (toLowerCase s')
  end.

Fixpoint trimStart (s : string) : string :=
  match s with
  | EmptyString => EmptyString
  | String c s' => if isWhiteSpace c then trimStart s' else s
  end.

Fixpoint trimEnd (s : string) : string :=
  match s with
  | EmptyString => EmptyString
  | String c s' =>
      match trimEnd s' with
      | EmptyString =>
          if isWhiteSpace c then EmptyString else String c EmptyString
      | r => String c r
      end
  end.

(** [String.prototype.trim]. *)
Definition trim (s : string) : string := trimEnd (trimStart s).

(** [s.startsWith(p)]. *)
Fixpoint startsWith (p s : string) : bool :=
  match p, s with
  | EmptyString, _ => true
  | String a p', String b s' => Ascii.eqb a b && startsWith p' s'
  | String _ _, EmptyString => false
  end.

(** [s.slice(n)] for a non-negative [n]. *)
Fixpoint slice (n : nat) (s : string) : string :=
  match n, s with
  | O, _ => s
  | S n', String _ s' => slice n' s'
  | S _, EmptyString => EmptyString
  end.

(** [s.includes(p)]. *)
Fixpoint includes (p s : string) : bool :=
  startsWith p s ||
  match s with
  | EmptyString => false
  | String _ s' => includes p s'
  end.

(** The first [n] code units of [s]. *)
Fixpoint take (n : nat) (s : string) : string :=
  match n, s with
  | S n', String c s' => String c (take n' s')
  | _, _ => EmptyString
  end.

(** A string is truthy when it is not empty. *)
Definition nonEmpty (s : string) : bool :=
  match s with EmptyString => false | String _ _ => true end.

(** Every code unit of [s] satisfies [p]. *)
Fixpoint allChars (p : ascii -> bool) (s : string) : bool :=
  match s with
  | EmptyString => true
  | String c s' => p c && allChars p s'
  end.

(** Decimal rendering of an integer, as a template literal renders an
    integral number. *)
Definition numberToString (z : Z) : string :=
  NilZero.string_of_int (Z.to_int z).

End JS.

(** ** Regular expressions

    Both patterns of the source are sequences of character classes, each
    with a greedy quantifier.  [matchAt] is the backtracking matcher of
    ECMAScript for that fragment: a quantified class first tries to take one
    more character and only when the rest of the pattern then fails does it
    stop where it is. *)

Module Regex.

(** A class is a list of inclusive code-unit ranges. *)
Definition charClass := list (nat * nat).

Record atom := Atom {
  a_class : charClass;
  a_min : nat;
  a_max : option nat
}.

Record regex := Regex {
  re_atoms : list atom;
  re_ignoreCase : bool
}.

Definition inRanges (cls : charClass) (n : nat) : bool :=
  existsb (fun r => (fst r <=? n) && (n <=? snd r)) cls.

(** The other-case partner of an ASCII letter; every other code unit below
    256 canonicalizes, in a pattern without the [u] flag, to something no
    ASCII character canonicalizes to, so it only ever matches itself. *)
Definition swapCase (n : nat) : nat :=
  if (65 <=? n) && (n <=? 90) then n + 32
  else if (97 <=? n) && (n <=? 122) then n - 32
  else n.

Definition classTest (ic : bool) (cls : charClass) (c : ascii) : bool :=
  inRanges cls (JS.code c) || (ic && inRanges cls (swapCase (JS.code c))).

Definition belowMax (n : nat) (mx : option nat) : bool :=
  match mx with
  | None => true
  | Some m => n <? m
  end.

(** [matchRep p mn mx n k s]: [n] characters are already taken by the
    quantified class; returns the number of further characters the class and
    the rest of the pattern [k] consume from [s]. *)
Fixpoint matchRep (p : ascii -> bool) (mn : nat) (mx : option nat) (n : nat)
    (k : string -> option nat) (s : string) : option nat :=
  let stop := if mn <=? n then k s else None in
  match s with
  | String c s' =>
      if p c && belowMax n mx then
        match matchRep p mn mx (S n) k s' with
        | Some r => Some (S r)
        | None => stop
        end
      else stop
  | EmptyString => stop
  end.

Fixpoint matchAtoms (ic : bool) (atoms : list atom) : string -> option nat :=
  match atoms with
  | [] => fun _ => Some 0
  | a :: rest =>
      matchRep (classTest ic (a_class a)) (a_min a) (a_max a) 0
        (matchAtoms ic rest)
  end.

(** Length of the match that starts at the first character of [s], if any. *)
Definition matchAt (re : regex) (s : string) : option nat :=
  matchAtoms (re_ignoreCase re) (re_atoms re) s.

(** [s.match(re)] for a global pattern: all matches, left to right, each
    search resuming where the previous match ended (one character further
    after an empty match).  No match at all ([null] in the source) is the
    empty list.  [skip] counts the characters still covered by the match in
    progress. *)
Fixpoint scanMatches (re : regex) (skip : nat) (s : string) : list string :=
  match s with
  | EmptyString =>
      match skip, matchAt re EmptyString with
      | O, Some _ => [EmptyString]
      | _, _ => []
      end
  | String c s' =>
      match skip with
      | S k => scanMatches re k s'
      | O =>
          match matchAt re s with
          | Some (S n) => JS.take (S n) s :: scanMatches re n s'
          | Some O => EmptyString :: scanMatches re 0 s'
          | None => scanMatches re 0 s'
          end
      end
  end.

Definition matchAll (re : regex) (s : string) : list string :=
  scanMatches re 0 s.

(** [s.replace(re, repl)] for a global pattern and a replacement without
    [$] patterns. *)
Fixpoint replaceScan (re : regex) (repl : string) (skip : nat) (s : string)
    : string :=
  match s with
  | EmptyString =>
      match skip, matchAt re EmptyString with
      | O, Some _ => repl
      | _, _ => EmptyString
      end
  | String c s' =>
      match skip with
      | S k => replaceScan re repl k s'
      | O =>
          match matchAt re s with
          | Some (S n) => repl ++ replaceScan re repl n s'
          | Some O => repl ++ String c (replaceScan re repl 0 s')
          | None => String c (replaceScan re repl 0 s')
          end
      end
  end.

Definition replaceAll (re : regex) (repl : string) (s : string) : string :=
  replaceScan re repl 0 s.

(** Some class of the pattern accepts [c]. *)
Definition anyClass (ic : bool) (atoms : list atom) (c : ascii) : bool :=
  existsb (fun a => classTest ic (a_class a) c) atoms.

(** Ranges used by the patterns of the source. *)
Definition lower_az : nat * nat := (97, 122).
Definition digit_09 : nat * nat := (48, 57).
Definition one (c : ascii) : nat * nat := (JS.code c, JS.code c).
Definition whiteSpace : charClass := [(9, 13); (32, 32); (160, 160)].

End Regex.

(** ** Containers of the runtime *)

(** A JavaScript [Map] with string keys: entries in insertion order; [set] on
    a key already present replaces the value and keeps the entry's place. *)
Module OrderedMap.

Definition t (V : Type) := list (string * V).

Definition empty {V : Type} : t V := [].

Definition has {V : Type} (k : string) (m : t V) : bool :=
  existsb (fun e => String.eqb (fst e) k) m.

Definition set {V : Type} (k : string) (v : V) (m : t V) : t V :=
  if has k m
  then map (fun e => if String.eqb (fst e) k then (k, v) else e) m
  else (m ++ [(k, v)])%list.

Definition keys {V : Type} (m : t V) : list string := map fst m.

Definition values {V : Type} (m : t V) : list V := map snd m.

End OrderedMap.

(** A JavaScript [Set] of strings: members in insertion order. *)
Module OrderedSet.

Definition t := list string.

Definition empty : t := [].

Definition has (x : string) (s : t) : bool :=
  existsb (String.eqb x) s.

Definition add (x : string) (s : t) : t :=
  if has x s then s else (s ++ [x])%list.

End OrderedSet.

(** ** Data model (the type declarations of route.ts) *)

Record JobContact := mkJobContact {
  label : string;
  value : string
}.

Record CompanyInsight := mkCompanyInsight {
  ci_name : string;
  ci_domain : option string;
  ci_description : option string;
  ci_logo : option string;
  ci_location : option string;
  ci_linkedin : option string;
  ci_twitter : option string
}.

Record JobResult := mkJobResult {
  id : string;
  title : string;
  company : string;
  city : option string;
  state : option string;
  country : option string;
  remote : bool;
  employmentType : option string;
  salary : option string;
  applyLink : option string;
  description : option string;
  highlights : list string;
  postedAt : option string;
  contacts : list JobContact;
  companyInsight : option CompanyInsight
}.

Record JobHighlights := mkJobHighlights {
  Qualifications : option (list string);
  Responsibilities : option (list string);
  Benefits : option (list string)
}.

(** A salary amount is a JavaScript number, that is a binary64 float. *)
Record JobSalary := mkJobSalary {
  currency : option string;
  salary_min : option float;
  salary_max : option float;
  salary_period : option string;
  min_salary : option float;
  max_salary : option float;
  period : option string
}.

(** [job_posted_at_timestamp] counts seconds since the epoch; the model takes
    it to be integral. *)
Record JSearchJob := mkJSearchJob {
  job_id : option string;
  job_title : option string;
  employer_name : option string;
  employer_website : option string;
  employer_email : option string;
  job_city : option string;
  job_state : option string;
  job_country : option string;
  job_is_remote : option bool;
  job_employment_type : option string;
  job_apply_link : option string;
  job_description : option string;
  job_highlights : option JobHighlights;
  job_salary : option JobSalary;
  job_posted_at_timestamp : option Z;
  job_posted_at_datetime_utc : option string;
  job_posted_at : option string
}.

(** A value of TypeScript type [unknown], as far as [ensureString] is handed
    one: a string field, a number field, or an absent field. *)
Inductive unknown :=
| Undefined
| StringValue (s : string)
| NumberValue (z : Z).

Definition ofString (f : option string) : unknown :=
  match f with
  | Some s => StringValue s
  | None => Undefined
  end.

Definition ofNumber (f : option Z) : unknown :=
  match f with
  | Some z => NumberValue z
  | None => Undefined
  end.

(** [a ?? b]. *)
Definition nullish {A : Type} (a b : option A) : option A :=
  match a with
  | Some x => Some x
  | None => b
  end.

(** [a ?? b] with a [b] that is never absent. *)
Definition nullishOr {A : Type} (a : option A) (b : A) : A :=
  match a with
  | Some x => x
  | None => b
  end.

(** ** route.ts, lines 90-97 *)

(** The classes [[a-z0-9._%+-]], [[a-z0-9.-]] and [[0-9\s().-]]. *)
Definition emailLocalPart : Regex.charClass :=
  [ Regex.lower_az; Regex.digit_09; Regex.one "."%char; Regex.one "_"%char;
    Regex.one "%"%char; Regex.one "+"%char; Regex.one "-"%char ].

Definition emailDomain : Regex.charClass :=
  [ Regex.lower_az; Regex.digit_09; Regex.one "."%char; Regex.one "-"%char ].

Definition phoneBody : Regex.charClass :=
  (Regex.digit_09 :: Regex.whiteSpace ++
   [ Regex.one "("%char; Regex.one ")"%char; Regex.one "."%char;
     Regex.one "-"%char ])%list.

(** [/[a-z0-9._%+-]+@[a-z0-9.-]+\.[a-z]{2,}/gi] *)
Definition EMAIL_REGEX : Regex.regex :=
  Regex.Regex
    [ Regex.Atom emailLocalPart 1 None;
      Regex.Atom [Regex.one "@"%char] 1 (Some 1);
      Regex.Atom emailDomain 1 None;
      Regex.Atom [Regex.one "."%char] 1 (Some 1);
      Regex.Atom [Regex.lower_az] 2 None ]
    true.

(** [/\+?[0-9][0-9\s().-]{6,}[0-9]/g] *)
Definition PHONE_REGEX : Regex.regex :=
  Regex.Regex
    [ Regex.Atom [Regex.one "+"%char] 0 (Some 1);
      Regex.Atom [Regex.digit_09] 1 (Some 1);
      Regex.Atom phoneBody 6 None;
      Regex.Atom [Regex.digit_09] 1 (Some 1) ]
    false.

(** The pattern [/\s+/g] of the phone normalization. *)
Definition WHITESPACE_RUN : Regex.regex :=
  Regex.Regex [ Regex.Atom Regex.whiteSpace 1 None ] false.

Definition ensureString (v : unknown) : option string :=
  match v with
  | StringValue s =>
      if JS.nonEmpty (JS.trim s) then Some (JS.trim s) else None
  | _ => None
  end.

(** ** route.ts, lines 209-279: [extractContacts] *)

Definition emailContact (email : string) : JobContact :=
  {| label := if JS.includes "hr" email then "HR email" else "Contact email";
     value := email |}.

Definition phoneContact (phone : string) : JobContact :=
  {| label := "Phone"; value := phone |}.

Definition websiteContact (employerWebsite : string) : JobContact :=
  {| label := "Company website";
     value := if JS.startsWith "http" employerWebsite
              then employerWebsite
              else "https://" ++ employerWebsite |}.

Definition phoneKey (phone : string) : string := "phone-" ++ phone.

(** The [forEach] body of lines 237-244. *)
Definition addEmail (contactMap : OrderedMap.t JobContact) (email : string)
    : OrderedMap.t JobContact :=
  if negb (OrderedMap.has email contactMap)
  then OrderedMap.set email (emailContact email) contactMap
  else contactMap.

(** The [forEach] body of lines 250-255. *)
Definition normalizePhone (m : string) : string :=
  JS.trim (Regex.replaceAll WHITESPACE_RUN " " m).

Definition addPhoneMatch (phones : OrderedSet.t) (m : string) : OrderedSet.t :=
  let normalized := normalizePhone m in
  if 8 <=? String.length normalized
  then OrderedSet.add normalized phones
  else phones.

(** The [forEach] body of lines 259-267. *)
Definition addPhone (contactMap : OrderedMap.t JobContact) (phone : string)
    : OrderedMap.t JobContact :=
  let key := phoneKey phone in
  if negb (OrderedMap.has key contactMap)
  then OrderedMap.set key (phoneContact phone) contactMap
  else contactMap.

(** The array [employerEmails] as it stands at line 233. *)
Definition employerEmails (job : JSearchJob) : list string :=
  let description :=
    nullishOr (ensureString (ofString (job_description job))) "" in
  let applyLink := ensureString (ofString (job_apply_link job)) in
  let employerEmails := [] in
  let employerEmails :=
    match ensureString (ofString (employer_email job)) with
    | Some employerEmail => (employerEmails ++ [employerEmail])%list
    | None => employerEmails
    end in
  let employerEmails :=
    match applyLink with
    | Some link =>
        if JS.startsWith "mailto:" link
        then (employerEmails ++ [JS.slice (String.length "mailto:") link])%list
        else employerEmails
    | None => employerEmails
    end in
  if JS.nonEmpty description
  then (employerEmails ++ Regex.matchAll EMAIL_REGEX description)%list
  else employerEmails.

(** The set [phones] as it stands at line 258. *)
Definition phoneSet (job : JSearchJob) : OrderedSet.t :=
  let description :=
    nullishOr (ensureString (ofString (job_description job))) "" in
  if JS.nonEmpty description
  then fold_left addPhoneMatch (Regex.matchAll PHONE_REGEX description)
         OrderedSet.empty
  else OrderedSet.empty.

(** The map [contactMap] as it stands at line 277. *)
Definition contactMapOf (job : JSearchJob) : OrderedMap.t JobContact :=
  let contactMap := OrderedMap.empty in
  let employerWebsite := ensureString (ofString (employer_website job)) in
  let contactMap :=
    fold_left addEmail
      (filter (JS.includes "@") (map JS.toLowerCase (employerEmails job)))
      contactMap in
  let contactMap := fold_left addPhone (phoneSet job) contactMap in
  match employerWebsite with
  | Some w => OrderedMap.set "website" (websiteContact w) contactMap
  | None => contactMap
  end.

Definition extractContacts (job : JSearchJob) : list JobContact :=
  OrderedMap.values (contactMapOf job).

(** ** Reading the contact list the way the specification words it *)

(** First occurrences of [l], skipping the entries whose key is in [seen]. *)
Fixpoint dedupBy {A : Type} (kf : A -> string) (seen : list string) (l : list A)
    : list A :=
  match l with
  | [] => []
  | x :: l' =>
      if existsb (String.eqb (kf x)) seen
      then dedupBy kf seen l'
      else x :: dedupBy kf (seen ++ [kf x]) l'
  end.

Definition firstOccurrences (l : list string) : list string :=
  dedupBy (fun x => x) [] l.

Definition optionList {A : Type} (o : option A) : list A :=
  match o with
  | Some x => [x]
  | None => []
  end.

(** The trimmed description the extractor scans ([""] when the field is
    absent or blank). *)
Definition descriptionOf (job : JSearchJob) : string :=
  nullishOr (ensureString (ofString (job_description job))) "".

(** The address of a [mailto:] apply link. *)
Definition mailtoAddress (job : JSearchJob) : option string :=
  match ensureString (ofString (job_apply_link job)) with
  | Some link =>
      if JS.startsWith "mailto:" link then Some (JS.slice 7 link) else None
  | None => None
  end.

(** Email sources in collection order: employer-email field, mailto apply
    link, description matches. *)
Definition emailSources (job : JSearchJob) : list string :=
  (optionList (ensureString (ofString (employer_email job))) ++
   optionList (mailtoAddress job) ++
   Regex.matchAll EMAIL_REGEX (descriptionOf job))%list.

Definition emailValues (job : JSearchJob) : list string :=
  firstOccurrences
    (filter (JS.includes "@") (map JS.toLowerCase (emailSources job))).

Definition phoneValues (job : JSearchJob) : list string :=
  firstOccurrences
    (filter (fun p => 8 <=? String.length p)
       (map normalizePhone (Regex.matchAll PHONE_REGEX (descriptionOf job)))).

Definition websiteValue (job : JSearchJob) : list JobContact :=
  map websiteContact
    (optionList (ensureString (ofString (employer_website job)))).

(** Emails first, then phones, then the website. *)
Definition contactsInOrder (job : JSearchJob) : list JobContact :=
  (map emailContact (emailValues job) ++
   map phoneContact (phoneValues job) ++
   websiteValue job)%list.

(** The dedup key of a candidate, read off its label: the normalized value
    under the phone prefix, the fixed website key, or the lowercased
    value. *)
Definition dedupKey (c : JobContact) : string :=
  if String.eqb (label c) "Phone" then phoneKey (normalizePhone (value c))
  else if String.eqb (label c) "Company website" then "website"
  else JS.toLowerCase (value c).

Definition isEmailCandidate (c : JobContact) : bool :=
  String.eqb (label c) "HR email" || String.eqb (label c) "Contact email".

Definition isPhoneCandidate (c : JobContact) : bool :=
  String.eqb (label c) "Phone".

Definition isWebsiteCandidate (c : JobContact) : bool :=
  String.eqb (label c) "Company website".

(** ** Auxiliary predicates of the proofs *)

(** A character other than the at sign. *)
Definition notAt (c : ascii) : bool := negb (Ascii.eqb "@" c).

(** The string begins with white space. *)
Definition startsWithSpace (s : string) : bool :=
  match s with
  | String c _ => JS.isWhiteSpace c
  | EmptyString => false
  end.

(** Every white-space character of the string is a single space with no
    white space right after it. *)
Fixpoint singleSpaced (s : string) : bool :=
  match s with
  | EmptyString => true
  | String c s' =>
      (if JS.isWhiteSpace c
       then Ascii.eqb c " " && negb (startsWithSpace s')
       else true) && singleSpaced s'
  end.

(** The length of the white-space run the string begins with. *)
Fixpoint spaceRun (s : string) : nat :=
  match s with
  | String c s' => if JS.isWhiteSpace c then S (spaceRun s') else 0
  | EmptyString => 0
  end.

(** ** Completions: a call either returns or throws *)

Inductive error :=
| RangeError
| TypeError
| SyntaxError.

Inductive completion (A : Type) :=
| Normal (a : A)
| Throw (e : error).

Arguments Normal {A} a.
Arguments Throw {A} e.

Definition bind {A B : Type} (c : completion A) (k : A -> completion B)
    : completion B :=
  match c with
  | Normal a => k a
  | Throw e => Throw e
  end.

Notation "x <- c ;; k" := (bind c (fun x => k))
  (at level 61, c at next level, right associativity).

(** [try { body } catch (error) { handler }]. *)
Definition try_catch {A : Type} (body : completion A)
    (handler : error -> completion A) : completion A :=
  match body with
  | Normal a => Normal a
  | Throw e => handler e
  end.

(** ** The runtime the route runs on

    [formatCurrency cur x] is
    [new Intl.NumberFormat("en-IN", {style: "currency", currency: cur,
    maximumFractionDigits: 0}).format(x)];
    [formatShortDate t] is [toLocaleDateString("en-IN", {month: "short",
    day: "numeric", year: "numeric"})] of the date with time value [t];
    [parseDate s] is the time value of [new Date(s)], [None] when it is
    [NaN]. *)
Record Runtime := mkRuntime {
  formatCurrency : string -> float -> string;
  formatShortDate : Z -> string;
  parseDate : string -> option Z
}.

(** What a listing reads from the runtime when its result object is built:
    the clock of [new Date()] in milliseconds and the identifier
    [crypto.randomUUID()] would return. *)
Record tick := mkTick {
  tick_now : Z;
  tick_uuid : string
}.

Definition isAsciiLetter (c : ascii) : bool :=
  JS.between 65 90 c || JS.between 97 122 c.

(** ECMA-402 [IsWellFormedCurrencyCode]: three ASCII letters.  The
    [Intl.NumberFormat] constructor throws a [RangeError] on any other
    currency. *)
Definition isWellFormedCurrencyCode (cur : string) : bool :=
  (String.length cur =? 3) && JS.allChars isAsciiLetter cur.

Definition NumberFormat (rt : Runtime) (cur : string)
    : completion (float -> string) :=
  if isWellFormedCurrencyCode cur
  then Normal (formatCurrency rt cur)
  else Throw RangeError.

(** Truthiness of a number: neither zero nor [NaN]. *)
Definition truthyNumber (x : float) : bool :=
  negb (PrimFloat.is_zero x || PrimFloat.is_nan x).

Definition truthy (o : option float) : bool :=
  match o with
  | Some x => truthyNumber x
  | None => false
  end.

(** [Number(v)] for a number or [undefined]. *)
Definition Number (o : option float) : float :=
  nullishOr o PrimFloat.nan.

(** ** route.ts, lines 124-165: [formatSalary] *)

(** The template part [resolvedPeriod ? ` / ${resolvedPeriod}` : ""]. *)
Definition periodSuffix (resolvedPeriod : option string) : string :=
  match resolvedPeriod with
  | Some p => if JS.nonEmpty p then " / " ++ p else ""
  | None => ""
  end.

Definition formatSalary (rt : Runtime) (job : JSearchJob)
    : completion (option string) :=
  match job_salary job with
  | None => Normal None
  | Some salary =>
      let min := nullish (salary_min salary) (min_salary salary) in
      let max := nullish (salary_max salary) (max_salary salary) in
      let resolvedPeriod := nullish (salary_period salary) (period salary) in
      if negb (truthy min) && negb (truthy max) then Normal None
      else
        formatter <- NumberFormat rt (nullishOr (currency salary) "INR") ;;
        if truthy min && truthy max
        then Normal (Some (formatter (Number min) ++ " - " ++
                           formatter (Number max) ++
                           periodSuffix resolvedPeriod))
        else
          let value := nullish min max in
          if truthy value
          then Normal (Some (formatter (Number value) ++
                             periodSuffix resolvedPeriod))
          else Normal None
  end.

(** ** route.ts, lines 167-207: [formatPosted] *)

(** A [Date] object: its time value in milliseconds, [None] for [NaN]
    (an invalid date). *)
Record Date := mkDate { getTime : option Z }.

(** [TimeClip]: a time value beyond 8.64e15 ms in magnitude is [NaN]. *)
Definition timeClip (t : Z) : option Z :=
  if (Z.abs t <=? 8640000000000000)%Z then Some t else None.

(** [new Date(s)] for a string. *)
Definition newDateOfString (rt : Runtime) (s : string) : Date :=
  mkDate (parseDate rt s).

(** [new Date(n)] for a number. *)
Definition newDateOfNumber (n : Z) : Date :=
  mkDate (timeClip n).

(** [date.toLocaleDateString("en-IN", ...)]; an invalid date renders as the
    literal the language fixes for it. *)
Definition toLocaleDateString (rt : Runtime) (d : Date) : string :=
  match getTime d with
  | Some t => formatShortDate rt t
  | None => "Invalid Date"
  end.

(** Arithmetic on numbers that may be [NaN]: integers stand for the
    integral doubles, [None] for [NaN].  Time values are integers of at most
    8.64e15 in magnitude; on them the double computation of the source and
    this integer computation take the same branches and print the same
    numbers, since a quotient near the thresholds 1 and 7 is computed
    exactly. *)
Definition numSub (a b : option Z) : option Z :=
  match a, b with
  | Some x, Some y => Some (x - y)%Z
  | _, _ => None
  end.

(** [Math.floor(a / d)] for a positive constant [d]. *)
Definition floorDiv (a : option Z) (d : Z) : option Z :=
  match a with
  | Some x => Some (x / d)%Z
  | None => None
  end.

(** [a < n], [a <= n] and [a === n]: all false on [NaN]. *)
Definition numLt (a : option Z) (n : Z) : bool :=
  match a with Some x => (x <? n)%Z | None => false end.

Definition numLe (a : option Z) (n : Z) : bool :=
  match a with Some x => (x <=? n)%Z | None => false end.

Definition numEq (a : option Z) (n : Z) : bool :=
  match a with Some x => (x =? n)%Z | None => false end.

(** [`${a}`] *)
Definition numToString (a : option Z) : string :=
  match a with Some x => JS.numberToString x | None => "NaN" end.

(** Lines 168-183: the date the posting age is computed from. *)
Definition postedDate (rt : Runtime) (dateSource : JSearchJob) : option Date :=
  let iso :=
    nullish (ensureString (ofString (job_posted_at_datetime_utc dateSource)))
      (nullish (ensureString (ofString (job_posted_at dateSource)))
         (ensureString (ofNumber (job_posted_at_timestamp dateSource)))) in
  let date : option Date :=
    match iso with
    | Some s =>
        let candidate := newDateOfString rt s in
        match getTime candidate with
        | Some _ => Some candidate           (* [!Number.isNaN(...)] *)
        | None => None
        end
    | None => None
    end in
  match date, job_posted_at_timestamp dateSource with
  | None, Some ts => Some (newDateOfNumber (ts * 1000))
  | _, _ => date
  end.

(** Lines 189-206: the age of [date] at the instant [now]. *)
Definition postedAge (rt : Runtime) (now : Z) (date : Date) : string :=
  let diffMs := numSub (Some now) (getTime date) in
  let diffDays := floorDiv diffMs (1000 * 60 * 60 * 24) in
  if numLt diffDays 1 then
    let diffHours := floorDiv diffMs (1000 * 60 * 60) in
    if numLe diffHours 1
    then "Posted less than an hour ago"
    else "Posted " ++ numToString diffHours ++ "h ago"
  else if numLt diffDays 7 then
    if numEq diffDays 1
    then "Posted yesterday"
    else "Posted " ++ numToString diffDays ++ " days ago"
  else toLocaleDateString rt date.

Definition formatPosted (rt : Runtime) (now : Z) (dateSource : JSearchJob)
    : option string :=
  match postedDate rt dateSource with
  | None => None                              (* [if (!date)] *)
  | Some date => Some (postedAge rt now date)
  end.

(** ** route.ts, lines 281-331: [fetchCompanyInsight] *)

Record Handle := mkHandle { handle : string }.

(** [twitter] and [linkedin] are [None] when the field is absent or [null]. *)
Record ClearbitSuggestion := mkClearbitSuggestion {
  cs_name : string;
  cs_domain : option string;
  cs_logo : option string;
  cs_description : option string;
  cs_location : option string;
  cs_twitter : option Handle;
  cs_linkedin : option Handle
}.

(** What [response.json()] gives: a rejection (the body is not JSON), a JSON
    value that is not an array, or an array, whose entries the source takes
    to be suggestions; an entry that is [null] is [None]. *)
Inductive jsonBody :=
| BodyUnparsable
| BodyNotArray
| BodyArray (data : list (option ClearbitSuggestion)).

(** What [fetch] gives: a rejection (network failure) or a response. *)
Inductive fetchOutcome :=
| FetchRejected
| FetchResponse (status : Z) (body : jsonBody).

(** [response.ok]: the status is in the range 200-299. *)
Definition ok (status : Z) : bool :=
  ((200 <=? status) && (status <=? 299))%Z.

Definition hexDigit (n : nat) : string :=
  match String.get n "0123456789ABCDEF" with
  | Some c => String c ""
  | None => ""
  end.

Definition percentByte (b : nat) : string :=
  "%" ++ hexDigit (b / 16) ++ hexDigit (b mod 16).

(** Characters [encodeURIComponent] leaves alone. *)
Definition isUriUnreserved (c : ascii) : bool :=
  isAsciiLetter c || JS.between 48 57 c ||
  existsb (Ascii.eqb c) (list_ascii_of_string "-_.!~*'()").

(** Percent-encoding of the UTF-8 bytes of a code unit below 256. *)
Definition encodeChar (c : ascii) : string :=
  if isUriUnreserved c then String c ""
  else if JS.code c <? 128 then percentByte (JS.code c)
  else percentByte (192 + JS.code c / 64) ++
       percentByte (128 + JS.code c mod 64).

Fixpoint encodeURIComponent (s : string) : string :=
  match s with
  | EmptyString => EmptyString
  | String c s' => encodeChar c ++ encodeURIComponent s'
  end.

Definition suggestUrl (name : string) : string :=
  "https://autocomplete.clearbit.com/v1/companies/suggest?query=" ++
  encodeURIComponent name.

(** [bestMatch.twitter?.handle ? `${base}${handle}` : undefined]. *)
Definition profileUrl (base : string) (h : option Handle) : option string :=
  match h with
  | Some hd =>
      if JS.nonEmpty (handle hd) then Some (base ++ handle hd) else None
  | None => None
  end.

(** The object literal of lines 314-326; reading a property of [null]
    throws. *)
Definition insightOf (bestMatch : option ClearbitSuggestion)
    : completion CompanyInsight :=
  match bestMatch with
  | None => Throw TypeError
  | Some bestMatch =>
      Normal
        {| ci_name := cs_name bestMatch;
           ci_domain := cs_domain bestMatch;
           ci_description := cs_description bestMatch;
           ci_logo := cs_logo bestMatch;
           ci_location := cs_location bestMatch;
           ci_twitter :=
             profileUrl "https://twitter.com/" (cs_twitter bestMatch);
           ci_linkedin :=
             profileUrl "https://www.linkedin.com/" (cs_linkedin bestMatch) |}
  end.

(** [await fetch(...)]: a rejected promise throws at the [await]. *)
Definition awaitFetch (o : fetchOutcome) : completion (Z * jsonBody) :=
  match o with
  | FetchRejected => Throw TypeError
  | FetchResponse status body => Normal (status, body)
  end.

(** [await response.json()]. *)
Definition awaitJson (body : jsonBody)
    : completion (option (list (option ClearbitSuggestion))) :=
  match body with
  | BodyUnparsable => Throw SyntaxError
  | BodyNotArray => Normal None
  | BodyArray data => Normal (Some data)
  end.

(** The body of the function once [fetch] has settled with [o]. *)
Definition companyInsightOfOutcome (o : fetchOutcome)
    : completion (option CompanyInsight) :=
  try_catch
    (response <- awaitFetch o ;;
     if negb (ok (fst response)) then Normal None
     else
       data <- awaitJson (snd response) ;;
       match data with
       | None => Normal None              (* [!Array.isArray(data)] *)
       | Some [] => Normal None           (* [data.length === 0] *)
       | Some (bestMatch :: _) =>
           insight <- insightOf bestMatch ;;
           Normal (Some insight)
       end)
    (fun _ => Normal None).

(** [fetch] is the network: it maps the requested URL to an outcome. *)
Definition fetchCompanyInsight (fetch : string -> fetchOutcome) (name : string)
    : completion (option CompanyInsight) :=
  companyInsightOfOutcome (fetch (suggestUrl name)).

(** ** route.ts, lines 414-468: the enrichment part of [POST] *)

Definition UNKNOWN_COMPANY : string := "Unknown company".

(** [Boolean(v)] for a boolean or [undefined]. *)
Definition Boolean (v : option bool) : bool :=
  match v with
  | Some b => b
  | None => false
  end.

(** [Array.isArray(xs) ? xs : []] for a field holding an array or nothing. *)
Definition arrayOrEmpty {A : Type} (xs : option (list A)) : list A :=
  match xs with
  | Some l => l
  | None => []
  end.

(** Lines 427-439. *)
Definition highlightSectionsOf (job : JSearchJob) : list string :=
  let highlightSections := [] in
  let highlightSections :=
    match job_highlights job with
    | Some h => (highlightSections ++ arrayOrEmpty (Qualifications h))%list
    | None => highlightSections
    end in
  let highlightSections :=
    match job_highlights job with
    | Some h => (highlightSections ++ arrayOrEmpty (Responsibilities h))%list
    | None => highlightSections
    end in
  match job_highlights job with
  | Some h => (highlightSections ++ arrayOrEmpty (Benefits h))%list
  | None => highlightSections
  end.

(** What the callback of line 424 holds across its [await]. *)
Record closure := mkClosure {
  cl_job : JSearchJob;
  cl_companyName : string;
  cl_contacts : list JobContact;
  cl_highlightSections : list string
}.

(** Lines 425-427 and 429-439: the callback up to the lookup. *)
Definition prepare (job : JSearchJob) : closure :=
  {| cl_job := job;
     cl_companyName :=
       nullishOr (ensureString (ofString (employer_name job))) UNKNOWN_COMPANY;
     cl_contacts := extractContacts job;
     cl_highlightSections := highlightSectionsOf job |}.

(** The object literal of lines 446-462; [formatSalary] may throw. *)
Definition buildResult (rt : Runtime) (jobProfile : string) (cl : closure)
    (companyInsight : option CompanyInsight) (tk : tick)
    : completion JobResult :=
  let job := cl_job cl in
  salary <- formatSalary rt job ;;
  Normal
    {| id := nullishOr (ensureString (ofString (job_id job))) (tick_uuid tk);
       title := nullishOr (ensureString (ofString (job_title job))) jobProfile;
       company := cl_companyName cl;
       city := ensureString (ofString (job_city job));
       state := ensureString (ofString (job_state job));
       country := ensureString (ofString (job_country job));
       remote := Boolean (job_is_remote job);
       employmentType := ensureString (ofString (job_employment_type job));
       salary := salary;
       applyLink := nullish (ensureString (ofString (job_apply_link job))) None;
       description := ensureString (ofString (job_description job));
       highlights := firstn 6 (cl_highlightSections cl);
       postedAt := formatPosted rt (tick_now tk) job;
       contacts := cl_contacts cl;
       companyInsight := companyInsight |}.

(** One promise of the array handed to [Promise.all]. *)
Inductive promise :=
| Awaiting (cl : closure)    (* suspended at [await fetchCompanyInsight] *)
| Fulfilled (r : JobResult)
| Rejected (e : error).

Definition settle (c : completion JobResult) : promise :=
  match c with
  | Normal r => Fulfilled r
  | Throw e => Rejected e
  end.

(** The callback run on one listing until it suspends or finishes, with the
    names [fetchCompanyInsight] was called with on the way. *)
Definition runCallback (rt : Runtime) (jobProfile : string) (tk : tick)
    (job : JSearchJob) : promise * list string :=
  let cl := prepare job in
  if negb (String.eqb (cl_companyName cl) UNKNOWN_COMPANY)
  then (Awaiting cl, [cl_companyName cl])
  else (settle (buildResult rt jobProfile cl None tk), []).

(** The state of the fan-out: the promises in index order, the lookups
    started so far, and what [Promise.all] has settled with, if it has. *)
Record orchestration := mkOrchestration {
  promises : list promise;
  lookups : list string;
  outcome : option (completion (list JobResult))
}.

Fixpoint firstRejection (ts : list promise) : option error :=
  match ts with
  | [] => None
  | Rejected e :: _ => Some e
  | _ :: ts' => firstRejection ts'
  end.

(** The values of the promises when every one is fulfilled. *)
Fixpoint allFulfilled (ts : list promise) : option (list JobResult) :=
  match ts with
  | [] => Some []
  | Fulfilled r :: ts' =>
      match allFulfilled ts' with
      | Some rs => Some (r :: rs)
      | None => None
      end
  | _ :: _ => None
  end.

(** [Promise.all] over the promises as they stand after the synchronous
    pass. *)
Definition promiseAllStart (ts : list promise)
    : option (completion (list JobResult)) :=
  match firstRejection ts with
  | Some e => Some (Throw e)
  | None =>
      match allFulfilled ts with
      | Some rs => Some (Normal rs)
      | None => None
      end
  end.

Fixpoint runCallbacks (rt : Runtime) (jobProfile : string) (sync : nat -> tick)
    (i : nat) (jobs : list JSearchJob) : list (promise * list string) :=
  match jobs with
  | [] => []
  | job :: jobs' =>
      runCallback rt jobProfile (sync i) job ::
      runCallbacks rt jobProfile sync (S i) jobs'
  end.

(** Lines 415-423 up to the [await]: [data] is [result?.data], [sync i] is
    what the listing at index [i] reads from the runtime should it finish
    without suspending. *)
Definition POST_start (rt : Runtime) (jobProfile : string) (sync : nat -> tick)
    (data : option (list JSearchJob)) : orchestration :=
  let jobs := arrayOrEmpty data in
  if List.length jobs =? 0
  then {| promises := []; lookups := []; outcome := Some (Normal []) |}
  else
    let trimmedJobs := firstn 12 jobs in
    let started := runCallbacks rt jobProfile sync 0 trimmedJobs in
    {| promises := map fst started;
       lookups := List.concat (map snd started);
       outcome := promiseAllStart (map fst started) |}.

(** The lookup of the listing at index [i] settles: its [fetch] gave [o],
    and the callback resumes, reading [tk] from the runtime.  The callbacks
    share no state, so what one callback does between the answer of the
    network and its own end is taken as one step; the events of different
    listings come in any order, and a lookup that never settles has no
    event. *)
Inductive event :=
| LookupSettles (i : nat) (o : fetchOutcome) (tk : tick).

Fixpoint replaceNth {A : Type} (i : nat) (x : A) (l : list A) : list A :=
  match i, l with
  | O, _ :: l' => x :: l'
  | S i', y :: l' => y :: replaceNth i' x l'
  | _, [] => []
  end.

(** [Promise.all] after one more promise has settled as [t]: it settles
    once, with the first rejection or with all the values. *)
Definition promiseAllStep (before : option (completion (list JobResult)))
    (t : promise) (ts : list promise) : option (completion (list JobResult)) :=
  match before with
  | Some c => Some c
  | None =>
      match t with
      | Rejected e => Some (Throw e)
      | _ =>
          match allFulfilled ts with
          | Some rs => Some (Normal rs)
          | None => None
          end
      end
  end.

(** Lines 441-462 for one listing: the rest of the callback after its
    lookup.  [None] when no lookup is pending at that index. *)
Definition POST_step (rt : Runtime) (jobProfile : string) (ev : event)
    (st : orchestration) : option orchestration :=
  match ev with
  | LookupSettles i o tk =>
      match nth_error (promises st) i with
      | Some (Awaiting cl) =>
          let t :=
            settle (companyInsight <- companyInsightOfOutcome o ;;
                    buildResult rt jobProfile cl companyInsight tk) in
          let ts := replaceNth i t (promises st) in
          Some {| promises := ts;
                  lookups := lookups st;
                  outcome := promiseAllStep (outcome st) t ts |}
      | _ => None
      end
  end.

Fixpoint POST_run (rt : Runtime) (jobProfile : string) (evs : list event)
    (st : orchestration) : option orchestration :=
  match evs with
  | [] => Some st
  | ev :: evs' =>
      match POST_step rt jobProfile ev st with
      | Some st' => POST_run rt jobProfile evs' st'
      | None => None
      end
  end.

Inductive response :=
| JsonResponse (jobs : list JobResult)
| ErrorResponse (message : string) (status : Z).

(** Lines 418, 466-468 and the [catch] of lines 469-477: the response once
    [Promise.all] has settled; [None] while it is pending. *)
Definition POST_response (st : orchestration) : option response :=
  match outcome st with
  | Some (Normal enrichedJobs) => Some (JsonResponse enrichedJobs)
  | Some (Throw _) =>
      Some (ErrorResponse
              "Unexpected server error while fetching hiring intelligence." 500)
  | None => None
  end.

(** An enriched listing is built from the raw listing [job]. *)
Definition enrichmentOf (rt : Runtime) (jobProfile : string) (job : JSearchJob)
    (r : JobResult) : Prop :=
  exists companyInsight tk,
    buildResult rt jobProfile (prepare job) companyInsight tk = Normal r.

(** The same, keeping track of the lookup that was skipped. *)
Definition builtFrom (rt : Runtime) (jobProfile : string) (job : JSearchJob)
    (r : JobResult) : Prop :=
  exists companyInsight tk,
    buildResult rt jobProfile (prepare job) companyInsight tk = Normal r /\
    (cl_companyName (prepare job) = UNKNOWN_COMPANY -> companyInsight = None).

(** What the promise of a listing may hold. *)
Definition promiseFor (rt : Runtime) (jobProfile : string) (job : JSearchJob)
    (t : promise) : Prop :=
  match t with
  | Awaiting cl => cl = prepare job /\ cl_companyName cl <> UNKNOWN_COMPANY
  | Fulfilled r => builtFrom rt jobProfile job r
  | Rejected _ => True
  end.

(** The names the lookups of a batch are started with. *)
Definition lookupNames (jobs : list JSearchJob) : list string :=
  flat_map
    (fun job =>
       match ensureString (ofString (employer_name job)) with
       | Some name => if String.eqb name UNKNOWN_COMPANY then [] else [name]
       | None => []
       end)
    jobs.

(** The listing [job] with another salary sub-record. *)
Definition withSalary (job : JSearchJob) (s : option JobSalary) : JSearchJob :=
  {| job_id := job_id job; job_title := job_title job;
     employer_name := employer_name job;
     employer_website := employer_website job;
     employer_email := employer_email job; job_city := job_city job;
     job_state := job_state job; job_country := job_country job;
     job_is_remote := job_is_remote job;
     job_employment_type := job_employment_type job;
     job_apply_link := job_apply_link job;
     job_description := job_description job;
     job_highlights := job_highlights job; job_salary := s;
     job_posted_at_timestamp := job_posted_at_timestamp job;
     job_posted_at_datetime_utc := job_posted_at_datetime_utc job;
     job_posted_at := job_posted_at job |}.

(** A salary sub-record under the primary field names. *)
Definition primarySalary (cur : option string) (mn mx : option float)
    (per : option string) : JobSalary :=
  {| currency := cur; salary_min := mn; salary_max := mx; salary_period := per;
     min_salary := None; max_salary := None; period := None |}.

(** The same values under the alternate field names. *)
Definition alternateSalary (cur : option string) (mn mx : option float)
    (per : option string) : JobSalary :=
  {| currency := cur; salary_min := None; salary_max := None;
     salary_period := None;
     min_salary := mn; max_salary := mx; period := per |}.

(** The listing [job] with other posting-time fields. *)
Definition withPosted (job : JSearchJob) (ts : option Z)
    (utc posted : option string) : JSearchJob :=
  {| job_id := job_id job; job_title := job_title job;
     employer_name := employer_name job;
     employer_website := employer_website job;
     employer_email := employer_email job; job_city := job_city job;
     job_state := job_state job; job_country := job_country job;
     job_is_remote := job_is_remote job;
     job_employment_type := job_employment_type job;
     job_apply_link := job_apply_link job;
     job_description := job_description job;
     job_highlights := job_highlights job; job_salary := job_salary job;
     job_posted_at_timestamp := ts;
     job_posted_at_datetime_utc := utc;
     job_posted_at := posted |}.

Definition isAwaiting (t : promise) : bool :=
  match t with
  | Awaiting _ => true
  | _ => false
  end.

(** [Promise.all] is consistent with its promises: resolved with their
    values, or rejected, or pending with no promise rejected and some promise
    pending. *)
Definition promiseAllConsistent (st : orchestration) : Prop :=
  match outcome st with
  | Some (Normal rs) => allFulfilled (promises st) = Some rs
  | Some (Throw _) => True
  | None =>
      firstRejection (promises st) = None /\ allFulfilled (promises st) = None
  end.

(** The index of the listing an event is about. *)
Definition eventIndex (ev : event) : nat :=
  match ev with LookupSettles i _ _ => i end.

(** The indices at which a lookup is pending. *)
Fixpoint awaitingFrom (i : nat) (ts : list promise) : list nat :=
  match ts with
  | [] => []
  | Awaiting _ :: ts' => i :: awaitingFrom (S i) ts'
  | _ :: ts' => awaitingFrom (S i) ts'
  end.

Definition awaiting (st : orchestration) : list nat :=
  awaitingFrom 0 (promises st).

(** ** Sample listings *)

Definition emptyListing : JSearchJob :=
  {| job_id := None; job_title := None; employer_name := None;
     employer_website := None; employer_email := None; job_city := None;
     job_state := None; job_country := None; job_is_remote := None;
     job_employment_type := None; job_apply_link := None;
     job_description := None; job_highlights := None; job_salary := None;
     job_posted_at_timestamp := None; job_posted_at_datetime_utc := None;
     job_posted_at := None |}.

(** A listing whose employer-email field holds no address. *)
Definition listingEmailWithoutAt : JSearchJob :=
  {| job_id := Some "j-1"; job_title := Some "Backend Developer";
     employer_name := Some "Acme Corp"; employer_website := None;
     employer_email := Some "see careers page"; job_city := None;
     job_state := None; job_country := None; job_is_remote := None;
     job_employment_type := None; job_apply_link := None;
     job_description := Some "Apply on our careers page.";
     job_highlights := None; job_salary := None;
     job_posted_at_timestamp := None; job_posted_at_datetime_utc := None;
     job_posted_at := None |}.

(** A listing with an employer email and a mailto apply link. *)
Definition listingEmailAndMailto : JSearchJob :=
  {| job_id := Some "j-2"; job_title := Some "Backend Developer";
     employer_name := Some "Acme Corp"; employer_website := None;
     employer_email := Some "hr@acme.com"; job_city := None;
     job_state := None; job_country := None; job_is_remote := None;
     job_employment_type := None; job_apply_link := Some "mailto:jobs@acme.com";
     job_description := Some "Apply by mail.";
     job_highlights := None; job_salary := None;
     job_posted_at_timestamp := None; job_posted_at_datetime_utc := None;
     job_posted_at := None |}.

(** A listing with an employer email only. *)
Definition listingEmailOnly : JSearchJob :=
  {| job_id := Some "j-3"; job_title := Some "Data Scientist";
     employer_name := Some "Globex"; employer_website := Some "globex.example";
     employer_email := Some "  Talent@Globex.Example "; job_city := None;
     job_state := None; job_country := None; job_is_remote := Some true;
     job_employment_type := None;
     job_apply_link := Some "https://globex.example/apply";
     job_description := Some "Call 022 555-1234 for details.";
     job_highlights := None; job_salary := None;
     job_posted_at_timestamp := None; job_posted_at_datetime_utc := None;
     job_posted_at := None |}.

(** A salary range whose lower bound is zero, and its mirror image. *)
Definition listingZeroMin : JSearchJob :=
  withSalary emptyListing
    (Some (primarySalary None (Some 0%float) (Some 50000%float) None)).

Definition listingZeroMax : JSearchJob :=
  withSalary emptyListing
    (Some (primarySalary None (Some 50000%float) (Some 0%float) None)).

(** A listing whose only posting time is an epoch-seconds number too large
    for a date: 10^13 s is 10^16 ms, beyond the 8.64e15 ms a time value may
    reach. *)
Definition listingHugeTimestamp : JSearchJob :=
  withPosted emptyListing (Some 10000000000000%Z) None None.

(** ** A sample batch and a sample schedule *)

Definition sampleRuntime : Runtime :=
  {| formatCurrency := fun cur _ => cur ++ " amount";
     formatShortDate := fun _ => "1 Jan 2024";
     parseDate := fun _ => None |}.

Definition sampleSync (i : nat) : tick :=
  {| tick_now := 1700000000000; tick_uuid := "generated-id" |}.

Definition sampleTick : tick :=
  {| tick_now := 1700000001000; tick_uuid := "generated-later" |}.

Definition sampleSuggestion : ClearbitSuggestion :=
  {| cs_name := "Globex"; cs_domain := Some "globex.example"; cs_logo := None;
     cs_description := None; cs_location := None;
     cs_twitter := Some (mkHandle "globex"); cs_linkedin := None |}.

(** Three listings: the second has no employer name. *)
Definition sampleData : option (list JSearchJob) :=
  Some [listingEmailOnly; emptyListing; listingEmailAndMailto].

(** The lookup of the third listing fails first, then the lookup of the
    first listing succeeds. *)
Definition sampleSchedule : list event :=
  [ LookupSettles 2 FetchRejected sampleTick;
    LookupSettles 0 (FetchResponse 200 (BodyArray [Some sampleSuggestion]))
      sampleTick ].

(** * More of the code

    The rest of route.ts (the query builder and the request handling in
    front of the enrichment) and the pure parts of the search form
    component that shows the results. *)

(** ** What a match looks like *)

(** [s] splits into one piece per atom, each piece made of characters of the
    atom's class and as long as the quantifier allows. *)
Fixpoint shaped (ic : bool) (atoms : list Regex.atom) (s : string) : Prop :=
  match atoms with
  | [] => s = EmptyString
  | a :: rest =>
      exists piece tail,
        s = piece ++ tail /\
        JS.allChars (Regex.classTest ic (Regex.a_class a)) piece = true /\
        Regex.a_min a <= String.length piece /\
        (forall m, Regex.a_max a = Some m -> String.length piece <= m) /\
        shaped ic rest tail
  end.

(** The characters a phone candidate is made of. *)
Definition phoneChar (c : ascii) : bool :=
  Regex.anyClass false (Regex.re_atoms PHONE_REGEX) c.

(** ** The search form component: what it does with a contact *)

(** The React key of a contact in the list of a result card. *)
Definition contactKey (c : JobContact) : string :=
  label c ++ "-" ++ value c.

(** The [href] of the link of a contact; [None] is [undefined]. *)
Definition contactHref (c : JobContact) : option string :=
  if JS.includes "@" (value c) then Some ("mailto:" ++ value c)
  else if JS.startsWith "http" (value c) then Some (value c)
  else None.

(** A listing whose contact fields hold white space only. *)
Definition listingBlankFields : JSearchJob :=
  {| job_id := Some "j-4"; job_title := Some "QA Engineer";
     employer_name := Some "Initech"; employer_website := Some "  ";
     employer_email := Some " "; job_city := None;
     job_state := None; job_country := None; job_is_remote := None;
     job_employment_type := None; job_apply_link := Some "";
     job_description := Some "   ";
     job_highlights := None; job_salary := None;
     job_posted_at_timestamp := None; job_posted_at_datetime_utc := None;
     job_posted_at := None |}.

(** ** Reading [formatSalary] and [formatPosted] *)

(** The bounds and the period [formatSalary] resolves. *)
Definition resolvedMin (s : JobSalary) : option float :=
  nullish (salary_min s) (min_salary s).

Definition resolvedMax (s : JobSalary) : option float :=
  nullish (salary_max s) (max_salary s).

Definition resolvedPeriod (s : JobSalary) : option string :=
  nullish (salary_period s) (period s).

(** The currency code the formatter is built with. *)
Definition currencyOf (s : JobSalary) : string :=
  nullishOr (currency s) "INR".

(** The string [formatPosted] hands to the date parser, if any. *)
Definition isoString (job : JSearchJob) : option string :=
  nullish (ensureString (ofString (job_posted_at_datetime_utc job)))
    (nullish (ensureString (ofString (job_posted_at job)))
       (ensureString (ofNumber (job_posted_at_timestamp job)))).

(** A listing with a salary range in a currency that is no currency code. *)
Definition listingBadCurrency : JSearchJob :=
  withSalary emptyListing
    (Some {| currency := Some "rupees"; salary_min := Some 40000%float;
             salary_max := Some 50000%float; salary_period := Some "month";
             min_salary := None; max_salary := None; period := None |}).

(** A listing with a monthly salary range in rupees. *)
Definition listingRange : JSearchJob :=
  withSalary emptyListing
    (Some {| currency := None; salary_min := None;
             salary_max := None; salary_period := None;
             min_salary := Some 40000%float; max_salary := Some 50000%float;
             period := Some "month" |}).

(** ** Reading the fan-out *)

(** The event of a schedule that settles the lookup of listing [i]. *)
Definition findEvent (i : nat) (evs : list event) : option event :=
  find (fun ev => eventIndex ev =? i) evs.

(** The callback of closure [cl] resumed by an event. *)
Definition resume (rt : Runtime) (jobProfile : string) (cl : closure)
    (ev : event) : promise :=
  match ev with
  | LookupSettles _ o tk =>
      settle (companyInsight <- companyInsightOfOutcome o ;;
              buildResult rt jobProfile cl companyInsight tk)
  end.

(** The promise at index [i] once the schedule [evs] has run. *)
Definition settledBy (rt : Runtime) (jobProfile : string) (evs : list event)
    (i : nat) (p : promise) : promise :=
  match p with
  | Awaiting cl =>
      match findEvent i evs with
      | Some ev => resume rt jobProfile cl ev
      | None => p
      end
  | _ => p
  end.

(** A promise of a listing is pending on that listing's closure or settled
    with a result object built from it. *)
Definition originOf (rt : Runtime) (jobProfile : string) (job : JSearchJob)
    (p : promise) : Prop :=
  p = Awaiting (prepare job) \/
  exists companyInsight tk,
    p = settle (buildResult rt jobProfile (prepare job) companyInsight tk).

(** A rejection [Promise.all] has settled with is a rejection of one of its
    promises. *)
Definition rejectionRecorded (st : orchestration) : Prop :=
  forall e, outcome st = Some (Throw e) -> firstRejection (promises st) <> None.

(** The response as a function of the promises alone. *)
Definition responseOf (ps : list promise) : option response :=
  match firstRejection ps with
  | Some _ =>
      Some (ErrorResponse
              "Unexpected server error while fetching hiring intelligence." 500)
  | None =>
      match allFulfilled ps with
      | Some rs => Some (JsonResponse rs)
      | None => None
      end
  end.

(** A batch whose second listing has a salary in a currency that is no
    currency code. *)
Definition sampleBadBatch : option (list JSearchJob) :=
  Some [listingEmailOnly; listingBadCurrency].

(** ** Reading the lookup URL *)

(** A character that can stand in a query value without ending it: an
    unreserved character or the percent sign of an escape. *)
Definition uriSafe (c : ascii) : bool :=
  isUriUnreserved c || Ascii.eqb c "%".

(** The highlight buckets of a listing, an absent bucket being empty. *)
Definition bucket (job : JSearchJob)
    (field : JobHighlights -> option (list string)) : list string :=
  match job_highlights job with
  | Some h => arrayOrEmpty (field h)
  | None => []
  end.

(** A string an optional field of a result may hold: not empty, no white
    space around it. *)
Definition tidy (o : option string) : Prop :=
  forall v, o = Some v -> JS.nonEmpty v = true /\ JS.trim v = v.

(** ** route.ts, lines 7-14 and 99-122: the payload and [buildQuery]

    The selectors of the payload are string unions in the source; what
    arrives is whatever string the request body holds, so they are strings
    here. *)

Module SearchPayload.

Record t := mk {
  jobProfile : option string;
  geography : option string;
  location : option string;
  experienceLevel : option string;
  remote : option string;
  rapidApiKey : option string
}.

End SearchPayload.

(** [Required<SearchPayload>]. *)
Module Payload.

Record t := mk {
  jobProfile : string;
  geography : string;
  location : string;
  experienceLevel : string;
  remote : string;
  rapidApiKey : string
}.

End Payload.

(** [parts.join(sep)]. *)
Fixpoint join (sep : string) (parts : list string) : string :=
  match parts with
  | [] => ""
  | [p] => p
  | p :: rest => p ++ sep ++ join sep rest
  end.

(** The array [parts] as it stands at line 120. *)
Definition queryParts (payload : Payload.t) : list string :=
  let parts := [Payload.jobProfile payload; Payload.location payload] in
  let level := Payload.experienceLevel payload ++ " level" in
  let parts :=
    if negb (String.eqb (Payload.experienceLevel payload) "any")
    then (parts ++ [level])%list
    else parts in
  let parts :=
    if String.eqb (Payload.remote payload) "remote"
    then (parts ++ ["remote"])%list
    else if String.eqb (Payload.remote payload) "hybrid"
    then (parts ++ ["hybrid"])%list
    else if String.eqb (Payload.remote payload) "on-site"
    then (parts ++ ["on-site"])%list
    else parts in
  if String.eqb (Payload.geography payload) "india"
  then (parts ++ ["India"])%list
  else parts.

Definition buildQuery (payload : Payload.t) : string :=
  join " " (filter JS.nonEmpty (queryParts payload)).

(** ** route.ts, lines 333-413: [POST] before the enrichment *)

(** What [request.json()] gives: a rejection, or the payload. *)
Inductive requestBody :=
| RequestUnparsable
| RequestPayload (body : SearchPayload.t).

(** Characters the serializer of [URLSearchParams] leaves alone. *)
Definition isFormSafe (c : ascii) : bool :=
  isAsciiLetter c || JS.between 48 57 c ||
  existsb (Ascii.eqb c) (list_ascii_of_string "*-._").

(** The serializer of [URLSearchParams] on one code unit below 256: a space
    becomes a plus sign, other characters the percent-encoding of their
    UTF-8 bytes. *)
Definition formEncodeChar (c : ascii) : string :=
  if isFormSafe c then String c ""
  else if Ascii.eqb c " " then "+"
  else if JS.code c <? 128 then percentByte (JS.code c)
  else percentByte (192 + JS.code c / 64) ++
       percentByte (128 + JS.code c mod 64).

Fixpoint formEncode (s : string) : string :=
  match s with
  | EmptyString => EmptyString
  | String c s' => formEncodeChar c ++ formEncode s'
  end.

(** [searchParams.toString()]. *)
Fixpoint searchParamsToString (params : list (string * string)) : string :=
  match params with
  | [] => ""
  | [(k, v)] => formEncode k ++ "=" ++ formEncode v
  | (k, v) :: rest =>
      formEncode k ++ "=" ++ formEncode v ++ "&" ++ searchParamsToString rest
  end.

(** The entries of [searchParams] as they stand at line 390. *)
Definition searchParamsOf (query remote : string) : list (string * string) :=
  let searchParams := [("query", query); ("page", "1"); ("num_pages", "1")] in
  if String.eqb remote "remote"
  then (searchParams ++ [("remote_jobs_only", "true")])%list
  else if String.eqb remote "on-site"
  then (searchParams ++ [("remote_jobs_only", "false")])%list
  else searchParams.

(** The call to the search provider: its URL and the key header. *)
Record searchRequest := mkSearchRequest {
  sr_url : string;
  sr_key : string
}.

(** What the handler does with a request body: it answers at once, or it
    calls the search provider, keeping the job profile for the titles. *)
Inductive handling :=
| Answer (r : response)
| CallProvider (req : searchRequest) (payload : Payload.t).

Definition serverError : response :=
  ErrorResponse "Unexpected server error while fetching hiring intelligence." 500.

(** Lines 335-399; [envKey] is [process.env.RAPIDAPI_KEY]. *)
Definition POST_request (envKey : option string) (request : requestBody)
    : handling :=
  match request with
  | RequestUnparsable => Answer serverError        (* the [catch] of line 469 *)
  | RequestPayload body =>
      let jobProfile := ensureString (ofString (SearchPayload.jobProfile body)) in
      let location := ensureString (ofString (SearchPayload.location body)) in
      let geography := nullishOr (SearchPayload.geography body) "india" in
      let experienceLevel :=
        nullishOr (SearchPayload.experienceLevel body) "any" in
      let remote := nullishOr (SearchPayload.remote body) "any" in
      let rapidApiKey :=
        nullish (ensureString (ofString (SearchPayload.rapidApiKey body)))
          (ensureString (ofString envKey)) in
      match jobProfile with
      | None => Answer (ErrorResponse "jobProfile is required" 400)
      | Some jobProfile =>
          match location with
          | None => Answer (ErrorResponse "location is required" 400)
          | Some location =>
              match rapidApiKey with
              | None =>
                  Answer
                    (ErrorResponse
                       "RapidAPI key missing. Provide it in the request or configure RAPIDAPI_KEY."
                       401)
              | Some rapidApiKey =>
                  let payload :=
                    Payload.mk jobProfile geography location experienceLevel
                      remote rapidApiKey in
                  let query := buildQuery payload in
                  let searchParams := searchParamsOf query remote in
                  CallProvider
                    {| sr_url := "https://jsearch.p.rapidapi.com/search?" ++
                                 searchParamsToString searchParams;
                       sr_key := rapidApiKey |}
                    payload
              end
          end
      end
  end.

(** What the provider's body parses to: nothing (not JSON), or an object
    with its optional [message] and [data]. *)
Inductive providerBody :=
| ProviderUnparsable
| ProviderJson (message : option string) (data : option (list JSearchJob)).

(** What the call to the provider gives: a rejection or a response. *)
Inductive providerOutcome :=
| ProviderRejected
| ProviderResponse (status : Z) (body : providerBody).

(** Either the handler answers, or the enrichment starts on [data]. *)
Inductive afterSearch :=
| AnswerNow (r : response)
| Enrich (data : option (list JSearchJob)).

(** A status a response with a body cannot have. *)
Definition isNullBodyStatus (status : Z) : bool :=
  existsb (Z.eqb status) [101; 103; 204; 205; 304]%Z.

(** [NextResponse.json(body, {status})]: the constructor of a response
    throws a [RangeError] on a status outside 200-599 and a [TypeError] on a
    null-body status. *)
Definition jsonWithStatus (message : string) (status : Z) : completion response :=
  if negb ((200 <=? status) && (status <=? 599))%Z then Throw RangeError
  else if isNullBodyStatus status then Throw TypeError
  else Normal (ErrorResponse message status).

(** Lines 401-415; what throws is caught at line 469. *)
Definition POST_provider (o : providerOutcome) : afterSearch :=
  match o with
  | ProviderRejected => AnswerNow serverError
  | ProviderResponse status body =>
      if negb (ok status) then
        let message :=
          match body with
          | ProviderJson (Some message) _ => message
          | _ =>
              "JSearch API returned " ++ JS.numberToString status ++
              ". Check RapidAPI quota and key."
          end in
        match jsonWithStatus message status with
        | Normal r => AnswerNow r
        | Throw _ => AnswerNow serverError
        end
      else
        match body with
        | ProviderUnparsable => AnswerNow serverError
        | ProviderJson _ data => Enrich data
        end
  end.

(** ** The search form component: location *)

Definition indianStates : list string :=
  [ "Andhra Pradesh"; "Arunachal Pradesh"; "Assam"; "Bihar"; "Chhattisgarh";
    "Goa"; "Gujarat"; "Haryana"; "Himachal Pradesh"; "Jharkhand"; "Karnataka";
    "Kerala"; "Madhya Pradesh"; "Maharashtra"; "Manipur"; "Meghalaya";
    "Mizoram"; "Nagaland"; "Odisha"; "Punjab"; "Rajasthan"; "Sikkim";
    "Tamil Nadu"; "Telangana"; "Tripura"; "Uttar Pradesh"; "Uttarakhand";
    "West Bengal"; "Delhi"; "Jammu and Kashmir"; "Ladakh"; "Puducherry";
    "Chandigarh"; "Dadra and Nagar Haveli and Daman and Diu";
    "Andaman and Nicobar Islands"; "Lakshadweep" ].

(** [a || b] on strings. *)
Definition orElse (a b : string) : string :=
  if JS.nonEmpty a then a else b.

(** The memo [effectiveLocation]. *)
Definition effectiveLocation (geography selectedState customLocation : string)
    : string :=
  if String.eqb geography "india" then selectedState
  else orElse (JS.trim customLocation) "India".

(** The state of the form that [handleSubmit] sends. *)
Record formState := mkFormState {
  fs_jobProfile : string;
  fs_geography : string;
  fs_selectedState : string;
  fs_customLocation : string;
  fs_experienceLevel : string;
  fs_remotePreference : string;
  fs_rapidApiKey : string
}.

(** The payload of [handleSubmit]. *)
Definition submittedPayload (fs : formState) : SearchPayload.t :=
  {| SearchPayload.jobProfile := Some (fs_jobProfile fs);
     SearchPayload.geography := Some (fs_geography fs);
     SearchPayload.location :=
       Some (effectiveLocation (fs_geography fs) (fs_selectedState fs)
               (fs_customLocation fs));
     SearchPayload.experienceLevel := Some (fs_experienceLevel fs);
     SearchPayload.remote := Some (fs_remotePreference fs);
     SearchPayload.rapidApiKey :=
       if JS.nonEmpty (JS.trim (fs_rapidApiKey fs))
       then Some (JS.trim (fs_rapidApiKey fs)) else None |}.

(** An optional string that is there and not empty. *)
Definition present (o : option string) : bool :=
  match o with
  | Some s => JS.nonEmpty s
  | None => false
  end.

(** The suffixes [buildQuery] adds after the job profile and the location. *)
Definition levelSuffix (experienceLevel : string) : string :=
  if String.eqb experienceLevel "any" then ""
  else " " ++ experienceLevel ++ " level".

Definition remoteSuffix (remote : string) : string :=
  if String.eqb remote "remote" then " remote"
  else if String.eqb remote "hybrid" then " hybrid"
  else if String.eqb remote "on-site" then " on-site"
  else "".

Definition geographySuffix (geography : string) : string :=
  if String.eqb geography "india" then " India" else "".

(** The filter parameter the work style adds to the search. *)
Definition remoteFilter (remote : string) : string :=
  if String.eqb remote "remote" then "&remote_jobs_only=true"
  else if String.eqb remote "on-site" then "&remote_jobs_only=false"
  else "".

(** A character of a serialized query value. *)
Definition formChar (c : ascii) : bool :=
  isFormSafe c || Ascii.eqb c "+" || Ascii.eqb c "%".

(** [l.filter(Boolean)] on an array of strings and [undefined]. *)
Definition truthyStrings (l : list (option string)) : list string :=
  flat_map (fun o => match o with
                     | Some s => if JS.nonEmpty s then [s] else []
                     | None => []
                     end) l.

(** The separator of the location segments: a middle dot between spaces. *)
Definition middleDot : string :=
  " " ++ String (ascii_of_nat 183) " ".

Definition formatLocation (job : JobResult) : string :=
  let segments :=
    truthyStrings
      [ Some (join ", " (truthyStrings [city job; state job])); country job ] in
  if 0 <? List.length segments
  then join middleDot segments
  else "Location confidential".

(** A form left as it loads, but for the own location typed in. *)
Definition sampleForm : formState :=
  {| fs_jobProfile := "Software Engineer"; fs_geography := "global";
     fs_selectedState := "Karnataka"; fs_customLocation := "  Singapore ";
     fs_experienceLevel := "senior"; fs_remotePreference := "remote";
     fs_rapidApiKey := " key-123 " |}.

(** * Lemmas *)

(** ** Strings *)

Section StringFacts.

Lemma lowerChar_idem (c : ascii) : JS.lowerChar (JS.lowerChar c) = JS.lowerChar c.
Proof.
  destruct c as [[] [] [] [] [] [] [] []]; reflexivity.
Qed.

Lemma toLowerCase_idem (s : string) :
  JS.toLowerCase (JS.toLowerCase s) = JS.toLowerCase s.
Proof.
  induction s as [|c s IH]; simpl.
  - reflexivity.
  - now rewrite lowerChar_idem, IH.
Qed.

Lemma append_empty_r (s : string) : s ++ "" = s.
Proof.
  induction s as [|c s IH]; simpl; [reflexivity | now rewrite IH].
Qed.

Lemma allChars_impl (p q : ascii -> bool) (s : string) :
  (forall c, p c = true -> q c = true) ->
  JS.allChars p s = true -> JS.allChars q s = true.
Proof.
  intros Hpq. induction s as [|c s IH]; simpl; auto.
  intros H. apply andb_true_iff in H as [Hc Hs].
  apply andb_true_iff. split; auto.
Qed.

Lemma allChars_append (p : ascii -> bool) (s t : string) :
  JS.allChars p (s ++ t) = JS.allChars p s && JS.allChars p t.
Proof.
  induction s as [|c s IH]; simpl.
  - reflexivity.
  - now rewrite IH, andb_assoc.
Qed.

Lemma allChars_take (p : ascii -> bool) (n : nat) (s : string) :
  JS.allChars p s = true -> JS.allChars p (JS.take n s) = true.
Proof.
  revert s. induction n as [|n IH]; intros [|c s]; simpl; auto.
  intros H. apply andb_true_iff in H as [Hc Hs].
  now rewrite Hc, IH.
Qed.

Lemma allChars_trimStart (p : ascii -> bool) (s : string) :
  JS.allChars p s = true -> JS.allChars p (JS.trimStart s) = true.
Proof.
  induction s as [|c s IH]; simpl; auto.
  intros H. destruct (JS.isWhiteSpace c); simpl; auto.
  apply andb_true_iff in H as [_ Hs]. auto.
Qed.

Lemma allChars_trimEnd (p : ascii -> bool) (s : string) :
  JS.allChars p s = true -> JS.allChars p (JS.trimEnd s) = true.
Proof.
  induction s as [|c s IH]; simpl; auto.
  intros H. apply andb_true_iff in H as [Hc Hs].
  specialize (IH Hs).
  destruct (JS.trimEnd s) as [|d r].
  - destruct (JS.isWhiteSpace c); simpl; auto. now rewrite Hc.
  - change (JS.allChars p (String c (String d r)) = true).
    simpl. simpl in IH. now rewrite Hc, IH.
Qed.

Lemma allChars_trim (p : ascii -> bool) (s : string) :
  JS.allChars p s = true -> JS.allChars p (JS.trim s) = true.
Proof.
  intros H. unfold JS.trim. now apply allChars_trimEnd, allChars_trimStart.
Qed.

(** A string that contains a character has that character among its code
    units. *)
Lemma includes_char_allChars (a : ascii) (s : string) :
  JS.allChars (fun c => negb (Ascii.eqb a c)) s = true ->
  JS.includes (String a EmptyString) s = false.
Proof.
  induction s as [|c s IH]; simpl; auto.
  intros H. apply andb_true_iff in H as [Hc Hs].
  rewrite (IH Hs). apply negb_true_iff in Hc. rewrite Hc. reflexivity.
Qed.

End StringFacts.

(** ** The matcher: a match consists of characters of the pattern's classes *)

Section RegexFacts.

Lemma matchRep_chars (p q : ascii -> bool) (mn : nat) (mx : option nat)
    (k : string -> option nat) :
  (forall c, p c = true -> q c = true) ->
  (forall s r, k s = Some r -> JS.allChars q (JS.take r s) = true) ->
  forall s n r,
    Regex.matchRep p mn mx n k s = Some r ->
    JS.allChars q (JS.take r s) = true.
Proof.
  intros Hpq Hk. induction s as [|c s IH]; intros n r H.
  - simpl in H. destruct (mn <=? n); [eauto | discriminate].
  - cbn [Regex.matchRep] in H.
    assert (Hstop : (if mn <=? n then k (String c s) else None) = Some r ->
                    JS.allChars q (JS.take r (String c s)) = true).
    { destruct (mn <=? n); [apply Hk | discriminate]. }
    destruct (p c && Regex.belowMax n mx) eqn:Hc; [|auto].
    destruct (Regex.matchRep p mn mx (S n) k s) as [r'|] eqn:Hrec; [|auto].
    injection H as <-. simpl.
    apply andb_true_iff in Hc as [Hc _].
    rewrite (Hpq _ Hc). simpl. eauto.
Qed.

Lemma matchAtoms_chars (ic : bool) (atoms : list Regex.atom) :
  forall s r,
    Regex.matchAtoms ic atoms s = Some r ->
    JS.allChars (Regex.anyClass ic atoms) (JS.take r s) = true.
Proof.
  induction atoms as [|a rest IH]; intros s r H.
  - simpl in H. injection H as <-. destruct s; reflexivity.
  - simpl in H. eapply matchRep_chars; [| |exact H].
    + intros c Hc. unfold Regex.anyClass. simpl. now rewrite Hc.
    + intros s' r' H'. eapply allChars_impl; [|apply IH, H'].
      intros c Hc. unfold Regex.anyClass in *. simpl. rewrite Hc. apply orb_true_r.
Qed.

Lemma scanMatches_chars (re : Regex.regex) (s : string) :
  forall skip m,
    In m (Regex.scanMatches re skip s) ->
    JS.allChars (Regex.anyClass (Regex.re_ignoreCase re) (Regex.re_atoms re)) m = true.
Proof.
  induction s as [|c s IH]; intros skip m Hin.
  - simpl in Hin. destruct skip; [|contradiction].
    destruct (Regex.matchAt re ""); [|contradiction].
    destruct Hin as [<-|[]]. reflexivity.
  - cbn [Regex.scanMatches] in Hin. destruct skip as [|skip]; [|eauto].
    destruct (Regex.matchAt re (String c s)) as [[|n]|] eqn:Hm; [| |eauto].
    + destruct Hin as [<-|Hin]; [reflexivity | eauto].
    + destruct Hin as [<-|Hin]; [|eauto].
      apply matchAtoms_chars. exact Hm.
Qed.

Lemma matchAll_chars (re : Regex.regex) (s m : string) :
  In m (Regex.matchAll re s) ->
  JS.allChars (Regex.anyClass (Regex.re_ignoreCase re) (Regex.re_atoms re)) m = true.
Proof. apply scanMatches_chars. Qed.

Lemma replaceScan_chars (p : ascii -> bool) (re : Regex.regex) (repl : string) :
  JS.allChars p repl = true ->
  forall s skip,
    JS.allChars p s = true ->
    JS.allChars p (Regex.replaceScan re repl skip s) = true.
Proof.
  intros Hrepl. induction s as [|c s IH]; intros skip Hs.
  - simpl. destruct skip; [|reflexivity].
    destruct (Regex.matchAt re ""); [exact Hrepl | reflexivity].
  - cbn [Regex.replaceScan]. simpl in Hs.
    apply andb_true_iff in Hs as [Hc Hs].
    destruct skip as [|skip]; [|auto].
    destruct (Regex.matchAt re (String c s)) as [[|n]|].
    + rewrite allChars_append, Hrepl. simpl. now rewrite Hc, IH.
    + rewrite allChars_append, Hrepl. simpl. auto.
    + simpl. now rewrite Hc, IH.
Qed.

End RegexFacts.

(** ** The ordered map and the first-occurrence reading *)

Section MapFacts.

Context {V : Type}.

Lemma has_false_not_in (k : string) (m : OrderedMap.t V) :
  OrderedMap.has k m = false <-> ~ In k (OrderedMap.keys m).
Proof.
  unfold OrderedMap.has, OrderedMap.keys. induction m as [|[k' v] m IH]; simpl.
  - split; auto.
  - rewrite orb_false_iff, IH. destruct (String.eqb_spec k' k).
    + split; [intros [? _]; discriminate | intros H; exfalso; apply H; auto].
    + split; [intros [_ H] [?|?]; [contradiction | auto] | intros H; split; auto].
Qed.

Lemma has_existsb (k : string) (m : OrderedMap.t V) :
  OrderedMap.has k m = existsb (String.eqb k) (OrderedMap.keys m).
Proof.
  unfold OrderedMap.has, OrderedMap.keys. induction m as [|[k' v] m IH]; simpl.
  - reflexivity.
  - now rewrite IH, (String.eqb_sym k' k).
Qed.

Lemma keys_set (k : string) (v : V) (m : OrderedMap.t V) :
  OrderedMap.keys (OrderedMap.set k v m) =
  if OrderedMap.has k m then OrderedMap.keys m
  else (OrderedMap.keys m ++ [k])%list.
Proof.
  unfold OrderedMap.set, OrderedMap.keys. destruct (OrderedMap.has k m).
  - induction m as [|[k' v'] m IH]; simpl; [reflexivity|].
    rewrite IH. destruct (String.eqb_spec k' k); simpl; congruence.
  - now rewrite map_app.
Qed.

Lemma set_Forall (P : string * V -> Prop) (k : string) (v : V) (m : OrderedMap.t V) :
  P (k, v) -> Forall P m -> Forall P (OrderedMap.set k v m).
Proof.
  intros Hkv Hm. unfold OrderedMap.set. destruct (OrderedMap.has k m).
  - induction Hm as [|e m He Hm IH]; simpl; constructor; auto.
    destruct (String.eqb (fst e) k); auto.
  - apply Forall_app. split; auto.
Qed.

Lemma set_NoDup (k : string) (v : V) (m : OrderedMap.t V) :
  NoDup (OrderedMap.keys m) -> NoDup (OrderedMap.keys (OrderedMap.set k v m)).
Proof.
  intros H. rewrite keys_set. destruct (OrderedMap.has k m) eqn:Hk; auto.
  apply has_false_not_in in Hk.
  apply NoDup_app.
  - exact H.
  - constructor; [intros [] | constructor].
  - intros x Hx [<-|[]]. contradiction.
Qed.

(** Inserting every element of [l] unless its key is present appends the
    first occurrences. *)
Lemma fold_insert_absent {A : Type} (kf : A -> string) (vf : A -> V) (l : list A) :
  forall m : OrderedMap.t V,
    fold_left
      (fun acc x => if negb (OrderedMap.has (kf x) acc)
                    then OrderedMap.set (kf x) (vf x) acc else acc) l m =
    (m ++ map (fun x => (kf x, vf x)) (dedupBy kf (OrderedMap.keys m) l))%list.
Proof.
  induction l as [|x l IH]; intros m; simpl.
  - now rewrite app_nil_r.
  - rewrite IH. rewrite <- has_existsb.
    destruct (OrderedMap.has (kf x) m) eqn:Hk; simpl; [reflexivity|].
    unfold OrderedMap.set. rewrite Hk.
    unfold OrderedMap.keys. rewrite map_app, <- app_assoc. reflexivity.
Qed.

End MapFacts.

Lemma NoDup_map_injective {A B : Type} (f : A -> B) (l : list A) :
  (forall x y, f x = f y -> x = y) -> NoDup l -> NoDup (map f l).
Proof.
  intros Hinj H. induction H as [|x l Hx Hl IH]; simpl; constructor; auto.
  intros Hin. apply in_map_iff in Hin as [y [Hy Hin]].
  apply Hinj in Hy. now subst.
Qed.

Section DedupFacts.

Context {A : Type} (kf : A -> string).

Lemma existsb_eqb_In (x : string) (l : list string) :
  existsb (String.eqb x) l = true <-> In x l.
Proof.
  rewrite existsb_exists. split.
  - intros [y [Hy He]]. apply String.eqb_eq in He. now subst.
  - intros H. exists x. split; auto. apply String.eqb_refl.
Qed.

Lemma existsb_eqb_not_In (x : string) (l : list string) :
  existsb (String.eqb x) l = false <-> ~ In x l.
Proof.
  rewrite <- existsb_eqb_In. destruct (existsb (String.eqb x) l); split; auto;
    try discriminate. intros H. exfalso. now apply H.
Qed.

Lemma dedupBy_In (l : list A) :
  forall seen x, In x (dedupBy kf seen l) -> In x l /\ ~ In (kf x) seen.
Proof.
  induction l as [|y l IH]; intros seen x H; simpl in H; [contradiction|].
  destruct (existsb (String.eqb (kf y)) seen) eqn:Hy.
  - apply IH in H. simpl. tauto.
  - apply existsb_eqb_not_In in Hy. destruct H as [<-|H]; [simpl; auto|].
    apply IH in H as [H1 H2]. split; [simpl; auto|].
    intros Hin. apply H2, in_or_app. auto.
Qed.

(** The keys of the first occurrences are pairwise distinct. *)
Lemma dedupBy_NoDup (l : list A) :
  forall seen, NoDup (map kf (dedupBy kf seen l)).
Proof.
  induction l as [|y l IH]; intros seen; simpl; [constructor|].
  destruct (existsb (String.eqb (kf y)) seen); [apply IH|].
  simpl. constructor; [|apply IH].
  intros Hin. apply in_map_iff in Hin as [x [Hx Hin]].
  apply dedupBy_In in Hin as [_ Hn]. apply Hn, in_or_app. right. left. auto.
Qed.

(** Nothing is dropped from a list whose keys are distinct and unseen. *)
Lemma dedupBy_fresh (l : list A) :
  forall seen,
    NoDup (map kf l) ->
    (forall x, In x l -> ~ In (kf x) seen) ->
    dedupBy kf seen l = l.
Proof.
  induction l as [|y l IH]; intros seen Hnd Hseen; simpl; [reflexivity|].
  inversion Hnd as [|? ? Hy Hnd']; subst.
  destruct (existsb (String.eqb (kf y)) seen) eqn:E.
  - apply existsb_eqb_In in E. exfalso. apply (Hseen y); simpl; auto.
  - f_equal. apply IH; auto.
    intros x Hx Hin. apply in_app_or in Hin as [Hin|[Hin|[]]].
    + apply (Hseen x); simpl; auto.
    + apply Hy. rewrite Hin. now apply in_map.
Qed.

End DedupFacts.

(** ** Phone normalization is idempotent *)

Section NormalizeFacts.

Lemma whiteSpace_class (c : ascii) :
  Regex.classTest false Regex.whiteSpace c = JS.isWhiteSpace c.
Proof.
  destruct c as [[] [] [] [] [] [] [] []]; reflexivity.
Qed.

(** A run of white space is matched whole. *)
Lemma matchRep_spaceRun (s : string) :
  forall n,
    Regex.matchRep (Regex.classTest false Regex.whiteSpace) 1 None n
      (fun _ => Some 0) s =
    match spaceRun s with
    | O => if 1 <=? n then Some 0 else None
    | S r => Some (S r)
    end.
Proof.
  induction s as [|c s IH]; intros n; cbn [Regex.matchRep spaceRun].
  - reflexivity.
  - rewrite whiteSpace_class. destruct (JS.isWhiteSpace c); cbn [andb Regex.belowMax].
    + rewrite IH. destruct (spaceRun s); reflexivity.
    + reflexivity.
Qed.

Lemma matchAt_spaceRun (s : string) :
  Regex.matchAt WHITESPACE_RUN s =
  match spaceRun s with
  | O => None
  | S r => Some (S r)
  end.
Proof.
  unfold Regex.matchAt, WHITESPACE_RUN. cbn [Regex.re_atoms Regex.re_ignoreCase
    Regex.matchAtoms Regex.a_class Regex.a_min Regex.a_max].
  rewrite matchRep_spaceRun. destruct (spaceRun s); reflexivity.
Qed.

(** Collapsing leaves single spaces only. *)
Lemma replaceScan_singleSpaced (s : string) :
  singleSpaced (Regex.replaceScan WHITESPACE_RUN " " 0 s) = true /\
  (singleSpaced (Regex.replaceScan WHITESPACE_RUN " " (spaceRun s) s) = true /\
   startsWithSpace (Regex.replaceScan WHITESPACE_RUN " " (spaceRun s) s) = false).
Proof.
  induction s as [|c s [IHa [IHb IHc]]].
  - repeat split.
  - assert (Hplain : JS.isWhiteSpace c = false ->
             Regex.replaceScan WHITESPACE_RUN " " 0 (String c s) =
             String c (Regex.replaceScan WHITESPACE_RUN " " 0 s)).
    { intros Hc. cbn [Regex.replaceScan]. rewrite matchAt_spaceRun.
      cbn [spaceRun]. now rewrite Hc. }
    destruct (JS.isWhiteSpace c) eqn:Hc.
    + split; [|split].
      * cbn [Regex.replaceScan]. rewrite matchAt_spaceRun. cbn [spaceRun].
        rewrite Hc. cbn [append singleSpaced].
        rewrite IHb, IHc. reflexivity.
      * cbn [spaceRun]. rewrite Hc. cbn [Regex.replaceScan]. exact IHb.
      * cbn [spaceRun]. rewrite Hc. cbn [Regex.replaceScan]. exact IHc.
    + specialize (Hplain eq_refl). cbn [spaceRun]. rewrite Hc, Hplain.
      cbn [singleSpaced startsWithSpace]. rewrite Hc, IHa. repeat split.
Qed.

(** Collapsing a single-spaced string changes nothing. *)
Lemma replaceScan_fixed (s : string) :
  singleSpaced s = true ->
  Regex.replaceScan WHITESPACE_RUN " " 0 s = s.
Proof.
  induction s as [|c s IH]; intros H.
  - reflexivity.
  - cbn [singleSpaced] in H. apply andb_true_iff in H as [Hc Hs].
    cbn [Regex.replaceScan]. rewrite matchAt_spaceRun. cbn [spaceRun].
    destruct (JS.isWhiteSpace c).
    + apply andb_true_iff in Hc as [Hsp Hnext].
      apply Ascii.eqb_eq in Hsp. subst c.
      assert (Hrun : spaceRun s = 0).
      { destruct s as [|d s']; [reflexivity|]. cbn in Hnext |- *.
        apply negb_true_iff in Hnext. now rewrite Hnext. }
      rewrite Hrun. cbn [append]. now rewrite IH.
    + now rewrite IH.
Qed.

Lemma singleSpaced_trimStart (s : string) :
  singleSpaced s = true -> singleSpaced (JS.trimStart s) = true.
Proof.
  induction s as [|c s IH]; intros H; [reflexivity|].
  cbn [JS.trimStart]. destruct (JS.isWhiteSpace c); [|exact H].
  cbn [singleSpaced] in H. apply andb_true_iff in H as [_ H]. auto.
Qed.

(** What is left of a string after trimming its end begins as the string
    does. *)
Lemma trimEnd_head (s : string) :
  JS.trimEnd s = EmptyString \/
  exists c r r', s = String c r /\ JS.trimEnd s = String c r' /\
                 (r' = EmptyString \/ r' = JS.trimEnd r /\
                  startsWithSpace r' = startsWithSpace r).
Proof.
  induction s as [|c s IH]; [now left|].
  cbn [JS.trimEnd]. destruct IH as [E|[d [r [r' [-> [E Hr]]]]]].
  - rewrite E. destruct (JS.isWhiteSpace c); [now left|].
    right. exists c, s, EmptyString. auto.
  - rewrite E. right. exists c, (String d r), (String d r').
    repeat split. right. split; [now rewrite E | reflexivity].
Qed.

Lemma singleSpaced_trimEnd (s : string) :
  singleSpaced s = true -> singleSpaced (JS.trimEnd s) = true.
Proof.
  induction s as [|c s IH]; intros H; [reflexivity|].
  cbn [singleSpaced] in H. apply andb_true_iff in H as [Hc Hs].
  specialize (IH Hs). cbn [JS.trimEnd].
  destruct (trimEnd_head s) as [E|[d [r [r' [-> [E _]]]]]].
  - rewrite E. destruct (JS.isWhiteSpace c) eqn:Hw; [reflexivity|].
    cbn [singleSpaced]. now rewrite Hw.
  - rewrite E in IH |- *. cbn [singleSpaced]. cbn [singleSpaced] in IH.
    rewrite IH. cbn [startsWithSpace] in Hc |- *. now rewrite Hc.
Qed.

Lemma trimEnd_idem (s : string) : JS.trimEnd (JS.trimEnd s) = JS.trimEnd s.
Proof.
  induction s as [|c s IH]; [reflexivity|].
  cbn [JS.trimEnd]. destruct (JS.trimEnd s) as [|d r] eqn:E.
  - destruct (JS.isWhiteSpace c) eqn:Hw; [reflexivity|].
    cbn [JS.trimEnd]. now rewrite Hw.
  - cbn [JS.trimEnd]. cbn [JS.trimEnd] in IH. now rewrite IH.
Qed.

Lemma trimStart_head (s : string) : startsWithSpace (JS.trimStart s) = false.
Proof.
  induction s as [|c s IH]; [reflexivity|].
  cbn [JS.trimStart]. destruct (JS.isWhiteSpace c) eqn:Hw; [exact IH|].
  cbn [startsWithSpace]. exact Hw.
Qed.

Lemma trimStart_fixed (s : string) :
  startsWithSpace s = false -> JS.trimStart s = s.
Proof.
  destruct s as [|c s]; [reflexivity|]. cbn. now intros ->.
Qed.

Lemma trimEnd_keeps_head (s : string) :
  startsWithSpace s = false -> startsWithSpace (JS.trimEnd s) = false.
Proof.
  intros H. destruct (trimEnd_head s) as [E|[c [r [r' [-> [E _]]]]]].
  - now rewrite E.
  - rewrite E. exact H.
Qed.

Lemma trim_idem (s : string) : JS.trim (JS.trim s) = JS.trim s.
Proof.
  unfold JS.trim.
  rewrite (trimStart_fixed (JS.trimEnd (JS.trimStart s))).
  - apply trimEnd_idem.
  - apply trimEnd_keeps_head, trimStart_head.
Qed.

Lemma normalizePhone_idem (m : string) :
  normalizePhone (normalizePhone m) = normalizePhone m.
Proof.
  unfold normalizePhone, Regex.replaceAll.
  rewrite replaceScan_fixed; [apply trim_idem|].
  unfold JS.trim. apply singleSpaced_trimEnd, singleSpaced_trimStart.
  apply (replaceScan_singleSpaced m).
Qed.

End NormalizeFacts.

(** ** The contact extractor *)

Section ExtractFacts.

Lemma phone_class_notAt (c : ascii) :
  Regex.anyClass false (Regex.re_atoms PHONE_REGEX) c = true -> notAt c = true.
Proof.
  destruct c as [[] [] [] [] [] [] [] []]; vm_compute; congruence.
Qed.

Lemma normalizePhone_notAt (re_match : string) :
  JS.allChars notAt re_match = true ->
  JS.allChars notAt (normalizePhone re_match) = true.
Proof.
  intros H. unfold normalizePhone, Regex.replaceAll.
  apply allChars_trim, replaceScan_chars; auto.
Qed.

Lemma employerEmails_sources (job : JSearchJob) :
  employerEmails job = emailSources job.
Proof.
  unfold employerEmails, emailSources, mailtoAddress, descriptionOf.
  destruct (ensureString (ofString (employer_email job))) as [e|];
    destruct (ensureString (ofString (job_apply_link job))) as [l|];
    try destruct (JS.startsWith "mailto:" l);
    destruct (nullishOr (ensureString (ofString (job_description job))) "");
    simpl; rewrite ?app_nil_r; reflexivity.
Qed.

Lemma fold_addPhoneMatch (l : list string) :
  forall s : OrderedSet.t,
    fold_left addPhoneMatch l s =
    (s ++ dedupBy (fun x => x) s
            (filter (fun p => 8 <=? String.length p) (map normalizePhone l)))%list.
Proof.
  induction l as [|m l IH]; intros s; cbn [fold_left map filter dedupBy].
  - now rewrite app_nil_r.
  - rewrite IH. unfold addPhoneMatch.
    destruct (8 <=? String.length (normalizePhone m)); [|reflexivity].
    cbn [dedupBy]. unfold OrderedSet.add, OrderedSet.has.
    destruct (existsb (String.eqb (normalizePhone m)) s); [reflexivity|].
    now rewrite <- app_assoc.
Qed.

Lemma phoneSet_values (job : JSearchJob) : phoneSet job = phoneValues job.
Proof.
  unfold phoneSet, phoneValues, firstOccurrences. fold (descriptionOf job).
  destruct (descriptionOf job) eqn:E.
  - reflexivity.
  - simpl JS.nonEmpty. cbv iota. now rewrite fold_addPhoneMatch.
Qed.

Lemma firstOccurrences_NoDup (l : list string) : NoDup (firstOccurrences l).
Proof.
  unfold firstOccurrences.
  rewrite <- (map_id (dedupBy (fun x => x) [] l)). apply dedupBy_NoDup.
Qed.

Lemma firstOccurrences_In (l : list string) (x : string) :
  In x (firstOccurrences l) -> In x l.
Proof. intros H. now apply dedupBy_In in H. Qed.

Lemma emailValues_at (job : JSearchJob) (e : string) :
  In e (emailValues job) -> JS.includes "@" e = true.
Proof.
  intros H. apply firstOccurrences_In, filter_In in H. tauto.
Qed.

Lemma emailValues_lower (job : JSearchJob) (e : string) :
  In e (emailValues job) -> JS.toLowerCase e = e.
Proof.
  intros H. apply firstOccurrences_In, filter_In in H as [H _].
  apply in_map_iff in H as [x [<- _]]. apply toLowerCase_idem.
Qed.

Lemma phoneValues_notAt (job : JSearchJob) (p : string) :
  In p (phoneValues job) -> JS.allChars notAt p = true.
Proof.
  intros H. apply firstOccurrences_In, filter_In in H as [H _].
  apply in_map_iff in H as [m [<- Hm]].
  apply normalizePhone_notAt.
  eapply allChars_impl; [apply phone_class_notAt|].
  apply (matchAll_chars PHONE_REGEX _ _ Hm).
Qed.

Lemma phoneKey_no_at (job : JSearchJob) (p : string) :
  In p (phoneValues job) -> JS.includes "@" (phoneKey p) = false.
Proof.
  intros H. apply includes_char_allChars. unfold phoneKey.
  fold notAt. rewrite allChars_append, (phoneValues_notAt job p H). reflexivity.
Qed.

Lemma phoneKey_inj (p q : string) : phoneKey p = phoneKey q -> p = q.
Proof. unfold phoneKey. simpl. congruence. Qed.

Lemma phoneKey_not_website (p : string) : phoneKey p <> "website".
Proof. unfold phoneKey. simpl. congruence. Qed.

(** The map after the email pass. *)
Lemma emails_pass (job : JSearchJob) :
  fold_left addEmail
    (filter (JS.includes "@") (map JS.toLowerCase (employerEmails job)))
    OrderedMap.empty =
  map (fun e => (e, emailContact e)) (emailValues job).
Proof.
  rewrite employerEmails_sources.
  exact (fold_insert_absent (fun x => x) emailContact _ OrderedMap.empty).
Qed.

(** The map after the phone pass. *)
Lemma phones_pass (job : JSearchJob) :
  fold_left addPhone (phoneSet job)
    (map (fun e => (e, emailContact e)) (emailValues job)) =
  (map (fun e => (e, emailContact e)) (emailValues job) ++
   map (fun p => (phoneKey p, phoneContact p)) (phoneValues job))%list.
Proof.
  rewrite phoneSet_values.
  etransitivity; [exact (fold_insert_absent phoneKey phoneContact _ _)|].
  f_equal. f_equal. apply dedupBy_fresh.
  - apply NoDup_map_injective; [exact phoneKey_inj|].
    apply firstOccurrences_NoDup.
  - intros p Hp Hin. unfold OrderedMap.keys in Hin.
    rewrite map_map in Hin. simpl in Hin. rewrite map_id in Hin.
    apply emailValues_at in Hin. rewrite (phoneKey_no_at job p Hp) in Hin.
    discriminate.
Qed.

Lemma website_absent (job : JSearchJob) :
  OrderedMap.has "website"
    (map (fun e => (e, emailContact e)) (emailValues job) ++
     map (fun p => (phoneKey p, phoneContact p)) (phoneValues job))%list = false.
Proof.
  apply has_false_not_in. unfold OrderedMap.keys.
  rewrite map_app, !map_map. simpl. rewrite map_id.
  intros Hin. apply in_app_or in Hin as [Hin|Hin].
  - apply emailValues_at in Hin. discriminate.
  - apply in_map_iff in Hin as [p [Hp _]]. now apply phoneKey_not_website in Hp.
Qed.

Lemma contactMapOf_shape (job : JSearchJob) :
  contactMapOf job =
  (map (fun e => (e, emailContact e)) (emailValues job) ++
   map (fun p => (phoneKey p, phoneContact p)) (phoneValues job) ++
   map (fun w => ("website", websiteContact w))
     (optionList (ensureString (ofString (employer_website job)))))%list.
Proof.
  unfold contactMapOf. rewrite emails_pass, phones_pass.
  destruct (ensureString (ofString (employer_website job))) as [w|]; simpl.
  - unfold OrderedMap.set. rewrite website_absent. now rewrite <- app_assoc.
  - now rewrite app_nil_r.
Qed.

Lemma extractContacts_shape (job : JSearchJob) :
  extractContacts job = contactsInOrder job.
Proof.
  unfold extractContacts, contactsInOrder, websiteValue, OrderedMap.values.
  rewrite contactMapOf_shape, !map_app, !map_map. simpl.
  reflexivity.
Qed.

End ExtractFacts.

Section ExtractKeys.

Lemma dedupKey_emailContact (e : string) :
  dedupKey (emailContact e) = JS.toLowerCase e.
Proof.
  unfold dedupKey, emailContact. simpl.
  destruct (JS.includes "hr" e); reflexivity.
Qed.

Lemma phoneValues_normalized (job : JSearchJob) (p : string) :
  In p (phoneValues job) -> normalizePhone p = p.
Proof.
  intros H. apply firstOccurrences_In, filter_In in H as [H _].
  apply in_map_iff in H as [m [<- _]]. apply normalizePhone_idem.
Qed.

Lemma dedupKey_phoneContact (job : JSearchJob) (p : string) :
  In p (phoneValues job) -> dedupKey (phoneContact p) = phoneKey p.
Proof.
  intros H. unfold dedupKey. cbn [phoneContact label value String.eqb Ascii.eqb
    Bool.eqb]. now rewrite (phoneValues_normalized job p H).
Qed.

Lemma dedupKey_websiteContact (w : string) :
  dedupKey (websiteContact w) = "website".
Proof. reflexivity. Qed.

Lemma isEmailCandidate_emailContact (e : string) :
  isEmailCandidate (emailContact e) = true.
Proof.
  unfold isEmailCandidate, emailContact. simpl.
  destruct (JS.includes "hr" e); reflexivity.
Qed.

Lemma fold_left_invariant {A B : Type} (P : A -> Prop) (f : A -> B -> A)
    (l : list B) :
  (forall a b, P a -> P (f a b)) -> forall a, P a -> P (fold_left f l a).
Proof.
  intros Hf. induction l as [|b l IH]; simpl; auto.
Qed.

(** The keys of the contact map are pairwise distinct at every point of
    [extractContacts]. *)
Lemma contactMapOf_NoDup (job : JSearchJob) :
  NoDup (OrderedMap.keys (contactMapOf job)).
Proof.
  unfold contactMapOf.
  assert (H : NoDup (OrderedMap.keys
            (fold_left addPhone (phoneSet job)
               (fold_left addEmail
                  (filter (JS.includes "@")
                     (map JS.toLowerCase (employerEmails job)))
                  OrderedMap.empty)))).
  { apply fold_left_invariant.
    - intros m p Hm. unfold addPhone.
      destruct (negb (OrderedMap.has (phoneKey p) m)); [now apply set_NoDup | exact Hm].
    - apply fold_left_invariant.
      + intros m e Hm. unfold addEmail.
        destruct (negb (OrderedMap.has e m)); [now apply set_NoDup | exact Hm].
      + constructor. }
  destruct (ensureString (ofString (employer_website job))); [now apply set_NoDup | exact H].
Qed.

(** Every candidate is stored under its dedup key. *)
Lemma contactMapOf_keys (job : JSearchJob) :
  map dedupKey (extractContacts job) = OrderedMap.keys (contactMapOf job).
Proof.
  unfold extractContacts, OrderedMap.values, OrderedMap.keys.
  rewrite contactMapOf_shape, !map_app, !map_map. simpl.
  f_equal; [|f_equal].
  - apply map_ext_in. intros e He.
    now rewrite dedupKey_emailContact, (emailValues_lower job e He).
  - apply map_ext_in. intros p Hp. exact (dedupKey_phoneContact job p Hp).
Qed.

End ExtractKeys.

(** * The claims about the contact extractor *)

(** C1: for every raw listing, no two candidates of the extractor's output
    have the same dedup key, where the key of an email candidate is its
    lowercased value, the key of a phone candidate is its
    whitespace-normalized value under the prefix that keeps it apart from
    emails, and the key of the website candidate is the fixed string
    "website"; these keys are the keys the candidates are stored under in
    the contact map, and the value of a phone candidate is the normalized
    form of a match of the phone pattern. *)
Theorem C1_no_duplicate_dedup_key (job : JSearchJob) :
  NoDup (map dedupKey (extractContacts job)) /\
  map dedupKey (extractContacts job) = OrderedMap.keys (contactMapOf job) /\
  Forall
    (fun c =>
       isPhoneCandidate c = true ->
       exists m,
         In m (Regex.matchAll PHONE_REGEX (descriptionOf job)) /\
         value c = normalizePhone m /\
         dedupKey c = "phone-" ++ normalizePhone m)
    (extractContacts job).
Proof.
  split; [|split].
  - rewrite contactMapOf_keys. apply contactMapOf_NoDup.
  - apply contactMapOf_keys.
  - rewrite extractContacts_shape. unfold contactsInOrder.
    rewrite !Forall_app. repeat split; apply Forall_forall; intros c Hc.
    + apply in_map_iff in Hc as [e [<- _]]. unfold emailContact.
      destruct (JS.includes "hr" e); discriminate.
    + apply in_map_iff in Hc as [p [<- Hp]]. intros _.
      rewrite (dedupKey_phoneContact job p Hp).
      apply firstOccurrences_In, filter_In in Hp as [Hp _].
      apply in_map_iff in Hp as [m [<- Hm]].
      exists m. repeat split. exact Hm.
    + unfold websiteValue in Hc.
      destruct (ensureString (ofString (employer_website job)));
        [destruct Hc as [<-|[]]; discriminate | contradiction].
Qed.

(** C4: for every raw listing, the output lists all email candidates first,
    in collection order of their sources (employer-email field, mailto apply
    link, description matches) with the first occurrence of each lowercased
    address kept, then the phone candidates in insertion order, then the
    website candidate if the website field is not blank. *)
Theorem C4_output_order (job : JSearchJob) :
  extractContacts job =
    (map emailContact (emailValues job) ++
     map phoneContact (phoneValues job) ++
     websiteValue job)%list /\
  forallb isEmailCandidate (map emailContact (emailValues job)) = true /\
  forallb isPhoneCandidate (map phoneContact (phoneValues job)) = true /\
  forallb isWebsiteCandidate (websiteValue job) = true.
Proof.
  split; [exact (extractContacts_shape job)|].
  repeat split.
  - apply forallb_forall. intros c Hc.
    apply in_map_iff in Hc as [e [<- _]]. apply isEmailCandidate_emailContact.
  - apply forallb_forall. intros c Hc.
    apply in_map_iff in Hc as [p [<- _]]. reflexivity.
  - unfold websiteValue.
    destruct (ensureString (ofString (employer_website job))); reflexivity.
Qed.

Lemma filter_emails_contactsInOrder (job : JSearchJob) :
  filter isEmailCandidate (contactsInOrder job) =
  map emailContact (emailValues job).
Proof.
  unfold contactsInOrder. rewrite !filter_app.
  assert (He : forall l, filter isEmailCandidate (map emailContact l) =
                         map emailContact l).
  { induction l as [|e l IH]; simpl; [reflexivity|].
    now rewrite isEmailCandidate_emailContact, IH. }
  assert (Hp : forall l, filter isEmailCandidate (map phoneContact l) = []).
  { induction l as [|p l IH]; simpl; auto. }
  rewrite He, Hp. unfold websiteValue.
  destruct (ensureString (ofString (employer_website job))); simpl;
    now rewrite app_nil_r.
Qed.

(** C5, as stated, fails: an employer-email field without an at sign gives
    no email candidate, and a mailto apply link next to the employer email
    gives two, although the description has no email match in either
    listing. *)
Lemma C5_counterexample :
  (ensureString (ofString (employer_email listingEmailWithoutAt)) =
     Some "see careers page" /\
   Regex.matchAll EMAIL_REGEX (descriptionOf listingEmailWithoutAt) = [] /\
   filter isEmailCandidate (extractContacts listingEmailWithoutAt) = []) /\
  (ensureString (ofString (employer_email listingEmailAndMailto)) =
     Some "hr@acme.com" /\
   Regex.matchAll EMAIL_REGEX (descriptionOf listingEmailAndMailto) = [] /\
   filter isEmailCandidate (extractContacts listingEmailAndMailto) =
     [ {| label := "HR email"; value := "hr@acme.com" |};
       {| label := "Contact email"; value := "jobs@acme.com" |} ]).
Proof. vm_compute. repeat split. Qed.

(** C5, amended: for every raw listing whose employer-email field is not
    blank and contains an at sign, whose apply link is not a mailto link and
    whose description has no email match, the output has exactly one email
    candidate; its value is the trimmed field in lower case and its label is
    "HR email" when that value contains "hr" and "Contact email"
    otherwise. *)
Theorem C5_single_employer_email (job : JSearchJob) (raw : string) :
  employer_email job = Some raw ->
  JS.nonEmpty (JS.trim raw) = true ->
  JS.includes "@" (JS.toLowerCase (JS.trim raw)) = true ->
  mailtoAddress job = None ->
  Regex.matchAll EMAIL_REGEX (descriptionOf job) = [] ->
  filter isEmailCandidate (extractContacts job) =
    [ {| label := if JS.includes "hr" (JS.toLowerCase (JS.trim raw))
                  then "HR email" else "Contact email";
         value := JS.toLowerCase (JS.trim raw) |} ].
Proof.
  intros Hraw Hne Hat Hmail Hdesc.
  rewrite extractContacts_shape, filter_emails_contactsInOrder.
  unfold emailValues, emailSources.
  rewrite Hraw, Hmail, Hdesc. cbn [ofString ensureString]. rewrite Hne.
  cbn [optionList app map filter]. rewrite Hat.
  reflexivity.
Qed.

Lemma C5_single_employer_email_witness :
  filter isEmailCandidate (extractContacts listingEmailOnly) =
    [ {| label := "Contact email"; value := "talent@globex.example" |} ].
Proof.
  apply (C5_single_employer_email listingEmailOnly "  Talent@Globex.Example ");
    vm_compute; reflexivity.
Defined.

(** * Salary formatting *)

Section SalaryFacts.

Variable rt : Runtime.

Lemma nullish_None_r {A : Type} (a : option A) : nullish a None = a.
Proof. destruct a; reflexivity. Qed.

(** Neither bound truthy: no salary. *)
Lemma formatSalary_absent (job : JSearchJob) (s : JobSalary) :
  job_salary job = Some s ->
  truthy (nullish (salary_min s) (min_salary s)) = false ->
  truthy (nullish (salary_max s) (max_salary s)) = false ->
  formatSalary rt job = Normal None.
Proof.
  intros Hs Hmin Hmax. unfold formatSalary. now rewrite Hs, Hmin, Hmax.
Qed.

(** Both bounds truthy: the range, with the period suffix. *)
Lemma formatSalary_range (job : JSearchJob) (s : JobSalary) (mn mx : float) :
  job_salary job = Some s ->
  nullish (salary_min s) (min_salary s) = Some mn ->
  nullish (salary_max s) (max_salary s) = Some mx ->
  truthyNumber mn = true -> truthyNumber mx = true ->
  isWellFormedCurrencyCode (nullishOr (currency s) "INR") = true ->
  formatSalary rt job =
    Normal (Some (formatCurrency rt (nullishOr (currency s) "INR") mn ++ " - " ++
                  formatCurrency rt (nullishOr (currency s) "INR") mx ++
                  periodSuffix (nullish (salary_period s) (period s)))).
Proof.
  intros Hs Hmin Hmax Tmin Tmax Hcur. unfold formatSalary, NumberFormat.
  rewrite Hs, Hmin, Hmax, Hcur. simpl. now rewrite Tmin, Tmax.
Qed.

(** Only a lower bound, truthy: that value alone. *)
Lemma formatSalary_min_only (job : JSearchJob) (s : JobSalary) (mn : float) :
  job_salary job = Some s ->
  nullish (salary_min s) (min_salary s) = Some mn ->
  truthy (nullish (salary_max s) (max_salary s)) = false ->
  truthyNumber mn = true ->
  isWellFormedCurrencyCode (nullishOr (currency s) "INR") = true ->
  formatSalary rt job =
    Normal (Some (formatCurrency rt (nullishOr (currency s) "INR") mn ++
                  periodSuffix (nullish (salary_period s) (period s)))).
Proof.
  intros Hs Hmin Hmax Tmin Hcur. unfold formatSalary, NumberFormat.
  rewrite Hs, Hmin, Hmax, Hcur. simpl. now rewrite Tmin.
Qed.

(** No lower bound at all and a truthy upper bound: that value alone. *)
Lemma formatSalary_max_only (job : JSearchJob) (s : JobSalary) (mx : float) :
  job_salary job = Some s ->
  nullish (salary_min s) (min_salary s) = None ->
  nullish (salary_max s) (max_salary s) = Some mx ->
  truthyNumber mx = true ->
  isWellFormedCurrencyCode (nullishOr (currency s) "INR") = true ->
  formatSalary rt job =
    Normal (Some (formatCurrency rt (nullishOr (currency s) "INR") mx ++
                  periodSuffix (nullish (salary_period s) (period s)))).
Proof.
  intros Hs Hmin Hmax Tmax Hcur. unfold formatSalary, NumberFormat.
  rewrite Hs, Hmin, Hmax, Hcur. simpl. now rewrite Tmax.
Qed.

(** A currency that is not three letters makes the formatter's constructor
    throw once a bound is truthy. *)
Lemma formatSalary_bad_currency (job : JSearchJob) (s : JobSalary) :
  job_salary job = Some s ->
  truthy (nullish (salary_min s) (min_salary s)) ||
  truthy (nullish (salary_max s) (max_salary s)) = true ->
  isWellFormedCurrencyCode (nullishOr (currency s) "INR") = false ->
  formatSalary rt job = Throw RangeError.
Proof.
  intros Hs Ht Hcur. unfold formatSalary, NumberFormat. rewrite Hs, Hcur.
  apply orb_true_iff in Ht.
  destruct (truthy (nullish (salary_min s) (min_salary s)));
    destruct (truthy (nullish (salary_max s) (max_salary s)));
    simpl; try reflexivity. destruct Ht; discriminate.
Qed.

End SalaryFacts.

(** C6: two salary sub-records with the same currency that carry the same
    minimum, maximum and period, one under the primary field names and one
    under the alternate names, are formatted alike. *)
Theorem C6_field_names_irrelevant (rt : Runtime) (job : JSearchJob)
    (cur : option string) (mn mx : option float) (per : option string) :
  formatSalary rt (withSalary job (Some (primarySalary cur mn mx per))) =
  formatSalary rt (withSalary job (Some (alternateSalary cur mn mx per))).
Proof.
  unfold formatSalary, withSalary, primarySalary, alternateSalary.
  cbn [job_salary currency salary_min salary_max salary_period
       min_salary max_salary period].
  now rewrite !nullish_None_r.
Qed.

(** C7 at the input [{salary_min: 0, salary_max: 50000}]: the upper bound
    is the only truthy bound, yet no salary is reported, because [min ?? max]
    picks the zero; with the bounds exchanged the single truthy value is
    formatted. *)
Theorem C7_zero_min_hides_max (rt : Runtime) :
  formatSalary rt listingZeroMin = Normal None /\
  formatSalary rt listingZeroMax =
    Normal (Some (formatCurrency rt "INR" 50000%float)).
Proof.
  split.
  - reflexivity.
  - rewrite <- (append_empty_r (formatCurrency rt "INR" 50000%float)).
    reflexivity.
Qed.

(** * Posting age *)

Section PostedFacts.

Variable rt : Runtime.
Variable now : Z.

Local Open Scope Z_scope.

Ltac age_of d :=
  unfold postedAge, numSub; cbn [getTime];
  replace (now - (now - d)) with d by lia;
  reflexivity.

(** Thirty minutes. *)
Lemma postedAge_half_hour :
  postedAge rt now (mkDate (Some (now - 30 * 60 * 1000))) =
  "Posted less than an hour ago"%string.
Proof. age_of (30 * 60 * 1000). Qed.

(** One day. *)
Lemma postedAge_one_day :
  postedAge rt now (mkDate (Some (now - 24 * 60 * 60 * 1000))) =
  "Posted yesterday"%string.
Proof. age_of (24 * 60 * 60 * 1000). Qed.

(** Two days. *)
Lemma postedAge_two_days :
  postedAge rt now (mkDate (Some (now - 2 * 24 * 60 * 60 * 1000))) =
  "Posted 2 days ago"%string.
Proof. age_of (2 * 24 * 60 * 60 * 1000). Qed.

(** Ten days: the short calendar date of the runtime. *)
Lemma postedAge_ten_days :
  postedAge rt now (mkDate (Some (now - 10 * 24 * 60 * 60 * 1000))) =
  formatShortDate rt (now - 10 * 24 * 60 * 60 * 1000).
Proof. age_of (10 * 24 * 60 * 60 * 1000). Qed.

(** Five hours. *)
Lemma postedAge_five_hours :
  postedAge rt now (mkDate (Some (now - 5 * 60 * 60 * 1000))) =
  "Posted 5h ago"%string.
Proof. age_of (5 * 60 * 60 * 1000). Qed.

(** A valid epoch-seconds field, no string field: the date of that
    instant. *)
Lemma postedDate_timestamp (job : JSearchJob) (ts : Z) :
  Z.abs (ts * 1000) <= 8640000000000000 ->
  postedDate rt (withPosted job (Some ts) None None) =
  Some (mkDate (Some (ts * 1000))).
Proof.
  intros H. unfold postedDate, newDateOfNumber, timeClip. cbn.
  apply Z.leb_le in H. now rewrite H.
Qed.

(** A string field that parses, first in the order of precedence. *)
Lemma postedDate_utc (job : JSearchJob) (ts : option Z) (utc : string)
    (posted : option string) (t : Z) :
  JS.nonEmpty (JS.trim utc) = true ->
  parseDate rt (JS.trim utc) = Some t ->
  postedDate rt (withPosted job ts (Some utc) posted) = Some (mkDate (Some t)).
Proof.
  intros Hne Hp. unfold postedDate, newDateOfString. cbn.
  rewrite Hne. cbn. rewrite Hp. reflexivity.
Qed.

(** No numeric field and no string field that parses: no posting age. *)
Lemma formatPosted_absent (job : JSearchJob) (utc posted : option string) :
  (forall s, parseDate rt s = None) ->
  formatPosted rt now (withPosted job None utc posted) = None.
Proof.
  intros Hp. unfold formatPosted, postedDate, newDateOfString. cbn.
  destruct (nullish _ _); cbn; [rewrite Hp|]; reflexivity.
Qed.

End PostedFacts.

(** C8 at the input [{job_posted_at_timestamp: 10000000000000}]: the number
    does not convert to a valid date, no string field is there, yet a
    posting age is reported, the rendering of an invalid date.  The string
    path rejects an invalid date; the numeric path does not. *)
Theorem C8_invalid_timestamp_rendered (rt : Runtime) (now : Z) :
  timeClip (10000000000000 * 1000) = None /\
  postedDate rt listingHugeTimestamp = Some (mkDate None) /\
  formatPosted rt now listingHugeTimestamp = Some "Invalid Date".
Proof. repeat split. Qed.

(** * Company lookup *)

(** C3: whatever the network answers, the lookup returns normally, never
    throws; it returns nothing on a network failure, on a status outside
    200-299, on a body that is not JSON, is not an array, is an empty array
    or starts with a null entry; otherwise it maps the first entry of the
    array, name and optional fields unchanged, each handle that is there and
    not empty prefixed with its base URL. *)
Theorem C3_lookup_never_throws (fetch : string -> fetchOutcome) (name : string) :
  fetchCompanyInsight fetch name =
    Normal
      match fetch (suggestUrl name) with
      | FetchRejected => None
      | FetchResponse status body =>
          if ((status <? 200) || (299 <? status))%Z then None
          else
            match body with
            | BodyUnparsable => None
            | BodyNotArray => None
            | BodyArray [] => None
            | BodyArray (None :: _) => None
            | BodyArray (Some bestMatch :: _) =>
                Some
                  {| ci_name := cs_name bestMatch;
                     ci_domain := cs_domain bestMatch;
                     ci_description := cs_description bestMatch;
                     ci_logo := cs_logo bestMatch;
                     ci_location := cs_location bestMatch;
                     ci_linkedin :=
                       match cs_linkedin bestMatch with
                       | Some h =>
                           if JS.nonEmpty (handle h)
                           then Some ("https://www.linkedin.com/" ++ handle h)
                           else None
                       | None => None
                       end;
                     ci_twitter :=
                       match cs_twitter bestMatch with
                       | Some h =>
                           if JS.nonEmpty (handle h)
                           then Some ("https://twitter.com/" ++ handle h)
                           else None
                       | None => None
                       end |}
            end
      end /\
  (forall e, fetchCompanyInsight fetch name <> Throw e).
Proof.
  unfold fetchCompanyInsight.
  destruct (fetch (suggestUrl name)) as [|status body].
  - split; [reflexivity | discriminate].
  - unfold companyInsightOfOutcome, ok. cbn.
    rewrite negb_andb, <- !Z.ltb_antisym.
    destruct ((status <? 200)%Z || (299 <? status)%Z); cbn;
      [split; [reflexivity | discriminate]|].
    destruct body as [| |[|[b|] data]]; cbn; split;
      try reflexivity; discriminate.
Qed.

(** * The fan-out *)

Section LookupFacts.

(** The lookup, once the network has answered, returns normally. *)
Lemma companyInsightOfOutcome_normal (o : fetchOutcome) :
  exists r, companyInsightOfOutcome o = Normal r.
Proof.
  destruct o as [|status body]; [eexists; reflexivity|].
  unfold companyInsightOfOutcome. cbn.
  destruct (ok status); cbn; [|eexists; reflexivity].
  destruct body as [| |[|[b|] data]]; cbn; eexists; reflexivity.
Qed.

End LookupFacts.

Section PromiseLists.

Lemma Forall2_replaceNth {A B : Type} (R : A -> B -> Prop) (l : list A)
    (ts : list B) :
  Forall2 R l ts ->
  forall i a t, nth_error l i = Some a -> R a t ->
                Forall2 R l (replaceNth i t ts).
Proof.
  induction 1 as [|x y l ts Hxy H IH]; intros i a t Hi Ht.
  - destruct i; discriminate.
  - destruct i as [|i]; simpl in *.
    + injection Hi as ->. now constructor.
    + constructor; eauto.
Qed.

Lemma Forall2_nth_error_r {A B : Type} (R : A -> B -> Prop) (l : list A)
    (ts : list B) :
  Forall2 R l ts ->
  forall i t, nth_error ts i = Some t ->
              exists a, nth_error l i = Some a /\ R a t.
Proof.
  induction 1 as [|x y l ts Hxy H IH]; intros i t Hi.
  - destruct i; discriminate.
  - destruct i as [|i]; simpl in *.
    + injection Hi as ->. eauto.
    + eauto.
Qed.

Lemma allFulfilled_no_awaiting (ts : list promise) :
  forall rs i cl, allFulfilled ts = Some rs ->
                  nth_error ts i <> Some (Awaiting cl).
Proof.
  induction ts as [|t ts IH]; intros rs i cl H Hi.
  - destruct i; discriminate.
  - simpl in H. destruct t as [c|r|e]; try discriminate.
    destruct (allFulfilled ts) as [rs'|] eqn:E; [|discriminate].
    destruct i as [|i]; simpl in Hi; [discriminate|].
    eapply IH; eauto.
Qed.

Lemma firstRejection_replaceNth (ts : list promise) :
  forall i r, firstRejection ts = None ->
              firstRejection (replaceNth i (Fulfilled r) ts) = None.
Proof.
  induction ts as [|t ts IH]; intros i r H.
  - destruct i; reflexivity.
  - destruct i as [|i]; simpl.
    + destruct t; simpl in H; auto; discriminate.
    + destruct t; simpl in *; auto; discriminate.
Qed.

Lemma allFulfilled_Forall2 {A : Type} (R : A -> promise -> Prop)
    (Q : A -> JobResult -> Prop) :
  (forall a r, R a (Fulfilled r) -> Q a r) ->
  forall l ts, Forall2 R l ts ->
  forall rs, allFulfilled ts = Some rs -> Forall2 Q l rs.
Proof.
  intros HRQ. induction 1 as [|a t l ts Hat H IH]; intros rs Hrs; simpl in Hrs.
  - injection Hrs as <-. constructor.
  - destruct t as [c|r|e]; try discriminate.
    destruct (allFulfilled ts) as [rs'|]; [|discriminate].
    injection Hrs as <-. constructor; auto.
Qed.

Lemma settled_without_awaiting (ts : list promise) :
  forall k, awaitingFrom k ts = [] -> firstRejection ts = None ->
            allFulfilled ts <> None.
Proof.
  induction ts as [|t ts IH]; intros k Ha Hr; simpl in *.
  - discriminate.
  - destruct t as [c|r|e]; try discriminate.
    specialize (IH (S k) Ha Hr).
    destruct (allFulfilled ts); [discriminate | contradiction].
Qed.

Lemma awaitingFrom_In (ts : list promise) :
  forall k i, In i (awaitingFrom k ts) ->
              exists j cl, i = k + j /\ nth_error ts j = Some (Awaiting cl).
Proof.
  induction ts as [|t ts IH]; intros k i Hin; simpl in Hin; [contradiction|].
  assert (Hrec : In i (awaitingFrom (S k) ts) ->
                 exists j cl, i = k + j /\ nth_error (t :: ts) j = Some (Awaiting cl)).
  { intros H. apply IH in H as [j [cl [-> Hj]]].
    exists (S j), cl. split; [lia | exact Hj]. }
  destruct t as [c|r|e]; auto.
  destruct Hin as [<-|Hin]; auto.
  exists 0, c. split; [lia | reflexivity].
Qed.

Lemma awaitingFrom_replaceNth (ts : list promise) :
  forall k j cl t,
    nth_error ts j = Some (Awaiting cl) -> isAwaiting t = false ->
    exists l1 l2,
      awaitingFrom k ts = (l1 ++ (k + j) :: l2)%list /\
      awaitingFrom k (replaceNth j t ts) = (l1 ++ l2)%list.
Proof.
  induction ts as [|t0 ts IH]; intros k j cl t Hj Ht.
  - destruct j; discriminate.
  - destruct j as [|j]; simpl in Hj.
    + injection Hj as ->. exists [], (awaitingFrom (S k) ts). simpl.
      rewrite Nat.add_0_r. split; [reflexivity|].
      destruct t; [discriminate | reflexivity | reflexivity].
    + destruct (IH (S k) j cl t Hj Ht) as [l1 [l2 [H1 H2]]].
      replace (S k + j) with (k + S j) in H1 by lia.
      destruct t0 as [c|r|e]; simpl; rewrite H1, H2.
      * exists (k :: l1), l2. split; reflexivity.
      * exists l1, l2. split; reflexivity.
      * exists l1, l2. split; reflexivity.
Qed.

End PromiseLists.

Section Orchestration.

Variable rt : Runtime.
Variable jobProfile : string.

Lemma settle_not_awaiting (c : completion JobResult) :
  isAwaiting (settle c) = false.
Proof. destruct c; reflexivity. Qed.

(** What the callback leaves in its slot, and the lookup it starts. *)
Lemma runCallback_spec (tk : tick) (job : JSearchJob) :
  promiseFor rt jobProfile job (fst (runCallback rt jobProfile tk job)) /\
  snd (runCallback rt jobProfile tk job) = lookupNames [job].
Proof.
  unfold runCallback, lookupNames. cbn [flat_map]. rewrite app_nil_r.
  assert (Hname : cl_companyName (prepare job) =
                  nullishOr (ensureString (ofString (employer_name job)))
                    UNKNOWN_COMPANY) by reflexivity.
  destruct (String.eqb_spec (cl_companyName (prepare job)) UNKNOWN_COMPANY)
    as [Hn|Hn]; cbn [negb fst snd].
  - split.
    + destruct (buildResult rt jobProfile (prepare job) None tk) as [r|e] eqn:Hb;
        simpl; [|exact I].
      exists None, tk. split; [exact Hb | reflexivity].
    + rewrite Hname in Hn.
      destruct (ensureString (ofString (employer_name job))) as [name|];
        [|reflexivity].
      simpl in Hn. subst name. now rewrite String.eqb_refl.
  - split.
    + split; [reflexivity | exact Hn].
    + rewrite Hname in *.
      destruct (ensureString (ofString (employer_name job))) as [name|];
        simpl in *; [|contradiction].
      destruct (String.eqb_spec name UNKNOWN_COMPANY); [contradiction | reflexivity].
Qed.

(** What the synchronous pass leaves in each slot, and the lookups it
    starts. *)
Lemma runCallbacks_spec (sync : nat -> tick) (jobs : list JSearchJob) :
  forall i,
    Forall2 (promiseFor rt jobProfile) jobs
      (map fst (runCallbacks rt jobProfile sync i jobs)) /\
    List.concat (map snd (runCallbacks rt jobProfile sync i jobs)) =
      lookupNames jobs.
Proof.
  induction jobs as [|job jobs IH]; intros i.
  - split; [constructor | reflexivity].
  - destruct (IH (S i)) as [IH1 IH2].
    destruct (runCallback_spec (sync i) job) as [H1 H2].
    cbn [runCallbacks map List.concat]. rewrite IH2, H2. split.
    + constructor; assumption.
    + unfold lookupNames. cbn [flat_map]. now rewrite app_nil_r.
Qed.

Lemma promiseAllStart_consistent (ts : list promise) (l : list string) :
  promiseAllConsistent
    {| promises := ts; lookups := l; outcome := promiseAllStart ts |}.
Proof.
  unfold promiseAllConsistent, promiseAllStart. simpl.
  destruct (firstRejection ts); [exact I|].
  destruct (allFulfilled ts); auto.
Qed.

(** The state the synchronous pass leaves behind. *)
Lemma POST_start_spec (sync : nat -> tick) (data : option (list JSearchJob)) :
  let st := POST_start rt jobProfile sync data in
  Forall2 (promiseFor rt jobProfile) (firstn 12 (arrayOrEmpty data)) (promises st) /\
  lookups st = lookupNames (firstn 12 (arrayOrEmpty data)) /\
  promiseAllConsistent st.
Proof.
  unfold POST_start.
  destruct (arrayOrEmpty data) as [|job jobs] eqn:E.
  - simpl. repeat split. constructor.
  - cbn [List.length Nat.eqb].
    destruct (runCallbacks_spec sync (firstn 12 (job :: jobs)) 0) as [H1 H2].
    cbn zeta. cbn [promises lookups]. repeat split; auto.
    apply promiseAllStart_consistent.
Qed.

(** One lookup settling keeps every slot tied to its listing, starts no
    lookup, and keeps [Promise.all] consistent. *)
Lemma POST_step_spec (jobs : list JSearchJob) (ev : event)
    (st st' : orchestration) :
  Forall2 (promiseFor rt jobProfile) jobs (promises st) ->
  promiseAllConsistent st ->
  POST_step rt jobProfile ev st = Some st' ->
  Forall2 (promiseFor rt jobProfile) jobs (promises st') /\
  lookups st' = lookups st /\
  promiseAllConsistent st'.
Proof.
  intros Hts Hc Hstep. destruct ev as [i o tk]. simpl in Hstep.
  destruct (nth_error (promises st) i) as [[cl|r|e]|] eqn:Hi; try discriminate.
  injection Hstep as <-. cbn [promises lookups].
  destruct (Forall2_nth_error_r _ _ _ Hts i _ Hi) as [job [Hjob [Hcl Hname]]].
  destruct (companyInsightOfOutcome_normal o) as [ci Hci]. rewrite Hci.
  cbn [bind].
  split; [|split; [reflexivity|]].
  - eapply Forall2_replaceNth; eauto.
    destruct (buildResult rt jobProfile cl ci tk) as [r|e] eqn:Hb; simpl; [|exact I].
    exists ci, tk. subst cl. split; [exact Hb | intros Hu; contradiction].
  - unfold promiseAllConsistent in *. cbn [promises outcome].
    destruct (outcome st) as [[rs|e]|]; cbn [promiseAllStep].
    + exfalso. exact (allFulfilled_no_awaiting _ _ _ _ Hc Hi).
    + exact I.
    + destruct Hc as [Hrej Hnone].
      destruct (buildResult rt jobProfile cl ci tk) as [r|e]; cbn [settle]; [|exact I].
      destruct (allFulfilled (replaceNth i (Fulfilled r) (promises st))) eqn:Ha;
        [reflexivity|].
      split; [now apply firstRejection_replaceNth | reflexivity].
Qed.

Lemma POST_run_spec (jobs : list JSearchJob) (evs : list event) :
  forall st st',
    Forall2 (promiseFor rt jobProfile) jobs (promises st) ->
    promiseAllConsistent st ->
    POST_run rt jobProfile evs st = Some st' ->
    Forall2 (promiseFor rt jobProfile) jobs (promises st') /\
    lookups st' = lookups st /\
    promiseAllConsistent st'.
Proof.
  induction evs as [|ev evs IH]; intros st st' Hts Hc Hrun; simpl in Hrun.
  - injection Hrun as <-. auto.
  - destruct (POST_step rt jobProfile ev st) as [st1|] eqn:Hstep; [|discriminate].
    destruct (POST_step_spec jobs ev st st1 Hts Hc Hstep) as [H1 [H2 H3]].
    destruct (IH st1 st' H1 H3 Hrun) as [H4 [H5 H6]].
    repeat split; auto. congruence.
Qed.

(** Everything reachable from the synchronous pass. *)
Lemma reachable_spec (sync : nat -> tick) (data : option (list JSearchJob))
    (evs : list event) (st : orchestration) :
  POST_run rt jobProfile evs (POST_start rt jobProfile sync data) = Some st ->
  Forall2 (promiseFor rt jobProfile) (firstn 12 (arrayOrEmpty data)) (promises st) /\
  lookups st = lookupNames (firstn 12 (arrayOrEmpty data)) /\
  promiseAllConsistent st.
Proof.
  intros Hrun.
  destruct (POST_start_spec sync data) as [H1 [H2 H3]].
  destruct (POST_run_spec _ evs _ _ H1 H3 Hrun) as [H4 [H5 H6]].
  repeat split; auto. congruence.
Qed.

(** The listings of a response, each built from the listing at its index. *)
Lemma response_built (sync : nat -> tick) (data : option (list JSearchJob))
    (evs : list event) (st : orchestration) (enrichedJobs : list JobResult) :
  POST_run rt jobProfile evs (POST_start rt jobProfile sync data) = Some st ->
  POST_response st = Some (JsonResponse enrichedJobs) ->
  Forall2 (builtFrom rt jobProfile) (firstn 12 (arrayOrEmpty data)) enrichedJobs.
Proof.
  intros Hrun Hresp.
  destruct (reachable_spec sync data evs st Hrun) as [H1 [_ H3]].
  unfold POST_response in Hresp. unfold promiseAllConsistent in H3.
  destruct (outcome st) as [[rs|e]|]; try discriminate.
  injection Hresp as <-.
  eapply allFulfilled_Forall2; [|exact H1|exact H3].
  intros job r H. exact H.
Qed.

(** Settling every pending lookup once, in any order, is a run that leaves
    no lookup pending. *)
Lemma POST_run_complete (evs : list event) :
  forall st,
    Permutation (map eventIndex evs) (awaiting st) ->
    exists st', POST_run rt jobProfile evs st = Some st' /\ awaiting st' = [].
Proof.
  induction evs as [|ev evs IH]; intros st Hperm; simpl in *.
  - apply Permutation_nil in Hperm. eauto.
  - assert (Hin : In (eventIndex ev) (awaiting st)).
    { eapply Permutation_in; [exact Hperm | now left]. }
    destruct ev as [i o tk]. cbn [eventIndex] in *.
    apply awaitingFrom_In in Hin as [j [cl [-> Hj]]]. simpl in Hj |- *.
    rewrite Hj.
    set (t := settle _).
    destruct (awaitingFrom_replaceNth (promises st) 0 j cl t Hj) as [l1 [l2 [H1 H2]]].
    { apply settle_not_awaiting. }
    apply IH. unfold awaiting at 1. cbn [promises]. rewrite H2.
    unfold awaiting in Hperm. rewrite H1 in Hperm.
    eapply Permutation_cons_app_inv. exact Hperm.
Qed.

Lemma lookupNames_not_sentinel (jobs : list JSearchJob) :
  ~ In UNKNOWN_COMPANY (lookupNames jobs).
Proof.
  unfold lookupNames. intros Hin. apply in_flat_map in Hin as [job [_ Hin]].
  destruct (ensureString (ofString (employer_name job))) as [name|]; [|contradiction].
  destruct (String.eqb_spec name UNKNOWN_COMPANY) as [Hn|Hn]; [contradiction|].
  destruct Hin as [Hin|[]]. congruence.
Qed.

End Orchestration.

Lemma buildResult_fields (rt : Runtime) (jobProfile : string) (cl : closure)
    (ci : option CompanyInsight) (tk : tick) (r : JobResult) :
  buildResult rt jobProfile cl ci tk = Normal r ->
  companyInsight r = ci /\ remote r = Boolean (job_is_remote (cl_job cl)).
Proof.
  unfold buildResult. destruct (formatSalary rt (cl_job cl)); cbn [bind];
    [|discriminate].
  intros H. injection H as <-. split; reflexivity.
Qed.

Lemma Forall2_impl {A B : Type} (R Q : A -> B -> Prop) (l : list A) (l' : list B) :
  (forall a b, R a b -> Q a b) -> Forall2 R l l' -> Forall2 Q l l'.
Proof. intros H. induction 1; constructor; auto. Qed.

(** * The claims about the orchestrator *)

(** C2: whatever the lookups answer and in whatever order they settle, a
    list the orchestration returns has as many listings as the input has,
    twelve at most, and its listing at each index is built from the input
    listing at that index; every schedule that settles each pending lookup
    once ends with a response; and an empty input gives the empty list at
    once, with no lookup started. *)
Theorem C2_bounded_ordered_batch (rt : Runtime) (jobProfile : string)
    (sync : nat -> tick) (data : option (list JSearchJob)) :
  let jobs := arrayOrEmpty data in
  let start := POST_start rt jobProfile sync data in
  (forall evs st enrichedJobs,
     POST_run rt jobProfile evs start = Some st ->
     POST_response st = Some (JsonResponse enrichedJobs) ->
     List.length enrichedJobs = Nat.min (List.length jobs) 12 /\
     Forall2 (enrichmentOf rt jobProfile) (firstn 12 jobs) enrichedJobs) /\
  (forall evs,
     Permutation (map eventIndex evs) (awaiting start) ->
     exists st resp,
       POST_run rt jobProfile evs start = Some st /\
       POST_response st = Some resp) /\
  (jobs = [] ->
     promises start = [] /\ lookups start = [] /\
     POST_response start = Some (JsonResponse [])).
Proof.
  intros jobs start. split; [|split].
  - intros evs st enrichedJobs Hrun Hresp.
    pose proof (response_built rt jobProfile sync data evs st enrichedJobs
                  Hrun Hresp) as H.
    split.
    + rewrite <- (Forall2_length H), length_firstn. apply Nat.min_comm.
    + eapply Forall2_impl; [|exact H].
      intros job r [ci [tk [Hb _]]]. now exists ci, tk.
  - intros evs Hperm.
    destruct (POST_run_complete rt jobProfile evs start Hperm) as [st [Hrun Hno]].
    destruct (reachable_spec rt jobProfile sync data evs st Hrun) as [_ [_ Hc]].
    exists st. unfold POST_response. unfold promiseAllConsistent in Hc.
    destruct (outcome st) as [[rs|e]|]; eauto.
    destruct Hc as [Hrej Hnone]. exfalso.
    exact (settled_without_awaiting (promises st) 0 Hno Hrej Hnone).
  - intros Hjobs. subst start. unfold POST_start. fold jobs. rewrite Hjobs.
    repeat split.
Qed.

Lemma C2_bounded_ordered_batch_witness :
  exists st enrichedJobs,
    POST_run sampleRuntime "Backend Developer" sampleSchedule
      (POST_start sampleRuntime "Backend Developer" sampleSync sampleData) =
      Some st /\
    POST_response st = Some (JsonResponse enrichedJobs) /\
    List.length enrichedJobs = 3 /\
    Forall2 (enrichmentOf sampleRuntime "Backend Developer")
      [listingEmailOnly; emptyListing; listingEmailAndMailto] enrichedJobs.
Proof.
  destruct (C2_bounded_ordered_batch sampleRuntime "Backend Developer"
              sampleSync sampleData) as [H _].
  destruct (POST_run sampleRuntime "Backend Developer" sampleSchedule
              (POST_start sampleRuntime "Backend Developer" sampleSync sampleData))
    as [st|] eqn:Hrun; [|vm_compute in Hrun; discriminate].
  destruct (POST_response st) as [[rs|m s]|] eqn:Hresp.
  - exists st, rs. destruct (H _ _ _ Hrun Hresp) as [Hlen Hall].
    repeat split; assumption.
  - vm_compute in Hrun. injection Hrun as <-. vm_compute in Hresp. discriminate.
  - vm_compute in Hrun. injection Hrun as <-. vm_compute in Hresp. discriminate.
Defined.

(** C9: the lookups started for a batch are those of the listings whose
    employer name is there, not blank and not the sentinel, so no lookup is
    ever started with "Unknown company"; a listing without an employer name
    finishes without suspending and starts no lookup; and whatever the
    lookups answer, its enriched listing carries no company insight. *)
Theorem C9_sentinel_never_looked_up (rt : Runtime) (jobProfile : string)
    (sync : nat -> tick) (data : option (list JSearchJob)) (evs : list event)
    (st : orchestration) :
  POST_run rt jobProfile evs (POST_start rt jobProfile sync data) = Some st ->
  lookups st = lookupNames (firstn 12 (arrayOrEmpty data)) /\
  ~ In UNKNOWN_COMPANY (lookups st) /\
  (forall job tk,
     ensureString (ofString (employer_name job)) = None ->
     runCallback rt jobProfile tk job =
       (settle (buildResult rt jobProfile (prepare job) None tk), [])) /\
  (forall enrichedJobs,
     POST_response st = Some (JsonResponse enrichedJobs) ->
     Forall2
       (fun job r =>
          ensureString (ofString (employer_name job)) = None ->
          companyInsight r = None)
       (firstn 12 (arrayOrEmpty data)) enrichedJobs).
Proof.
  intros Hrun.
  destruct (reachable_spec rt jobProfile sync data evs st Hrun) as [_ [Hl _]].
  split; [exact Hl|]. split; [rewrite Hl; apply lookupNames_not_sentinel|].
  split.
  - intros job tk Hname. unfold runCallback.
    assert (Hu : cl_companyName (prepare job) = UNKNOWN_COMPANY).
    { unfold prepare. cbn [cl_companyName]. now rewrite Hname. }
    rewrite Hu, String.eqb_refl. reflexivity.
  - intros enrichedJobs Hresp.
    eapply Forall2_impl;
      [|exact (response_built rt jobProfile sync data evs st enrichedJobs
                 Hrun Hresp)].
    intros job r [ci [tk [Hb Hskip]]] Hname.
    apply buildResult_fields in Hb as [-> _]. apply Hskip.
    unfold prepare. cbn [cl_companyName]. now rewrite Hname.
Qed.

Lemma C9_sentinel_never_looked_up_witness :
  exists st,
    POST_run sampleRuntime "Backend Developer" sampleSchedule
      (POST_start sampleRuntime "Backend Developer" sampleSync sampleData) =
      Some st /\
    lookups st = ["Globex"; "Acme Corp"] /\
    ~ In UNKNOWN_COMPANY (lookups st).
Proof.
  destruct (POST_run sampleRuntime "Backend Developer" sampleSchedule
              (POST_start sampleRuntime "Backend Developer" sampleSync sampleData))
    as [st|] eqn:Hrun; [|vm_compute in Hrun; discriminate].
  exists st.
  destruct (C9_sentinel_never_looked_up _ _ _ _ _ _ Hrun) as [Hl [Hn _]].
  split; [reflexivity|]. split; [|exact Hn].
  rewrite Hl. vm_compute. reflexivity.
Defined.

(** C10: the remote flag of an enriched listing is a boolean, true exactly
    when the raw [job_is_remote] field is [true]; an absent or false field
    gives [false].  This holds of the result object, and so of every listing
    of every response. *)
Theorem C10_remote_flag (rt : Runtime) (jobProfile : string) :
  (forall cl ci tk r,
     buildResult rt jobProfile cl ci tk = Normal r ->
     (remote r = true <-> job_is_remote (cl_job cl) = Some true)) /\
  (forall sync data evs st enrichedJobs,
     POST_run rt jobProfile evs (POST_start rt jobProfile sync data) = Some st ->
     POST_response st = Some (JsonResponse enrichedJobs) ->
     Forall2
       (fun job r => remote r = true <-> job_is_remote job = Some true)
       (firstn 12 (arrayOrEmpty data)) enrichedJobs).
Proof.
  assert (H : forall cl ci tk r,
             buildResult rt jobProfile cl ci tk = Normal r ->
             (remote r = true <-> job_is_remote (cl_job cl) = Some true)).
  { intros cl ci tk r Hb. apply buildResult_fields in Hb as [_ ->].
    destruct (job_is_remote (cl_job cl)) as [[|]|]; simpl; split;
      congruence. }
  split; [exact H|].
  intros sync data evs st enrichedJobs Hrun Hresp.
  eapply Forall2_impl;
    [|exact (response_built rt jobProfile sync data evs st enrichedJobs
               Hrun Hresp)].
  intros job r [ci [tk [Hb _]]]. exact (H _ _ _ _ Hb).
Qed.

Lemma C10_remote_flag_witness :
  exists r,
    buildResult sampleRuntime "Data Scientist" (prepare listingEmailOnly) None
      sampleTick = Normal r /\
    (remote r = true <-> job_is_remote listingEmailOnly = Some true).
Proof.
  destruct (buildResult sampleRuntime "Data Scientist" (prepare listingEmailOnly)
              None sampleTick) as [r|e] eqn:Hb;
    [|vm_compute in Hb; discriminate].
  exists r. split; [reflexivity|].
  exact (proj1 (C10_remote_flag sampleRuntime "Data Scientist") _ _ _ _ Hb).
Defined.

(** * More of the code: lemmas *)

Section ShapeFacts.

Lemma take_slice (j r : nat) :
  forall s, JS.take (j + r) s = JS.take j s ++ JS.take r (JS.slice j s).
Proof.
  induction j as [|j IH]; intros s.
  - reflexivity.
  - destruct s as [|c s]; cbn [Nat.add JS.take JS.slice append].
    + destruct r; reflexivity.
    + now rewrite IH.
Qed.

Lemma take_length_le (j : nat) : forall s, String.length (JS.take j s) <= j.
Proof.
  induction j as [|j IH]; intros [|c s]; cbn; try lia.
  specialize (IH s). lia.
Qed.

(** A successful quantified class took [j] characters of its class, within
    its bounds, and the rest of the pattern matched what follows. *)
Lemma matchRep_shape (p : ascii -> bool) (mn : nat) (mx : option nat)
    (k : string -> option nat) :
  forall s n r,
    (forall m, mx = Some m -> n <= m) ->
    Regex.matchRep p mn mx n k s = Some r ->
    exists j r',
      r = j + r' /\ k (JS.slice j s) = Some r' /\
      JS.allChars p (JS.take j s) = true /\
      String.length (JS.take j s) = j /\
      mn <= n + j /\ (forall m, mx = Some m -> n + j <= m).
Proof.
  induction s as [|c s IH]; intros n r Hmax H.
  - cbn in H. destruct (mn <=? n) eqn:Hmn; [|discriminate].
    apply Nat.leb_le in Hmn. exists 0, r. cbn.
    repeat split; auto; try lia. intros m Hm. specialize (Hmax m Hm). lia.
  - cbn [Regex.matchRep] in H.
    assert (Hstop : (if mn <=? n then k (String c s) else None) = Some r ->
      exists j r',
        r = j + r' /\ k (JS.slice j (String c s)) = Some r' /\
        JS.allChars p (JS.take j (String c s)) = true /\
        String.length (JS.take j (String c s)) = j /\
        mn <= n + j /\ (forall m, mx = Some m -> n + j <= m)).
    { intros Hk. destruct (mn <=? n) eqn:Hmn; [|discriminate].
      apply Nat.leb_le in Hmn. exists 0, r. cbn.
      repeat split; auto; try lia. intros m Hm. specialize (Hmax m Hm). lia. }
    destruct (p c && Regex.belowMax n mx) eqn:Hc; [|auto].
    destruct (Regex.matchRep p mn mx (S n) k s) as [r0|] eqn:Hrec; [|auto].
    injection H as <-. apply andb_true_iff in Hc as [Hc Hb].
    apply IH in Hrec as [j [r' [-> [Hk [Hall [Hlen [Hmin Hmx]]]]]]].
    + exists (S j), r'. cbn. rewrite Hc, Hall, Hlen.
      repeat split; auto; try lia. intros m Hm. specialize (Hmx m Hm). lia.
    + intros m Hm. subst mx. cbn in Hb. apply Nat.ltb_lt in Hb. lia.
Qed.

(** The matcher is sound: what it matches has the shape of the pattern. *)
Lemma matchAtoms_shaped (ic : bool) (atoms : list Regex.atom) :
  forall s r,
    Regex.matchAtoms ic atoms s = Some r -> shaped ic atoms (JS.take r s).
Proof.
  induction atoms as [|a rest IH]; intros s r H.
  - cbn in H. injection H as <-. destruct s; reflexivity.
  - cbn [Regex.matchAtoms] in H.
    apply matchRep_shape in H as [j [r' [-> [Hk [Hall [Hlen [Hmin Hmx]]]]]]].
    + cbn [shaped]. exists (JS.take j s), (JS.take r' (JS.slice j s)).
      rewrite take_slice, Hlen. repeat split; auto.
    + intros m _. lia.
Qed.

Lemma scanMatches_shaped (re : Regex.regex) (s : string) :
  forall skip m,
    In m (Regex.scanMatches re skip s) ->
    shaped (Regex.re_ignoreCase re) (Regex.re_atoms re) m.
Proof.
  induction s as [|c s IH]; intros skip m Hin.
  - cbn in Hin. destruct skip; [|contradiction].
    destruct (Regex.matchAt re "") as [r|] eqn:Hm; [|contradiction].
    destruct Hin as [<-|[]].
    apply matchAtoms_shaped in Hm. now destruct r.
  - cbn [Regex.scanMatches] in Hin. destruct skip as [|skip]; [|eauto].
    destruct (Regex.matchAt re (String c s)) as [[|n]|] eqn:Hm; [| |eauto].
    + destruct Hin as [<-|Hin]; [|eauto]. now apply matchAtoms_shaped in Hm.
    + destruct Hin as [<-|Hin]; [|eauto]. now apply matchAtoms_shaped in Hm.
Qed.

Lemma matchAll_shaped (re : Regex.regex) (s m : string) :
  In m (Regex.matchAll re s) ->
  shaped (Regex.re_ignoreCase re) (Regex.re_atoms re) m.
Proof. apply scanMatches_shaped. Qed.

End ShapeFacts.

Section CandidateFacts.

(** A candidate of the output is an email, a phone or the website. *)
Lemma candidate_cases (job : JSearchJob) (c : JobContact) :
  In c (extractContacts job) ->
  (exists e, In e (emailValues job) /\ c = emailContact e) \/
  (exists p, In p (phoneValues job) /\ c = phoneContact p) \/
  (exists w, ensureString (ofString (employer_website job)) = Some w /\
             c = websiteContact w).
Proof.
  rewrite extractContacts_shape. unfold contactsInOrder, websiteValue.
  intros H. apply in_app_or in H as [H|H]; [|apply in_app_or in H as [H|H]].
  - apply in_map_iff in H as [e [<- He]]. left. eauto.
  - apply in_map_iff in H as [p [<- Hp]]. right. left. eauto.
  - right. right.
    destruct (ensureString (ofString (employer_website job))) as [w|];
      [|contradiction].
    destruct H as [<-|[]]. eauto.
Qed.

Lemma emailContact_not_phone (e : string) :
  isPhoneCandidate (emailContact e) = false.
Proof. unfold emailContact. destruct (JS.includes "hr" e); reflexivity. Qed.

Lemma phoneChar_space : phoneChar " " = true.
Proof. reflexivity. Qed.

Lemma phoneValues_chars (job : JSearchJob) (p : string) :
  In p (phoneValues job) -> JS.allChars phoneChar p = true.
Proof.
  intros H. apply firstOccurrences_In, filter_In in H as [H _].
  apply in_map_iff in H as [m [<- Hm]].
  unfold normalizePhone, Regex.replaceAll.
  apply allChars_trim, replaceScan_chars; [reflexivity|].
  exact (matchAll_chars PHONE_REGEX _ _ Hm).
Qed.

Lemma phoneValues_long (job : JSearchJob) (p : string) :
  In p (phoneValues job) -> 8 <= String.length p.
Proof.
  intros H. apply firstOccurrences_In, filter_In in H as [_ H].
  now apply Nat.leb_le in H.
Qed.

Lemma phoneValues_spaced (job : JSearchJob) (p : string) :
  In p (phoneValues job) -> JS.trim p = p /\ singleSpaced p = true.
Proof.
  intros H. apply firstOccurrences_In, filter_In in H as [H _].
  apply in_map_iff in H as [m [<- _]]. unfold normalizePhone, Regex.replaceAll.
  split; [apply trim_idem|].
  unfold JS.trim. apply singleSpaced_trimEnd, singleSpaced_trimStart.
  apply (replaceScan_singleSpaced m).
Qed.

Lemma startsWith_first (p s : string) (q : ascii -> bool) (a : ascii) :
  JS.allChars q s = true -> q a = false ->
  JS.startsWith (String a p) s = false.
Proof.
  intros Hs Ha. destruct s as [|c s]; [reflexivity|]. cbn in *.
  apply andb_true_iff in Hs as [Hc _].
  destruct (Ascii.eqb_spec a c) as [->|]; [congruence | reflexivity].
Qed.

Lemma only_char (p : ascii -> bool) (a : ascii) (s : string) :
  (forall c, p c = true -> c = a) ->
  JS.allChars p s = true -> 1 <= String.length s -> String.length s <= 1 ->
  s = String a EmptyString.
Proof.
  intros Hp Hs Hmin Hmax. destruct s as [|c [|d s]]; cbn in *; try lia.
  apply andb_true_iff in Hs as [Hc _]. now rewrite (Hp c Hc).
Qed.

Lemma includes_middle (a : ascii) (s t : string) :
  JS.includes (String a EmptyString) (s ++ String a t) = true.
Proof.
  induction s as [|c s IH]; cbn [append JS.includes JS.startsWith].
  - now rewrite Ascii.eqb_refl.
  - rewrite IH. apply orb_true_r.
Qed.

Lemma toLowerCase_append (s t : string) :
  JS.toLowerCase (s ++ t) = JS.toLowerCase s ++ JS.toLowerCase t.
Proof.
  induction s as [|c s IH]; cbn; [reflexivity | now rewrite IH].
Qed.

End CandidateFacts.

(** * More of the code: the contact extractor *)

(** X1: every match of the email pattern in a description is a local part,
    an at sign, a domain, a period and a top-level part of two letters or
    more, each made of the characters of its class; so it still contains an
    at sign in lower case, and the filter of line 236 drops no description
    match. *)
Theorem description_email_shape (s m : string) :
  In m (Regex.matchAll EMAIL_REGEX s) ->
  (exists localPart domain tld,
     m = localPart ++ "@" ++ domain ++ "." ++ tld /\
     1 <= String.length localPart /\
     JS.allChars (Regex.classTest true emailLocalPart) localPart = true /\
     1 <= String.length domain /\
     JS.allChars (Regex.classTest true emailDomain) domain = true /\
     2 <= String.length tld /\
     JS.allChars isAsciiLetter tld = true) /\
  JS.includes "@" (JS.toLowerCase m) = true.
Proof.
  intros H. apply matchAll_shaped in H.
  cbn [EMAIL_REGEX Regex.re_atoms Regex.re_ignoreCase shaped Regex.a_class
       Regex.a_min Regex.a_max] in H.
  destruct H as [l [t1 [-> [Hl [Hl1 [_ H]]]]]].
  destruct H as [at_ [t2 [-> [Ha [Ha1 [Ha2 H]]]]]].
  destruct H as [d [t3 [-> [Hd [Hd1 [_ H]]]]]].
  destruct H as [dot [t4 [-> [Hp [Hp1 [Hp2 H]]]]]].
  destruct H as [tld [t5 [-> [Ht [Ht1 [_ ->]]]]]].
  assert (Eat : at_ = "@").
  { apply (only_char _ "@"%char _) in Ha; auto.
    intros c. destruct c as [[] [] [] [] [] [] [] []]; vm_compute; congruence. }
  assert (Edot : dot = ".").
  { apply (only_char _ "."%char _) in Hp; auto.
    intros c. destruct c as [[] [] [] [] [] [] [] []]; vm_compute; congruence. }
  subst at_ dot. rewrite append_empty_r. split.
  - exists l, d, tld. repeat split; auto.
    eapply allChars_impl; [|exact Ht].
    intros c. destruct c as [[] [] [] [] [] [] [] []]; vm_compute; congruence.
  - rewrite toLowerCase_append. cbn [append JS.toLowerCase].
    change (JS.lowerChar "@") with "@"%char. apply includes_middle.
Qed.

Lemma description_email_shape_witness :
  JS.includes "@" (JS.toLowerCase "HR@Acme.com") = true.
Proof.
  apply (description_email_shape "Write to HR@Acme.com today." "HR@Acme.com").
  vm_compute. auto.
Defined.

(** X2: every phone candidate of the output has at least eight characters,
    all of them digits, white space, parentheses, periods, hyphens or a plus
    sign; it neither begins nor ends with white space and its white space is
    single spaces. *)
Theorem phone_candidate_form (job : JSearchJob) (c : JobContact) :
  In c (extractContacts job) ->
  isPhoneCandidate c = true ->
  8 <= String.length (value c) /\
  JS.allChars phoneChar (value c) = true /\
  JS.trim (value c) = value c /\
  singleSpaced (value c) = true.
Proof.
  intros Hin Hphone.
  destruct (candidate_cases job c Hin) as [[e [_ ->]]|[[p [Hp ->]]|[w [_ ->]]]].
  - rewrite emailContact_not_phone in Hphone. discriminate.
  - cbn [value phoneContact].
    destruct (phoneValues_spaced job p Hp) as [Ht Hs].
    repeat split; auto.
    + exact (phoneValues_long job p Hp).
    + exact (phoneValues_chars job p Hp).
  - discriminate.
Qed.

Lemma phone_candidate_form_witness :
  8 <= String.length "022 555-1234" /\
  JS.allChars phoneChar "022 555-1234" = true /\
  JS.trim "022 555-1234" = "022 555-1234" /\
  singleSpaced "022 555-1234" = true.
Proof.
  apply (phone_candidate_form listingEmailOnly
           {| label := "Phone"; value := "022 555-1234" |});
    vm_compute; auto.
Defined.

(** X3: every email candidate of the output has a value in lower case that
    contains an at sign, and is labeled "HR email" exactly when that value
    contains "hr". *)
Theorem email_candidate_form (job : JSearchJob) (c : JobContact) :
  In c (extractContacts job) ->
  isEmailCandidate c = true ->
  JS.toLowerCase (value c) = value c /\
  JS.includes "@" (value c) = true /\
  (label c = "HR email" <-> JS.includes "hr" (value c) = true).
Proof.
  intros Hin Hemail.
  destruct (candidate_cases job c Hin) as [[e [He ->]]|[[p [_ ->]]|[w [_ ->]]]];
    try discriminate.
  cbn [value emailContact label].
  split; [exact (emailValues_lower job e He)|].
  split; [exact (emailValues_at job e He)|].
  destruct (JS.includes "hr" e); split; congruence.
Qed.

Lemma email_candidate_form_witness :
  JS.toLowerCase "hr@acme.com" = "hr@acme.com" /\
  JS.includes "@" "hr@acme.com" = true /\
  ("HR email" = "HR email" <-> JS.includes "hr" "hr@acme.com" = true).
Proof.
  apply (email_candidate_form listingEmailAndMailto
           {| label := "HR email"; value := "hr@acme.com" |});
    vm_compute; auto.
Defined.

(** X4: a listing whose description, employer email, apply link and employer
    website are all absent or blank has no contact candidate. *)
Theorem no_fields_no_contacts (job : JSearchJob) :
  ensureString (ofString (job_description job)) = None ->
  ensureString (ofString (employer_email job)) = None ->
  ensureString (ofString (job_apply_link job)) = None ->
  ensureString (ofString (employer_website job)) = None ->
  extractContacts job = [].
Proof.
  intros Hd He Ha Hw. rewrite extractContacts_shape.
  unfold contactsInOrder, emailValues, phoneValues, websiteValue,
    emailSources, mailtoAddress, descriptionOf.
  rewrite Hd, He, Ha, Hw. reflexivity.
Qed.

Lemma no_fields_no_contacts_witness : extractContacts listingBlankFields = [].
Proof. apply no_fields_no_contacts; reflexivity. Defined.

Section KeyFacts.

Lemma NoDup_map_inj_on {A B : Type} (f : A -> B) (l : list A) :
  NoDup l ->
  (forall x y, In x l -> In y l -> f x = f y -> x = y) ->
  NoDup (map f l).
Proof.
  induction 1 as [|x l Hx Hl IH]; intros Hinj; cbn; constructor.
  - intros Hin. apply in_map_iff in Hin as [y [Hy Hin]].
    apply Hx. rewrite (Hinj x y); cbn; auto.
  - apply IH. intros a b Ha Hb. apply Hinj; cbn; auto.
Qed.

Lemma candidate_label (job : JSearchJob) (c : JobContact) :
  In c (extractContacts job) ->
  label c = "HR email" \/ label c = "Contact email" \/
  label c = "Phone" \/ label c = "Company website".
Proof.
  intros Hin.
  destruct (candidate_cases job c Hin) as [[e [_ ->]]|[[p [_ ->]]|[w [_ ->]]]];
    cbn; auto.
  destruct (JS.includes "hr" e); auto.
Qed.

Lemma contactKey_inj (c d : JobContact) :
  (label c = "HR email" \/ label c = "Contact email" \/
   label c = "Phone" \/ label c = "Company website") ->
  (label d = "HR email" \/ label d = "Contact email" \/
   label d = "Phone" \/ label d = "Company website") ->
  contactKey c = contactKey d -> c = d.
Proof.
  destruct c as [lc vc], d as [ld vd]. unfold contactKey. cbn [label value].
  intros [ -> | [ -> | [ -> | -> ]]] [ -> | [ -> | [ -> | -> ]]] H; cbn in H;
    try discriminate; congruence.
Qed.

End KeyFacts.

(** X5: the keys the result card gives the contacts of a listing, label,
    hyphen, value, are pairwise distinct. *)
Theorem contact_keys_distinct (job : JSearchJob) :
  NoDup (map contactKey (extractContacts job)).
Proof.
  apply NoDup_map_inj_on.
  - apply (NoDup_map_inv dedupKey). rewrite contactMapOf_keys.
    apply contactMapOf_NoDup.
  - intros c d Hc Hd. apply contactKey_inj; eapply candidate_label; eauto.
Qed.

(** X6: in the result card an email candidate links to its address with
    the mailto scheme, a phone candidate has no link, and the website
    candidate, whose value always begins with "http", links to that value
    unless it contains an at sign. *)
Theorem contact_links (job : JSearchJob) (c : JobContact) :
  In c (extractContacts job) ->
  (isEmailCandidate c = true ->
   contactHref c = Some ("mailto:" ++ value c)) /\
  (isPhoneCandidate c = true -> contactHref c = None) /\
  (isWebsiteCandidate c = true ->
   JS.startsWith "http" (value c) = true /\
   (JS.includes "@" (value c) = false -> contactHref c = Some (value c))).
Proof.
  intros Hin. unfold contactHref.
  destruct (candidate_cases job c Hin) as [[e [He ->]]|[[p [Hp ->]]|[w [_ ->]]]].
  - repeat split; try (rewrite ?emailContact_not_phone; discriminate).
    + intros _. cbn [value emailContact].
      now rewrite (emailValues_at job e He).
    + unfold emailContact in H. destruct (JS.includes "hr" e); discriminate.
    + unfold emailContact in H. destruct (JS.includes "hr" e); discriminate.
  - repeat split; try discriminate. intros _. cbn [value phoneContact].
    rewrite (includes_char_allChars "@" p (phoneValues_notAt job p Hp)).
    rewrite (startsWith_first "ttp" p phoneChar "h"
               (phoneValues_chars job p Hp) eq_refl).
    reflexivity.
  - repeat split; try discriminate.
    + unfold websiteContact. cbn [value].
      destruct (JS.startsWith "http" w) eqn:E; [exact E | reflexivity].
    + intros Hno. rewrite Hno. unfold websiteContact in *. cbn [value] in *.
      destruct (JS.startsWith "http" w) eqn:E; [now rewrite E | reflexivity].
Qed.

Lemma contact_links_witness :
  contactHref {| label := "Phone"; value := "022 555-1234" |} = None.
Proof.
  refine (proj1 (proj2 (contact_links listingEmailOnly
            {| label := "Phone"; value := "022 555-1234" |} _)) eq_refl).
  vm_compute. auto.
Defined.

(** * More of the code: salary and posting age *)

(** X7: [formatSalary] throws exactly when a salary sub-record is there, one
    of its resolved bounds is truthy and its currency, "INR" when absent, is
    not three ASCII letters; what it throws is a [RangeError]. *)
Theorem formatSalary_throws_iff (rt : Runtime) (job : JSearchJob) (e : error) :
  formatSalary rt job = Throw e <->
  e = RangeError /\
  exists s,
    job_salary job = Some s /\
    truthy (resolvedMin s) || truthy (resolvedMax s) = true /\
    isWellFormedCurrencyCode (currencyOf s) = false.
Proof.
  assert (Hform : forall s, job_salary job = Some s ->
            exists v,
              formatSalary rt job =
              if truthy (resolvedMin s) || truthy (resolvedMax s)
              then if isWellFormedCurrencyCode (currencyOf s)
                   then Normal v else Throw RangeError
              else Normal None).
  { intros s Hs.
    unfold formatSalary, NumberFormat, resolvedMin, resolvedMax, currencyOf.
    rewrite Hs.
    destruct (truthy (nullish (salary_min s) (min_salary s)));
      destruct (truthy (nullish (salary_max s) (max_salary s)));
      destruct (isWellFormedCurrencyCode (nullishOr (currency s) "INR"));
      cbn [negb andb orb bind]; cbv zeta;
      try (exists None; reflexivity);
      try (destruct (truthy (nullish (nullish (salary_min s) (min_salary s))
                               (nullish (salary_max s) (max_salary s)))));
      eexists; reflexivity. }
  destruct (job_salary job) as [s|] eqn:Hs.
  - destruct (Hform s eq_refl) as [v Hv]. rewrite Hv. clear Hform Hv.
    split.
    + intros H.
      destruct (truthy (resolvedMin s) || truthy (resolvedMax s)) eqn:Ht;
        [|discriminate].
      destruct (isWellFormedCurrencyCode (currencyOf s)) eqn:Hc;
        [discriminate|].
      injection H as <-. split; [reflexivity|]. exists s. auto.
    + intros [-> [s' [Hs' [Ht Hc]]]]. injection Hs' as <-.
      now rewrite Ht, Hc.
  - split.
    + unfold formatSalary. rewrite Hs. discriminate.
    + intros [_ [s [Hs' _]]]. discriminate.
Qed.

(** X8: a salary string [formatSalary] returns is either the two truthy
    bounds, formatted in the listing's currency and joined by " - ", or the
    one truthy value [min ?? max], formatted; in both cases followed by the
    period suffix. *)
Theorem formatSalary_present (rt : Runtime) (job : JSearchJob) (str : string) :
  formatSalary rt job = Normal (Some str) ->
  exists s,
    job_salary job = Some s /\
    isWellFormedCurrencyCode (currencyOf s) = true /\
    ((exists mn mx,
        resolvedMin s = Some mn /\ resolvedMax s = Some mx /\
        truthyNumber mn = true /\ truthyNumber mx = true /\
        str = formatCurrency rt (currencyOf s) mn ++ " - " ++
              formatCurrency rt (currencyOf s) mx ++
              periodSuffix (resolvedPeriod s)) \/
     (exists v,
        nullish (resolvedMin s) (resolvedMax s) = Some v /\
        truthyNumber v = true /\
        truthy (resolvedMin s) && truthy (resolvedMax s) = false /\
        str = formatCurrency rt (currencyOf s) v ++
              periodSuffix (resolvedPeriod s))).
Proof.
  unfold formatSalary, NumberFormat, resolvedMin, resolvedMax, resolvedPeriod,
    currencyOf.
  destruct (job_salary job) as [s|]; [|discriminate].
  intros H. exists s. split; [reflexivity|].
  destruct (negb (truthy (nullish (salary_min s) (min_salary s))) &&
            negb (truthy (nullish (salary_max s) (max_salary s))));
    [discriminate|].
  destruct (isWellFormedCurrencyCode (nullishOr (currency s) "INR"));
    cbn [bind] in H; [|discriminate].
  split; [reflexivity|].
  destruct (truthy (nullish (salary_min s) (min_salary s)) &&
            truthy (nullish (salary_max s) (max_salary s))) eqn:Hboth.
  - left. apply andb_true_iff in Hboth as [Tmin Tmax].
    destruct (nullish (salary_min s) (min_salary s)) as [mn|]; [|discriminate].
    destruct (nullish (salary_max s) (max_salary s)) as [mx|]; [|discriminate].
    injection H as <-. exists mn, mx. repeat split; auto.
  - right. cbv zeta in H.
    destruct (nullish (nullish (salary_min s) (min_salary s))
                (nullish (salary_max s) (max_salary s))) as [v|] eqn:Hv;
      cbn [truthy] in H; [|discriminate].
    destruct (truthyNumber v) eqn:Tv; [|discriminate].
    injection H as <-. exists v. repeat split; auto.
Qed.

Lemma formatSalary_present_witness :
  exists s,
    job_salary listingRange = Some s /\
    isWellFormedCurrencyCode (currencyOf s) = true.
Proof.
  destruct (formatSalary_present sampleRuntime listingRange
              "INR amount - INR amount / month") as [s [Hs [Hc _]]].
  - reflexivity.
  - exists s. split; assumption.
Defined.

Section AgeFacts.

Local Open Scope Z_scope.

Lemma div_ltb (a c k : Z) : 0 < c -> (a / c <? k) = (a <? k * c).
Proof.
  intros Hc. destruct (Z.ltb_spec a (k * c)) as [H|H].
  - apply Z.ltb_lt. apply Z.div_lt_upper_bound; lia.
  - apply Z.ltb_ge. apply Z.div_le_lower_bound; lia.
Qed.

Lemma div_leb (a c k : Z) : 0 < c -> (a / c <=? k) = (a <? (k + 1) * c).
Proof.
  intros Hc. rewrite <- div_ltb by assumption.
  destruct (Z.leb_spec (a / c) k); destruct (Z.ltb_spec (a / c) (k + 1)); lia.
Qed.

Lemma div_eqb_1 (a c : Z) :
  0 < c -> c <= a -> (a / c =? 1) = (a <? 2 * c).
Proof.
  intros Hc Ha. rewrite <- div_ltb by assumption.
  assert (1 <= a / c) by (apply Z.div_le_lower_bound; lia).
  destruct (Z.eqb_spec (a / c) 1); destruct (Z.ltb_spec (a / c) 2); lia.
Qed.

End AgeFacts.

(** X9: the posting age of a valid date [t] at the instant [now], by the
    elapsed milliseconds [now - t]: under two hours, a date in the future
    included, "Posted less than an hour ago"; from two hours to under a day,
    the whole hours; from one day to under two, "Posted yesterday"; from two
    days to under seven, the whole days; from seven days on, the short
    calendar date of [t]. *)
Theorem postedAge_buckets (rt : Runtime) (now t : Z) :
  let elapsed := (now - t)%Z in
  let hour := 3600000%Z in
  let day := 86400000%Z in
  ((elapsed < 2 * hour)%Z ->
   postedAge rt now (mkDate (Some t)) = "Posted less than an hour ago") /\
  ((2 * hour <= elapsed < day)%Z ->
   postedAge rt now (mkDate (Some t)) =
     "Posted " ++ JS.numberToString (elapsed / hour) ++ "h ago") /\
  ((day <= elapsed < 2 * day)%Z ->
   postedAge rt now (mkDate (Some t)) = "Posted yesterday") /\
  ((2 * day <= elapsed < 7 * day)%Z ->
   postedAge rt now (mkDate (Some t)) =
     "Posted " ++ JS.numberToString (elapsed / day) ++ " days ago") /\
  ((7 * day <= elapsed)%Z ->
   postedAge rt now (mkDate (Some t)) = formatShortDate rt t).
Proof.
  intros elapsed hour day.
  unfold postedAge, numSub, floorDiv, numLt, numLe, numEq, numToString,
    toLocaleDateString.
  cbn [getTime].
  change (1000 * 60 * 60 * 24)%Z with day. change (1000 * 60 * 60)%Z with hour.
  fold elapsed.
  rewrite !div_ltb, div_leb by (subst hour day; lia).
  subst hour day. repeat split; intros H.
  - destruct (Z.ltb_spec elapsed (1 * 86400000)); [|lia].
    destruct (Z.ltb_spec elapsed ((1 + 1) * 3600000)); [reflexivity | lia].
  - destruct (Z.ltb_spec elapsed (1 * 86400000)); [|lia].
    destruct (Z.ltb_spec elapsed ((1 + 1) * 3600000)); [lia | reflexivity].
  - destruct (Z.ltb_spec elapsed (1 * 86400000)); [lia|].
    destruct (Z.ltb_spec elapsed (7 * 86400000)); [|lia].
    rewrite div_eqb_1 by lia.
    destruct (Z.ltb_spec elapsed (2 * 86400000)); [reflexivity | lia].
  - destruct (Z.ltb_spec elapsed (1 * 86400000)); [lia|].
    destruct (Z.ltb_spec elapsed (7 * 86400000)); [|lia].
    rewrite div_eqb_1 by lia.
    destruct (Z.ltb_spec elapsed (2 * 86400000)); [lia | reflexivity].
  - destruct (Z.ltb_spec elapsed (1 * 86400000)); [lia|].
    destruct (Z.ltb_spec elapsed (7 * 86400000)); [lia | reflexivity].
Qed.

Lemma postedAge_buckets_witness :
  postedAge sampleRuntime 1700000000000%Z (mkDate (Some 1699993000000%Z)) =
  "Posted less than an hour ago".
Proof.
  apply (proj1 (postedAge_buckets sampleRuntime 1700000000000%Z
                  1699993000000%Z)).
  vm_compute. reflexivity.
Defined.

(** X10: a date-time field that is not blank keeps the generic posted-at
    field from being read: when it does not parse and the listing has no
    numeric timestamp, the posting age is absent whatever the posted-at
    field holds. *)
Theorem unparsable_utc_hides_posted_at (rt : Runtime) (now : Z)
    (job : JSearchJob) (utc : string) (posted : option string) :
  JS.nonEmpty (JS.trim utc) = true ->
  parseDate rt (JS.trim utc) = None ->
  formatPosted rt now (withPosted job None (Some utc) posted) = None.
Proof.
  intros Hne Hp. unfold formatPosted, postedDate, newDateOfString.
  cbn [withPosted job_posted_at_datetime_utc job_posted_at
       job_posted_at_timestamp ofString ensureString].
  rewrite Hne. cbn [nullish getTime]. rewrite Hp. reflexivity.
Qed.

Lemma unparsable_utc_hides_posted_at_witness :
  formatPosted sampleRuntime 1700000000000%Z
    (withPosted emptyListing None (Some "soon") (Some "2023-11-14")) = None.
Proof.
  apply unparsable_utc_hides_posted_at; reflexivity.
Defined.

(** X11: the date [formatPosted] works with is an invalid date exactly when
    no string handed to the parser gave a valid date and the numeric
    timestamp is there with more than 8.64e15 milliseconds in magnitude. *)
Theorem postedDate_invalid_iff (rt : Runtime) (job : JSearchJob) :
  postedDate rt job = Some (mkDate None) <->
  match isoString job with
  | Some s => parseDate rt s = None
  | None => True
  end /\
  exists ts,
    job_posted_at_timestamp job = Some ts /\
    (8640000000000000 < Z.abs (ts * 1000))%Z.
Proof.
  unfold postedDate, isoString, newDateOfString, newDateOfNumber, timeClip.
  destruct (nullish _ _) as [s|]; cbn [getTime].
  - destruct (parseDate rt s) as [t|] eqn:Hp.
    + split; [discriminate | intros [? _]; discriminate].
    + destruct (job_posted_at_timestamp job) as [ts|].
      * destruct (Z.leb_spec (Z.abs (ts * 1000)) 8640000000000000).
        -- split; [discriminate|]. intros [_ [ts' [E H']]].
           injection E as <-. lia.
        -- split; [|reflexivity]. intros _. split; [reflexivity|]. eauto.
      * split; [discriminate|]. intros [_ [ts [E _]]]. discriminate.
  - destruct (job_posted_at_timestamp job) as [ts|].
    + destruct (Z.leb_spec (Z.abs (ts * 1000)) 8640000000000000).
      * split; [discriminate|]. intros [_ [ts' [E H']]].
        injection E as <-. lia.
      * split; [|reflexivity]. intros _. split; [exact I|]. eauto.
    + split; [discriminate|]. intros [_ [ts [E _]]]. discriminate.
Qed.

(** * More of the code: the fan-out *)

Section ScheduleFacts.

Variable rt : Runtime.
Variable jobProfile : string.

Lemma nth_error_replaceNth {A : Type} (l : list A) :
  forall i j x y,
    nth_error l i = Some y ->
    nth_error (replaceNth i x l) j =
    if j =? i then Some x else nth_error l j.
Proof.
  induction l as [|a l IH]; intros i j x y Hi.
  - destruct i; discriminate.
  - destruct i as [|i]; destruct j as [|j]; cbn in *; auto.
    eapply IH; eauto.
Qed.

Lemma settledBy_nil (i : nat) (p : promise) : settledBy rt jobProfile [] i p = p.
Proof. destruct p; reflexivity. Qed.

Lemma settledBy_settled (evs : list event) (i : nat) (p : promise) :
  isAwaiting p = false -> settledBy rt jobProfile evs i p = p.
Proof. destruct p; [discriminate | reflexivity | reflexivity]. Qed.

Lemma settledBy_other (ev : event) (evs : list event) (i : nat) (p : promise) :
  eventIndex ev <> i ->
  settledBy rt jobProfile (ev :: evs) i p = settledBy rt jobProfile evs i p.
Proof.
  intros Hne. destruct p; try reflexivity. unfold settledBy, findEvent.
  cbn [find]. apply Nat.eqb_neq in Hne. now rewrite Hne.
Qed.

(** The promises after a run: each pending promise that has an event in the
    schedule is resumed by it; nothing else changes. *)
Lemma POST_run_nth (evs : list event) :
  forall st st',
    POST_run rt jobProfile evs st = Some st' ->
    forall j,
      nth_error (promises st') j =
      option_map (settledBy rt jobProfile evs j) (nth_error (promises st) j).
Proof.
  induction evs as [|ev evs IH]; intros st st' Hrun j; cbn in Hrun.
  - injection Hrun as <-. destruct (nth_error (promises st) j); cbn;
      [now rewrite settledBy_nil | reflexivity].
  - destruct ev as [i o tk]. cbn in Hrun.
    destruct (nth_error (promises st) i) as [[cl|r|e]|] eqn:Hi;
      try discriminate.
    rewrite (IH _ _ Hrun j). cbn [promises].
    rewrite (nth_error_replaceNth _ _ _ _ _ Hi).
    destruct (Nat.eqb_spec j i) as [->|Hne].
    + rewrite Hi. cbn [option_map]. f_equal.
      rewrite settledBy_settled by apply settle_not_awaiting.
      unfold settledBy, findEvent. cbn [find eventIndex].
      now rewrite Nat.eqb_refl.
    + destruct (nth_error (promises st) j); cbn [option_map]; [|reflexivity].
      f_equal. symmetry. apply settledBy_other. cbn. auto.
Qed.

(** A schedule that runs settles every lookup at most once, and only
    lookups that were pending. *)
Lemma POST_run_valid (evs : list event) :
  forall st st',
    POST_run rt jobProfile evs st = Some st' ->
    NoDup (map eventIndex evs) /\
    (forall ev, In ev evs -> In (eventIndex ev) (awaiting st)).
Proof.
  induction evs as [|ev evs IH]; intros st st' Hrun; cbn in Hrun.
  - split; [constructor | contradiction].
  - destruct ev as [i o tk]. cbn in Hrun.
    destruct (nth_error (promises st) i) as [[cl|r|e]|] eqn:Hi;
      try discriminate.
    set (t := settle _) in Hrun.
    destruct (IH _ _ Hrun) as [Hnd Hin].
    destruct (awaitingFrom_replaceNth (promises st) 0 i cl t Hi
                (settle_not_awaiting _)) as [l1 [l2 [H1 H2]]].
    assert (Hsplit : awaiting st = (l1 ++ i :: l2)%list) by exact H1.
    assert (Hnot : ~ In i (l1 ++ l2)).
    { rewrite <- H2. intros Hi'.
      apply awaitingFrom_In in Hi' as [j [cl' [-> Hj]]]. cbn in Hj.
      rewrite (nth_error_replaceNth _ _ _ _ _ Hi), Nat.eqb_refl in Hj.
      injection Hj as Hj. subst t.
      pose proof (settle_not_awaiting
        (companyInsight <- companyInsightOfOutcome o;;
         buildResult rt jobProfile cl companyInsight tk)) as Hs.
      rewrite Hj in Hs. discriminate. }
    split.
    + cbn [map eventIndex]. constructor; [|exact Hnd].
      intros Hmem. apply in_map_iff in Hmem as [ev [Hev Hmem]].
      apply Hin in Hmem. unfold awaiting in Hmem. cbn [promises] in Hmem.
      rewrite H2, Hev in Hmem. contradiction.
    + intros ev [<-|Hev].
      * cbn. rewrite Hsplit. apply in_or_app. right. now left.
      * apply Hin in Hev. unfold awaiting in Hev. cbn [promises] in Hev.
        rewrite H2 in Hev. rewrite Hsplit.
        apply in_app_or in Hev as [Hev|Hev]; apply in_or_app;
          [left | right; right]; exact Hev.
Qed.

(** With every lookup settled at most once, the event of a lookup is the
    same in every order of the schedule. *)
Lemma findEvent_perm (i : nat) (evs evs' : list event) :
  Permutation evs evs' ->
  NoDup (map eventIndex evs) ->
  findEvent i evs = findEvent i evs'.
Proof.
  unfold findEvent. induction 1 as [|x l l' Hp IH|x y l|l l' l'' Hp1 IH1 Hp2 IH2];
    intros Hnd.
  - reflexivity.
  - cbn. inversion Hnd; subst. now rewrite IH.
  - cbn. destruct (Nat.eqb_spec (eventIndex y) i) as [Hy|Hy];
      destruct (Nat.eqb_spec (eventIndex x) i) as [Hx|Hx]; try reflexivity.
    exfalso. cbn in Hnd. inversion Hnd as [|? ? Hnot _]; subst.
    apply Hnot. left. congruence.
  - rewrite IH1 by assumption. apply IH2.
    eapply Permutation_NoDup; [|exact Hnd]. now apply Permutation_map.
Qed.

Lemma findEvent_In (i : nat) (evs : list event) (ev : event) :
  NoDup (map eventIndex evs) -> In ev evs -> eventIndex ev = i ->
  findEvent i evs = Some ev.
Proof.
  unfold findEvent. induction evs as [|x evs IH]; intros Hnd Hin Hi;
    [contradiction|].
  cbn in *. inversion Hnd as [|? ? Hnot Hnd']; subst.
  destruct Hin as [->|Hin].
  - now rewrite Nat.eqb_refl.
  - destruct (Nat.eqb_spec (eventIndex x) (eventIndex ev)) as [E|E]; [|auto].
    exfalso. apply Hnot. rewrite E. now apply in_map.
Qed.

(** A schedule runs when it settles pending lookups, each at most once. *)
Lemma POST_run_exists (evs : list event) :
  forall st,
    NoDup (map eventIndex evs) ->
    (forall ev, In ev evs -> In (eventIndex ev) (awaiting st)) ->
    exists st', POST_run rt jobProfile evs st = Some st'.
Proof.
  induction evs as [|ev evs IH]; intros st Hnd Hin; cbn.
  - eauto.
  - destruct ev as [i o tk]. cbn [POST_step].
    assert (Hi : In i (awaiting st)) by (apply (Hin (LookupSettles i o tk)); now left).
    apply awaitingFrom_In in Hi as [j [cl [-> Hj]]]. cbn in Hj |- *.
    rewrite Hj. set (t := settle _).
    destruct (awaitingFrom_replaceNth (promises st) 0 j cl t Hj
                (settle_not_awaiting _)) as [l1 [l2 [H1 H2]]].
    inversion Hnd as [|? ? Hnot Hnd']; subst.
    apply IH; [exact Hnd'|].
    intros ev Hev. unfold awaiting. cbn [promises]. rewrite H2.
    pose proof (Hin ev (or_intror Hev)) as Hmem.
    unfold awaiting in Hmem. rewrite H1 in Hmem.
    apply in_app_or in Hmem as [Hmem|[Hmem|Hmem]]; apply in_or_app; auto.
    exfalso. apply Hnot. cbn in Hmem. rewrite Hmem. now apply in_map.
Qed.

Lemma firstRejection_replaceNth_keep (ps : list promise) :
  forall i t cl,
    nth_error ps i = Some (Awaiting cl) ->
    firstRejection ps <> None ->
    firstRejection (replaceNth i t ps) <> None.
Proof.
  induction ps as [|p ps IH]; intros i t cl Hi Hr.
  - destruct i; discriminate.
  - destruct i as [|i]; cbn in Hi.
    + injection Hi as ->. cbn in Hr |- *. destruct t; auto; discriminate.
    + cbn. destruct p; cbn in Hr |- *; eauto; discriminate.
Qed.

Lemma firstRejection_replaceNth_new (ps : list promise) :
  forall i e p,
    nth_error ps i = Some p ->
    firstRejection (replaceNth i (Rejected e) ps) <> None.
Proof.
  induction ps as [|q ps IH]; intros i e p Hi.
  - destruct i; discriminate.
  - destruct i as [|i]; cbn in Hi |- *; [discriminate|].
    destruct q; eauto; discriminate.
Qed.

Lemma POST_run_recorded (evs : list event) :
  forall st st',
    rejectionRecorded st ->
    POST_run rt jobProfile evs st = Some st' ->
    rejectionRecorded st'.
Proof.
  induction evs as [|ev evs IH]; intros st st' Hrec Hrun; cbn in Hrun.
  - now injection Hrun as <-.
  - destruct ev as [i o tk]. cbn in Hrun.
    destruct (nth_error (promises st) i) as [[cl|r|e]|] eqn:Hi;
      try discriminate.
    refine (IH _ _ _ Hrun). clear IH Hrun.
    unfold rejectionRecorded in *. cbn [promises outcome]. intros e He.
    destruct (outcome st) as [[rs|e0]|] eqn:Ho; cbn [promiseAllStep] in He.
    + discriminate.
    + eapply firstRejection_replaceNth_keep; eauto.
    + destruct (settle _) as [c|r|e1] eqn:Hs.
      * destruct (allFulfilled _); discriminate.
      * destruct (allFulfilled _); discriminate.
      * eapply firstRejection_replaceNth_new; eauto.
Qed.

Lemma POST_start_recorded (sync : nat -> tick) (data : option (list JSearchJob)) :
  rejectionRecorded (POST_start rt jobProfile sync data).
Proof.
  unfold POST_start, rejectionRecorded.
  destruct (List.length (arrayOrEmpty data) =? 0); cbn [outcome promises].
  - discriminate.
  - unfold promiseAllStart. intros e.
    destruct (firstRejection _); [discriminate|].
    destruct (allFulfilled _); discriminate.
Qed.

(** The response is a function of the promises. *)
Lemma POST_response_of_promises (st : orchestration) :
  promiseAllConsistent st -> rejectionRecorded st ->
  POST_response st = responseOf (promises st).
Proof.
  unfold promiseAllConsistent, rejectionRecorded, POST_response, responseOf.
  intros Hc Hr. destruct (outcome st) as [[rs|e]|].
  - rewrite Hc.
    assert (Hno : firstRejection (promises st) = None).
    { clear Hr. revert rs Hc. induction (promises st) as [|p ps IH];
        intros rs Hc; [reflexivity|].
      cbn in Hc |- *. destruct p; try discriminate.
      destruct (allFulfilled ps); [eauto | discriminate]. }
    now rewrite Hno.
  - specialize (Hr e eq_refl). destruct (firstRejection (promises st));
      [reflexivity | contradiction].
  - destruct Hc as [-> ->]. reflexivity.
Qed.

Lemma reachable_response (sync : nat -> tick) (data : option (list JSearchJob))
    (evs : list event) (st : orchestration) :
  POST_run rt jobProfile evs (POST_start rt jobProfile sync data) = Some st ->
  POST_response st = responseOf (promises st).
Proof.
  intros Hrun. apply POST_response_of_promises.
  - now destruct (reachable_spec rt jobProfile sync data evs st Hrun) as [_ [_ H]].
  - eapply POST_run_recorded; [apply POST_start_recorded | exact Hrun].
Qed.

End ScheduleFacts.

Section OriginFacts.

Variable rt : Runtime.
Variable jobProfile : string.

Lemma runCallbacks_origin (sync : nat -> tick) (jobs : list JSearchJob) :
  forall i,
    Forall2 (originOf rt jobProfile) jobs
      (map fst (runCallbacks rt jobProfile sync i jobs)).
Proof.
  induction jobs as [|job jobs IH]; intros i; cbn [runCallbacks map].
  - constructor.
  - constructor; [|apply IH]. unfold runCallback, originOf.
    destruct (negb (String.eqb (cl_companyName (prepare job)) UNKNOWN_COMPANY));
      cbn [fst]; [now left | right; eauto].
Qed.

Lemma POST_start_origin (sync : nat -> tick) (data : option (list JSearchJob)) :
  Forall2 (originOf rt jobProfile) (firstn 12 (arrayOrEmpty data))
    (promises (POST_start rt jobProfile sync data)).
Proof.
  unfold POST_start. destruct (arrayOrEmpty data) as [|job jobs].
  - constructor.
  - cbn [List.length Nat.eqb promises]. apply runCallbacks_origin.
Qed.

Lemma POST_run_origin (jobs : list JSearchJob) (evs : list event) :
  forall st st',
    Forall2 (originOf rt jobProfile) jobs (promises st) ->
    POST_run rt jobProfile evs st = Some st' ->
    Forall2 (originOf rt jobProfile) jobs (promises st').
Proof.
  induction evs as [|ev evs IH]; intros st st' Ho Hrun; cbn in Hrun.
  - now injection Hrun as <-.
  - destruct ev as [i o tk]. cbn in Hrun.
    destruct (nth_error (promises st) i) as [[cl|r|e]|] eqn:Hi;
      try discriminate.
    refine (IH _ _ _ Hrun). cbn [promises].
    destruct (Forall2_nth_error_r _ _ _ Ho i _ Hi) as [job [Hjob Hor]].
    eapply Forall2_replaceNth; eauto.
    destruct Hor as [Hcl|[ci [tk' Hcl]]].
    + injection Hcl as ->.
      destruct (companyInsightOfOutcome_normal o) as [ci Hci]. rewrite Hci.
      right. exists ci, tk. reflexivity.
    + exfalso. pose proof (settle_not_awaiting
        (buildResult rt jobProfile (prepare job) ci tk')) as Hs.
      rewrite <- Hcl in Hs. discriminate.
Qed.

Lemma reachable_origin (sync : nat -> tick) (data : option (list JSearchJob))
    (evs : list event) (st : orchestration) :
  POST_run rt jobProfile evs (POST_start rt jobProfile sync data) = Some st ->
  Forall2 (originOf rt jobProfile) (firstn 12 (arrayOrEmpty data)) (promises st).
Proof. apply POST_run_origin, POST_start_origin. Qed.

Lemma buildResult_throws (cl : closure) (ci : option CompanyInsight) (tk : tick)
    (e : error) :
  buildResult rt jobProfile cl ci tk = Throw e <->
  formatSalary rt (cl_job cl) = Throw e.
Proof.
  unfold buildResult. destruct (formatSalary rt (cl_job cl)); cbn [bind];
    split; congruence.
Qed.

Lemma Forall2_In_l {A B : Type} (R : A -> B -> Prop) (l : list A) (l' : list B) :
  Forall2 R l l' -> forall a, In a l -> exists b, In b l' /\ R a b.
Proof.
  induction 1 as [|x y l l' Hxy H IH]; intros a Ha; [contradiction|].
  destruct Ha as [<-|Ha].
  - exists y. split; [now left | exact Hxy].
  - destruct (IH a Ha) as [b [Hb Hab]]. exists b. split; [now right | exact Hab].
Qed.

Lemma Forall2_In_r {A B : Type} (R : A -> B -> Prop) (l : list A) (l' : list B) :
  Forall2 R l l' -> forall b, In b l' -> exists a, In a l /\ R a b.
Proof.
  induction 1 as [|x y l l' Hxy H IH]; intros b Hb; [contradiction|].
  destruct Hb as [<-|Hb].
  - exists x. split; [now left | exact Hxy].
  - destruct (IH b Hb) as [a [Ha Hab]]. exists a. split; [now right | exact Hab].
Qed.

Lemma firstRejection_In (ps : list promise) :
  firstRejection ps <> None <-> exists e, In (Rejected e) ps.
Proof.
  induction ps as [|p ps IH]; cbn.
  - split; [congruence | intros [e []]].
  - destruct p as [cl|r|e].
    + rewrite IH. split; intros [e H]; exists e; [now right|].
      destruct H as [H|H]; [discriminate | exact H].
    + rewrite IH. split; intros [e H]; exists e; [now right|].
      destruct H as [H|H]; [discriminate | exact H].
    + split; [intros _; exists e; now left | discriminate].
Qed.

Lemma awaitingFrom_nil (ps : list promise) :
  forall k, awaitingFrom k ps = [] ->
            forall p, In p ps -> isAwaiting p = false.
Proof.
  induction ps as [|q ps IH]; intros k Hk p Hp; [contradiction|].
  cbn in Hk. destruct q as [cl|r|e]; try discriminate;
    (destruct Hp as [<-|Hp]; [reflexivity | eauto]).
Qed.

Lemma allFulfilled_nth (ps : list promise) :
  forall rs j p,
    allFulfilled ps = Some rs -> nth_error ps j = Some p ->
    exists r, p = Fulfilled r /\ nth_error rs j = Some r.
Proof.
  induction ps as [|q ps IH]; intros rs j p Hrs Hj.
  - destruct j; discriminate.
  - cbn in Hrs. destruct q as [cl|r|e]; try discriminate.
    destruct (allFulfilled ps) as [rs'|] eqn:E; [|discriminate].
    injection Hrs as <-. destruct j as [|j]; cbn in Hj |- *.
    + injection Hj as <-. eauto.
    + eauto.
Qed.

End OriginFacts.

(** X12: the order in which the lookups settle changes nothing: a schedule
    that runs, run in any other order, runs too and ends with the same
    promises and the same response. *)
Theorem completion_order_irrelevant (rt : Runtime) (jobProfile : string)
    (sync : nat -> tick) (data : option (list JSearchJob))
    (evs evs' : list event) (st : orchestration) :
  Permutation evs evs' ->
  POST_run rt jobProfile evs (POST_start rt jobProfile sync data) = Some st ->
  exists st',
    POST_run rt jobProfile evs' (POST_start rt jobProfile sync data) = Some st' /\
    promises st' = promises st /\
    POST_response st' = POST_response st.
Proof.
  intros Hperm Hrun.
  destruct (POST_run_valid rt jobProfile evs _ _ Hrun) as [Hnd Hin].
  destruct (POST_run_exists rt jobProfile evs'
              (POST_start rt jobProfile sync data)) as [st' Hrun'].
  - eapply Permutation_NoDup; [|exact Hnd]. now apply Permutation_map.
  - intros ev Hev. apply Hin. eapply Permutation_in; [|exact Hev].
    now apply Permutation_sym.
  - exists st'. split; [exact Hrun'|].
    assert (Hps : promises st' = promises st).
    { apply nth_error_ext. intros j.
      rewrite (POST_run_nth rt jobProfile evs' _ _ Hrun' j).
      rewrite (POST_run_nth rt jobProfile evs _ _ Hrun j).
      destruct (nth_error _ j) as [p|]; [|reflexivity]. cbn. f_equal.
      unfold settledBy. now rewrite (findEvent_perm j evs evs' Hperm Hnd). }
    split; [exact Hps|].
    rewrite (reachable_response rt jobProfile sync data evs st Hrun).
    rewrite (reachable_response rt jobProfile sync data evs' st' Hrun').
    now rewrite Hps.
Qed.

Lemma completion_order_irrelevant_witness :
  exists st',
    POST_run sampleRuntime "Backend Developer" (rev sampleSchedule)
      (POST_start sampleRuntime "Backend Developer" sampleSync sampleData) =
      Some st'.
Proof.
  destruct (POST_run sampleRuntime "Backend Developer" sampleSchedule
              (POST_start sampleRuntime "Backend Developer" sampleSync sampleData))
    as [st|] eqn:Hrun; [|vm_compute in Hrun; discriminate].
  destruct (completion_order_irrelevant sampleRuntime "Backend Developer"
              sampleSync sampleData sampleSchedule (rev sampleSchedule) st)
    as [st' [Hrun' _]].
  - apply Permutation_rev.
  - exact Hrun.
  - exists st'. exact Hrun'.
Defined.

(** X13: in a list the orchestration returns, the listing at the index of a
    lookup is the result object built from the raw listing at that index
    with the answer and the runtime reads of that lookup's own event, and
    with no other event's. *)
Theorem listing_uses_own_lookup (rt : Runtime) (jobProfile : string)
    (sync : nat -> tick) (data : option (list JSearchJob)) (evs : list event)
    (st : orchestration) (enrichedJobs : list JobResult) (j : nat)
    (job : JSearchJob) (o : fetchOutcome) (tk : tick) :
  POST_run rt jobProfile evs (POST_start rt jobProfile sync data) = Some st ->
  POST_response st = Some (JsonResponse enrichedJobs) ->
  nth_error (firstn 12 (arrayOrEmpty data)) j = Some job ->
  In (LookupSettles j o tk) evs ->
  exists companyInsight r,
    companyInsightOfOutcome o = Normal companyInsight /\
    buildResult rt jobProfile (prepare job) companyInsight tk = Normal r /\
    nth_error enrichedJobs j = Some r.
Proof.
  intros Hrun Hresp Hjob Hev.
  destruct (POST_run_valid rt jobProfile evs _ _ Hrun) as [Hnd Hin].
  pose proof (Hin _ Hev) as Haw. cbn [eventIndex] in Haw.
  apply awaitingFrom_In in Haw as [j' [cl [Ej Hcl]]]. cbn in Ej. subst j'.
  destruct (POST_start_spec rt jobProfile sync data) as [Hfor _].
  destruct (Forall2_nth_error_r _ _ _ Hfor j _ Hcl) as [job' [Hjob' [Ecl _]]].
  rewrite Hjob in Hjob'. injection Hjob' as <-. subst cl.
  pose proof (POST_run_nth rt jobProfile evs _ _ Hrun j) as Hnth.
  rewrite Hcl in Hnth. cbn [option_map settledBy] in Hnth.
  rewrite (findEvent_In j evs _ Hnd Hev eq_refl) in Hnth. cbn [resume] in Hnth.
  destruct (companyInsightOfOutcome_normal o) as [ci Hci].
  rewrite Hci in Hnth. cbn [bind] in Hnth.
  destruct (reachable_spec rt jobProfile sync data evs st Hrun) as [_ [_ Hc]].
  unfold POST_response in Hresp. unfold promiseAllConsistent in Hc.
  destruct (outcome st) as [[rs|e]|]; try discriminate.
  injection Hresp as <-.
  destruct (allFulfilled_nth _ _ _ _ Hc Hnth) as [r [Hr Hrs]].
  exists ci, r. repeat split; auto.
  destruct (buildResult rt jobProfile (prepare job) ci tk); cbn in Hr;
    congruence.
Qed.

Lemma listing_uses_own_lookup_witness :
  exists st enrichedJobs r,
    POST_run sampleRuntime "Backend Developer" sampleSchedule
      (POST_start sampleRuntime "Backend Developer" sampleSync sampleData) =
      Some st /\
    POST_response st = Some (JsonResponse enrichedJobs) /\
    nth_error enrichedJobs 2 = Some r /\
    companyInsight r = None.
Proof.
  destruct (POST_run sampleRuntime "Backend Developer" sampleSchedule
              (POST_start sampleRuntime "Backend Developer" sampleSync sampleData))
    as [st|] eqn:Hrun; [|vm_compute in Hrun; discriminate].
  destruct (POST_response st) as [[rs|m s]|] eqn:Hresp;
    [| vm_compute in Hrun; injection Hrun as <-; vm_compute in Hresp;
       discriminate ..].
  destruct (listing_uses_own_lookup sampleRuntime "Backend Developer"
              sampleSync sampleData sampleSchedule st rs 2
              listingEmailAndMailto FetchRejected sampleTick Hrun Hresp)
    as [ci [r [Hci [Hb Hr]]]].
  - reflexivity.
  - now left.
  - exists st, rs, r. repeat split; auto.
    apply buildResult_fields in Hb as [-> _].
    cbn in Hci. now injection Hci as <-.
Defined.

(** X14: once every lookup has settled, the response is the generic 500
    error exactly when the salary formatting of one of the first twelve
    listings throws, and it is the list of enriched listings exactly when
    none does: one listing with an ill-formed currency fails the whole
    batch. *)
Theorem batch_fails_iff_salary_throws (rt : Runtime) (jobProfile : string)
    (sync : nat -> tick) (data : option (list JSearchJob)) (evs : list event)
    (st : orchestration) :
  POST_run rt jobProfile evs (POST_start rt jobProfile sync data) = Some st ->
  awaiting st = [] ->
  (POST_response st =
     Some (ErrorResponse
             "Unexpected server error while fetching hiring intelligence." 500)
   <->
   exists job e,
     In job (firstn 12 (arrayOrEmpty data)) /\ formatSalary rt job = Throw e) /\
  ((exists enrichedJobs, POST_response st = Some (JsonResponse enrichedJobs))
   <->
   forall job e,
     In job (firstn 12 (arrayOrEmpty data)) -> formatSalary rt job <> Throw e).
Proof.
  intros Hrun Hdone.
  pose proof (reachable_origin rt jobProfile sync data evs st Hrun) as Hor.
  rewrite (reachable_response rt jobProfile sync data evs st Hrun).
  assert (Hiff : firstRejection (promises st) <> None <->
                 exists job e, In job (firstn 12 (arrayOrEmpty data)) /\
                               formatSalary rt job = Throw e).
  { rewrite firstRejection_In. split.
    - intros [e He].
      destruct (Forall2_In_r _ _ _ Hor _ He) as [job [Hjob Ho]].
      exists job, e. split; [exact Hjob|].
      destruct Ho as [Ho|[ci [tk Ho]]]; [discriminate|].
      destruct (buildResult rt jobProfile (prepare job) ci tk) as [r|e'] eqn:Hb;
        cbn in Ho; [discriminate|].
      injection Ho as ->. now apply buildResult_throws in Hb.
    - intros [job [e [Hjob He]]].
      destruct (Forall2_In_l _ _ _ Hor _ Hjob) as [p [Hp Ho]].
      pose proof (awaitingFrom_nil _ 0 Hdone p Hp) as Hna.
      destruct Ho as [->|[ci [tk ->]]]; [discriminate|].
      exists e.
      assert (Hb : buildResult rt jobProfile (prepare job) ci tk = Throw e)
        by now apply buildResult_throws.
      rewrite Hb in Hp. exact Hp. }
  unfold responseOf.
  destruct (firstRejection (promises st)) as [e|] eqn:Hrej.
  - assert (Hex : exists job e, In job (firstn 12 (arrayOrEmpty data)) /\
                                formatSalary rt job = Throw e)
      by (apply Hiff; discriminate).
    split; [split; auto|].
    split; [intros [rs H]; discriminate|].
    intros Hnone. destruct Hex as [job [e' [Hjob He']]].
    exfalso. exact (Hnone job e' Hjob He').
  - assert (Hno : ~ exists job e, In job (firstn 12 (arrayOrEmpty data)) /\
                                  formatSalary rt job = Throw e)
      by (intros Hex; apply Hiff in Hex; contradiction).
    pose proof (settled_without_awaiting (promises st) 0 Hdone Hrej) as Hall.
    destruct (allFulfilled (promises st)) as [rs|]; [|contradiction].
    split; [split; [discriminate | intros Hex; contradiction]|].
    split; [|eauto]. intros _ job e Hjob He. apply Hno. eauto.
Qed.

Lemma batch_fails_iff_salary_throws_witness :
  exists st,
    POST_run sampleRuntime "QA Engineer"
      [LookupSettles 0 FetchRejected sampleTick]
      (POST_start sampleRuntime "QA Engineer" sampleSync sampleBadBatch) =
      Some st /\
    POST_response st =
      Some (ErrorResponse
              "Unexpected server error while fetching hiring intelligence." 500).
Proof.
  destruct (POST_run sampleRuntime "QA Engineer"
              [LookupSettles 0 FetchRejected sampleTick]
              (POST_start sampleRuntime "QA Engineer" sampleSync sampleBadBatch))
    as [st|] eqn:Hrun; [|vm_compute in Hrun; discriminate].
  exists st. split; [reflexivity|].
  destruct (batch_fails_iff_salary_throws sampleRuntime "QA Engineer" sampleSync
              sampleBadBatch _ st Hrun) as [[_ H] _].
  - vm_compute in Hrun. injection Hrun as <-. reflexivity.
  - apply H. exists listingBadCurrency, RangeError.
    split; [right; now left | reflexivity].
Defined.

(** X15: a request starts at most as many company lookups as it has
    listings, and never more than twelve; no lookup is started after the
    synchronous pass. *)
Theorem lookups_bounded (rt : Runtime) (jobProfile : string)
    (sync : nat -> tick) (data : option (list JSearchJob)) (evs : list event)
    (st : orchestration) :
  POST_run rt jobProfile evs (POST_start rt jobProfile sync data) = Some st ->
  lookups st = lookups (POST_start rt jobProfile sync data) /\
  List.length (lookups st) <= Nat.min (List.length (arrayOrEmpty data)) 12.
Proof.
  intros Hrun.
  destruct (reachable_spec rt jobProfile sync data evs st Hrun) as [_ [Hl _]].
  destruct (POST_start_spec rt jobProfile sync data) as [_ [Hl0 _]].
  split; [congruence|]. rewrite Hl.
  assert (Hlen : forall jobs, List.length (lookupNames jobs) <= List.length jobs).
  { induction jobs as [|job jobs IH]; [cbn; lia|].
    unfold lookupNames in *. cbn [flat_map List.length].
    rewrite length_app.
    destruct (ensureString (ofString (employer_name job))) as [n|];
      [destruct (String.eqb n UNKNOWN_COMPANY)|]; cbn [List.length]; lia. }
  specialize (Hlen (firstn 12 (arrayOrEmpty data))).
  rewrite length_firstn in Hlen. lia.
Qed.

Lemma lookups_bounded_witness :
  exists st,
    POST_run sampleRuntime "Backend Developer" sampleSchedule
      (POST_start sampleRuntime "Backend Developer" sampleSync sampleData) =
      Some st /\
    List.length (lookups st) <= 3.
Proof.
  destruct (POST_run sampleRuntime "Backend Developer" sampleSchedule
              (POST_start sampleRuntime "Backend Developer" sampleSync sampleData))
    as [st|] eqn:Hrun; [|vm_compute in Hrun; discriminate].
  exists st. split; [reflexivity|].
  exact (proj2 (lookups_bounded _ _ _ _ _ _ Hrun)).
Defined.

Lemma ensureString_result (v : unknown) (s : string) :
  ensureString v = Some s ->
  JS.nonEmpty s = true /\ JS.trim s = s /\
  ensureString (StringValue s) = Some s.
Proof.
  destruct v as [|raw|z]; cbn [ensureString]; try discriminate.
  destruct (JS.nonEmpty (JS.trim raw)) eqn:Hne; [|discriminate].
  intros H. injection H as <-.
  split; [exact Hne|]. split; [apply trim_idem|].
  now rewrite trim_idem, Hne.
Qed.

(** X16: what [ensureString] returns is never empty and has no white space
    around it, and [ensureString] returns such a string as it is. *)
Theorem ensureString_tidy (v : unknown) (s : string) :
  ensureString v = Some s ->
  JS.nonEmpty s = true /\ JS.trim s = s /\
  ensureString (StringValue s) = Some s.
Proof.
  intros H. destruct (ensureString_result v s H) as [H1 [H2 H3]].
  repeat split; assumption.
Qed.

Lemma ensureString_tidy_witness :
  JS.nonEmpty "Acme Corp" = true /\ JS.trim "Acme Corp" = "Acme Corp" /\
  ensureString (StringValue "Acme Corp") = Some "Acme Corp".
Proof.
  apply (ensureString_tidy (StringValue "  Acme Corp ")). reflexivity.
Defined.

(** X17: the highlights of a result are the first six of the listing's
    qualifications, then responsibilities, then benefits, an absent bucket
    counting as empty; there are never more than six. *)
Theorem highlights_first_six (rt : Runtime) (jobProfile : string)
    (job : JSearchJob) (ci : option CompanyInsight) (tk : tick) (r : JobResult) :
  buildResult rt jobProfile (prepare job) ci tk = Normal r ->
  highlights r =
    firstn 6 (bucket job Qualifications ++ bucket job Responsibilities ++
              bucket job Benefits)%list /\
  List.length (highlights r) <= 6.
Proof.
  unfold buildResult. destruct (formatSalary rt (cl_job (prepare job)));
    cbn [bind]; [|discriminate].
  intros H.
  assert (Hh : highlights r = firstn 6 (highlightSectionsOf job))
    by (injection H as <-; reflexivity).
  rewrite Hh. clear H Hh.
  assert (E : highlightSectionsOf job =
              (bucket job Qualifications ++ bucket job Responsibilities ++
               bucket job Benefits)%list).
  { unfold highlightSectionsOf, bucket.
    destruct (job_highlights job); cbn; [now rewrite app_assoc | reflexivity]. }
  rewrite E. split; [reflexivity|]. rewrite length_firstn. lia.
Qed.

Lemma highlights_first_six_witness :
  exists r,
    buildResult sampleRuntime "Data Scientist" (prepare listingEmailOnly) None
      sampleTick = Normal r /\
    List.length (highlights r) <= 6.
Proof.
  destruct (buildResult sampleRuntime "Data Scientist" (prepare listingEmailOnly)
              None sampleTick) as [r|e] eqn:Hb;
    [|vm_compute in Hb; discriminate].
  exists r. split; [reflexivity|].
  exact (proj2 (highlights_first_six _ _ _ _ _ _ Hb)).
Defined.

(** X18: in a result object the company name is never empty, the title is
    never empty when the requested job profile is not, and every optional
    text field that is there (city, state, country, employment type, apply
    link, description) is not empty and has no white space around it. *)
Theorem result_fields_tidy (rt : Runtime) (jobProfile : string)
    (job : JSearchJob) (ci : option CompanyInsight) (tk : tick) (r : JobResult) :
  buildResult rt jobProfile (prepare job) ci tk = Normal r ->
  JS.nonEmpty (company r) = true /\
  (JS.nonEmpty jobProfile = true -> JS.nonEmpty (title r) = true) /\
  tidy (city r) /\ tidy (state r) /\ tidy (country r) /\
  tidy (employmentType r) /\ tidy (applyLink r) /\ tidy (description r).
Proof.
  unfold buildResult. destruct (formatSalary rt (cl_job (prepare job)));
    cbn [bind]; [|discriminate].
  intros H. injection H as <-.
  cbn [company title city state country employmentType applyLink description
       prepare cl_companyName cl_job].
  assert (Ht : forall f, tidy (ensureString (ofString f))).
  { intros f v Hv. apply ensureString_result in Hv. tauto. }
  rewrite nullish_None_r.
  split; [|split; [|repeat (split; [apply Ht|]); apply Ht]].
  - destruct (ensureString (ofString (employer_name job))) as [n|] eqn:E;
      cbn [nullishOr]; [|reflexivity].
    now apply ensureString_result in E.
  - intros Hp.
    destruct (ensureString (ofString (job_title job))) as [n|] eqn:E;
      cbn [nullishOr]; [|exact Hp].
    now apply ensureString_result in E.
Qed.

Lemma result_fields_tidy_witness :
  exists r,
    buildResult sampleRuntime "Data Scientist" (prepare listingBlankFields) None
      sampleTick = Normal r /\
    JS.nonEmpty (company r) = true /\ tidy (description r).
Proof.
  destruct (buildResult sampleRuntime "Data Scientist" (prepare listingBlankFields)
              None sampleTick) as [r|e] eqn:Hb;
    [|vm_compute in Hb; discriminate].
  exists r. split; [reflexivity|].
  destruct (result_fields_tidy _ _ _ _ _ _ Hb) as [H1 [_ [_ [_ [_ [_ [_ H2]]]]]]].
  split; assumption.
Defined.

(** X19: the name in the lookup URL is made of unreserved characters and
    percent escapes only, so no character of a company name can end the
    query value or add a parameter; a name of unreserved characters is sent
    as it is. *)
Theorem encodeURIComponent_safe (name : string) :
  JS.allChars uriSafe (encodeURIComponent name) = true /\
  JS.includes "&" (encodeURIComponent name) = false /\
  JS.includes "#" (encodeURIComponent name) = false /\
  JS.includes " " (encodeURIComponent name) = false /\
  (JS.allChars isUriUnreserved name = true -> encodeURIComponent name = name).
Proof.
  assert (Hc : forall c, JS.allChars uriSafe (encodeChar c) = true).
  { intros c. destruct c as [[] [] [] [] [] [] [] []]; reflexivity. }
  assert (Hs : JS.allChars uriSafe (encodeURIComponent name) = true).
  { induction name as [|c s IH]; cbn [encodeURIComponent]; [reflexivity|].
    now rewrite allChars_append, Hc, IH. }
  assert (Hno : forall a, uriSafe a = false ->
            JS.includes (String a "") (encodeURIComponent name) = false).
  { intros a Ha. apply includes_char_allChars.
    eapply allChars_impl; [|exact Hs].
    intros c Hcs. destruct (Ascii.eqb_spec a c) as [->|]; [congruence | reflexivity]. }
  split; [exact Hs|]. repeat split; try (apply Hno; reflexivity).
  clear Hs Hno. induction name as [|c s IH]; [reflexivity|].
  cbn [JS.allChars encodeURIComponent]. intros H.
  apply andb_true_iff in H as [Hu Hrest]. unfold encodeChar. rewrite Hu.
  cbn [append]. now rewrite IH.
Qed.

Lemma encodeURIComponent_safe_witness :
  encodeURIComponent "Acme-Corp" = "Acme-Corp".
Proof.
  apply (encodeURIComponent_safe "Acme-Corp"). reflexivity.
Defined.

(** * More of the code: the request in front of the enrichment *)

Section QueryFacts.

Lemma append_assoc (a b c : string) : (a ++ b) ++ c = a ++ b ++ c.
Proof. induction a as [|x a IH]; cbn; [reflexivity | now rewrite IH]. Qed.

Lemma nonEmpty_append_r (a b : string) :
  JS.nonEmpty b = true -> JS.nonEmpty (a ++ b) = true.
Proof. destruct a; [auto | reflexivity]. Qed.

Lemma formEncode_chars (s : string) : JS.allChars formChar (formEncode s) = true.
Proof.
  assert (Hc : forall c, JS.allChars formChar (formEncodeChar c) = true).
  { intros c. destruct c as [[] [] [] [] [] [] [] []]; reflexivity. }
  induction s as [|c s IH]; cbn [formEncode]; [reflexivity|].
  now rewrite allChars_append, Hc, IH.
Qed.

End QueryFacts.

(** X20: for a payload whose job profile and location are not empty, as
    the handler builds it, the query is the job profile, the location, the
    experience level followed by "level" unless it is "any", the work style
    if it is remote, hybrid or on-site, and "India" for the geography india,
    in this order, separated by single spaces; the filter drops nothing. *)
Theorem buildQuery_closed_form (payload : Payload.t) :
  JS.nonEmpty (Payload.jobProfile payload) = true ->
  JS.nonEmpty (Payload.location payload) = true ->
  buildQuery payload =
    Payload.jobProfile payload ++ " " ++ Payload.location payload ++
    levelSuffix (Payload.experienceLevel payload) ++
    remoteSuffix (Payload.remote payload) ++
    geographySuffix (Payload.geography payload).
Proof.
  intros Hj Hl. unfold buildQuery, queryParts, levelSuffix, remoteSuffix,
    geographySuffix.
  assert (Hlevel : JS.nonEmpty (Payload.experienceLevel payload ++ " level") = true)
    by (apply nonEmpty_append_r; reflexivity).
  destruct (String.eqb (Payload.experienceLevel payload) "any");
    destruct (String.eqb (Payload.remote payload) "remote");
    destruct (String.eqb (Payload.remote payload) "hybrid");
    destruct (String.eqb (Payload.remote payload) "on-site");
    destruct (String.eqb (Payload.geography payload) "india");
    cbn [negb app filter]; rewrite Hj, Hl, ?Hlevel;
    cbn [filter JS.nonEmpty join append];
    rewrite ?append_assoc, ?append_empty_r; reflexivity.
Qed.

Lemma buildQuery_closed_form_witness :
  buildQuery (Payload.mk "Data Scientist" "india" "Kerala" "mid" "hybrid" "k") =
  "Data Scientist Kerala mid level hybrid India".
Proof.
  apply (buildQuery_closed_form
           (Payload.mk "Data Scientist" "india" "Kerala" "mid" "hybrid" "k"));
    reflexivity.
Defined.

(** X21: when the handler calls the search provider, the URL carries the
    query, page 1, one page, and the remote-only filter for the work styles
    remote (true) and on-site (false), nothing else; the serialized query is
    made of letters, digits, the characters * - . _ + and percent escapes,
    so no text of the request can end the query value or add a parameter;
    the key sent is the request's key if it is not blank, else the
    configured one. *)
Theorem search_url_parameters (envKey : option string) (body : SearchPayload.t)
    (req : searchRequest) (payload : Payload.t) :
  POST_request envKey (RequestPayload body) = CallProvider req payload ->
  sr_url req =
    "https://jsearch.p.rapidapi.com/search?query=" ++
    formEncode (buildQuery payload) ++ "&page=1&num_pages=1" ++
    remoteFilter (Payload.remote payload) /\
  JS.allChars formChar (formEncode (buildQuery payload)) = true /\
  JS.includes "&" (formEncode (buildQuery payload)) = false /\
  JS.includes "=" (formEncode (buildQuery payload)) = false /\
  JS.includes "#" (formEncode (buildQuery payload)) = false /\
  Some (sr_key req) =
    nullish (ensureString (ofString (SearchPayload.rapidApiKey body)))
      (ensureString (ofString envKey)).
Proof.
  unfold POST_request.
  destruct (ensureString (ofString (SearchPayload.jobProfile body))) as [jp|];
    [|discriminate].
  destruct (ensureString (ofString (SearchPayload.location body))) as [loc|];
    [|discriminate].
  destruct (nullish _ _) as [key|]; [|discriminate].
  cbv zeta. intros H. injection H as <- <-. cbn [sr_url sr_key Payload.remote].
  assert (Hno : forall a, formChar a = false ->
            JS.includes (String a "")
              (formEncode (buildQuery
                 (Payload.mk jp (nullishOr (SearchPayload.geography body) "india")
                    loc (nullishOr (SearchPayload.experienceLevel body) "any")
                    (nullishOr (SearchPayload.remote body) "any") key))) = false).
  { intros a Ha. apply includes_char_allChars.
    eapply allChars_impl; [|apply formEncode_chars].
    intros c Hc. destruct (Ascii.eqb_spec a c) as [->|]; [congruence | reflexivity]. }
  split; [|split; [apply formEncode_chars|]].
  - unfold searchParamsOf, remoteFilter.
    destruct (String.eqb (nullishOr (SearchPayload.remote body) "any") "remote");
      [|destruct (String.eqb (nullishOr (SearchPayload.remote body) "any")
                   "on-site")];
      cbn [app searchParamsToString];
      change (formEncode "query") with "query";
      change (formEncode "page") with "page";
      change (formEncode "num_pages") with "num_pages";
      change (formEncode "remote_jobs_only") with "remote_jobs_only";
      change (formEncode "1") with "1";
      change (formEncode "true") with "true";
      change (formEncode "false") with "false";
      cbn [append]; rewrite ?append_assoc; cbn [append];
      rewrite ?append_empty_r; reflexivity.
  - repeat split; try (apply Hno; reflexivity).
Qed.

Lemma search_url_parameters_witness :
  exists req payload,
    POST_request None (RequestPayload (submittedPayload sampleForm)) =
      CallProvider req payload /\
    sr_url req =
      "https://jsearch.p.rapidapi.com/search?query=Software+Engineer+Singapore+senior+level+remote&page=1&num_pages=1&remote_jobs_only=true".
Proof.
  destruct (POST_request None (RequestPayload (submittedPayload sampleForm)))
    as [r|req payload] eqn:H; [vm_compute in H; discriminate|].
  exists req, payload. split; [reflexivity|].
  rewrite (proj1 (search_url_parameters _ _ _ _ H)).
  vm_compute in H. injection H as <- <-. vm_compute. reflexivity.
Defined.

(** X22: a provider response outside 200-299 never starts the enrichment;
    with a status from 300 to 599 other than 304 the handler answers with
    that very status and with the provider's message if the body has one,
    else with the text that names the status; with any other status, and
    when the call itself fails, it answers with the generic error, status
    500. *)
Theorem provider_error_forwarded (status : Z) (body : providerBody) :
  ok status = false ->
  (forall data, POST_provider (ProviderResponse status body) <> Enrich data) /\
  ((300 <= status <= 599)%Z -> status <> 304%Z ->
   POST_provider (ProviderResponse status body) =
     AnswerNow
       (ErrorResponse
          match body with
          | ProviderJson (Some message) _ => message
          | _ => "JSearch API returned " ++ JS.numberToString status ++
                 ". Check RapidAPI quota and key."
          end
          status)) /\
  ((status < 200)%Z \/ (599 < status)%Z \/ status = 304%Z ->
   POST_provider (ProviderResponse status body) = AnswerNow serverError) /\
  POST_provider ProviderRejected = AnswerNow serverError.
Proof.
  intros Hok. unfold POST_provider, jsonWithStatus, isNullBodyStatus.
  rewrite Hok. cbn [negb existsb].
  split; [|split; [|split; [|reflexivity]]].
  - intros data.
    destruct ((200 <=? status)%Z && (status <=? 599)%Z); cbn [negb];
      [|discriminate].
    destruct (_ || _); discriminate.
  - intros Hr Hne.
    assert (E1 : ((200 <=? status) && (status <=? 599))%Z = true).
    { apply andb_true_iff. split; apply Z.leb_le; lia. }
    rewrite E1. cbn [negb].
    assert (E2 : forall k, k <> status -> (status =? k)%Z = false).
    { intros k Hk. apply Z.eqb_neq. congruence. }
    unfold ok in Hok.
    rewrite (E2 101%Z), (E2 103%Z), (E2 204%Z), (E2 205%Z), (E2 304%Z)
      by lia.
    reflexivity.
  - intros [H|[H|H]].
    + assert (E : (200 <=? status)%Z = false) by (apply Z.leb_gt; lia).
      now rewrite E.
    + assert (E : (status <=? 599)%Z = false) by (apply Z.leb_gt; lia).
      rewrite E, andb_false_r. reflexivity.
    + subst status. reflexivity.
Qed.

Lemma provider_error_forwarded_witness :
  POST_provider (ProviderResponse 429 (ProviderJson None None)) =
  AnswerNow
    (ErrorResponse "JSearch API returned 429. Check RapidAPI quota and key." 429).
Proof.
  apply (proj1 (proj2 (provider_error_forwarded 429
                         (ProviderJson None None) eq_refl))); [lia | discriminate].
Defined.

Section FormFacts.

Lemma indianStates_tidy (s : string) :
  In s indianStates -> JS.nonEmpty (JS.trim s) = true /\ JS.trim s = s.
Proof.
  intros H.
  assert (Hall : forallb (fun x => JS.nonEmpty (JS.trim x) &&
                                   String.eqb (JS.trim x) x) indianStates = true)
    by (vm_compute; reflexivity).
  rewrite forallb_forall in Hall. specialize (Hall s H).
  apply andb_true_iff in Hall as [H1 H2]. apply String.eqb_eq in H2. auto.
Qed.

Lemma effectiveLocation_tidy (geography selectedState customLocation : string) :
  (geography = "india" -> In selectedState indianStates) ->
  ensureString
    (StringValue (effectiveLocation geography selectedState customLocation)) =
  Some (effectiveLocation geography selectedState customLocation).
Proof.
  intros Hs. unfold effectiveLocation, orElse.
  destruct (String.eqb_spec geography "india") as [E|E].
  - destruct (indianStates_tidy _ (Hs E)) as [H1 H2]. cbn [ensureString].
    now rewrite H1, H2.
  - destruct (JS.nonEmpty (JS.trim customLocation)) eqn:Hc.
    + cbn [ensureString]. now rewrite trim_idem, Hc.
    + reflexivity.
Qed.

End FormFacts.

(** X23: the payload the search form submits always passes the handler's
    location check: with the geography india the location is the selected
    state, one of the listed states; otherwise it is the trimmed text typed
    in, or "India" when that is blank.  The handler then answers "jobProfile
    is required" exactly when the typed job profile is blank, and else never
    with a 400. *)
Theorem submitted_location_accepted (envKey : option string) (fs : formState) :
  (fs_geography fs = "india" -> In (fs_selectedState fs) indianStates) ->
  ensureString (ofString (SearchPayload.location (submittedPayload fs))) =
    Some (effectiveLocation (fs_geography fs) (fs_selectedState fs)
            (fs_customLocation fs)) /\
  POST_request envKey (RequestPayload (submittedPayload fs)) <>
    Answer (ErrorResponse "location is required" 400) /\
  (POST_request envKey (RequestPayload (submittedPayload fs)) =
     Answer (ErrorResponse "jobProfile is required" 400) <->
   JS.nonEmpty (JS.trim (fs_jobProfile fs)) = false).
Proof.
  intros Hs. pose proof (effectiveLocation_tidy _ _ (fs_customLocation fs) Hs) as Hl.
  split; [exact Hl|].
  unfold POST_request.
  cbn [submittedPayload SearchPayload.jobProfile SearchPayload.location
       SearchPayload.rapidApiKey SearchPayload.geography
       SearchPayload.experienceLevel SearchPayload.remote ofString].
  rewrite Hl. cbn [ensureString].
  destruct (JS.nonEmpty (JS.trim (fs_jobProfile fs))).
  - destruct (nullish _ _); cbv zeta; split; try discriminate;
      split; discriminate.
  - split; [discriminate | split; reflexivity].
Qed.

Lemma submitted_location_accepted_witness :
  ensureString (ofString (SearchPayload.location (submittedPayload sampleForm))) =
  Some "Singapore".
Proof.
  apply (submitted_location_accepted None sampleForm). discriminate.
Defined.

Section LocationFacts.

Lemma startsWith_append (p s t : string) :
  JS.startsWith p s = true -> JS.startsWith p (s ++ t) = true.
Proof.
  revert s. induction p as [|a p IH]; intros s H; [destruct s; reflexivity|].
  destruct s as [|b s]; [discriminate|]. cbn in *.
  apply andb_true_iff in H as [H1 H2]. now rewrite H1, IH.
Qed.

Lemma startsWith_refl (p : string) : JS.startsWith p p = true.
Proof.
  induction p as [|a p IH]; [reflexivity|]. cbn. now rewrite Ascii.eqb_refl.
Qed.

Lemma includes_left (p s t : string) :
  JS.includes p s = true -> JS.includes p (s ++ t) = true.
Proof.
  induction s as [|c s IH]; intros H.
  - cbn in H. rewrite orb_false_r in H.
    destruct p; [destruct t; reflexivity | discriminate].
  - cbn [JS.includes] in H. apply orb_true_iff in H as [H|H].
    + cbn [append JS.includes].
      change (String c (s ++ t)) with (String c s ++ t).
      now rewrite (startsWith_append _ _ t H).
    + cbn [append JS.includes]. rewrite (IH H). apply orb_true_r.
Qed.

Lemma includes_right (p s t : string) :
  JS.includes p t = true -> JS.includes p (s ++ t) = true.
Proof.
  intros H. induction s as [|c s IH]; [exact H|].
  cbn [append JS.includes]. rewrite IH. apply orb_true_r.
Qed.

Lemma includes_self (p : string) : JS.includes p p = true.
Proof.
  destruct p; cbn [JS.includes]; rewrite ?startsWith_refl; reflexivity.
Qed.

End LocationFacts.

Section JoinFacts.

Lemma startsWith_split (p s : string) :
  JS.startsWith p s = true -> exists v, s = p ++ v.
Proof.
  revert s. induction p as [|a p IH]; intros s H; [now exists s|].
  destruct s as [|b s]; [discriminate|]. cbn in H.
  apply andb_true_iff in H as [H1 H2]. apply Ascii.eqb_eq in H1. subst b.
  destruct (IH s H2) as [v ->]. now exists v.
Qed.

Lemma includes_split (p s : string) :
  JS.includes p s = true -> exists u v, s = u ++ p ++ v.
Proof.
  induction s as [|c s IH]; cbn [JS.includes]; intros H.
  - rewrite orb_false_r in H. apply startsWith_split in H as [v ->].
    now exists "", v.
  - apply orb_true_iff in H as [H|H].
    + apply startsWith_split in H as [v ->]. now exists "", v.
    + destruct (IH H) as [u [v ->]]. now exists (String c u), v.
Qed.

Lemma includes_trans (p s t : string) :
  JS.includes p s = true -> JS.includes s t = true -> JS.includes p t = true.
Proof.
  intros H1 H2. apply includes_split in H1 as [u [v ->]].
  apply includes_split in H2 as [u' [v' ->]].
  apply includes_right. apply includes_left. apply includes_right.
  apply includes_left. apply includes_self.
Qed.

(** Two optional strings, the empty and absent ones dropped, joined. *)
Lemma pair_nonEmpty (sep : string) (x y : option string) :
  JS.nonEmpty (join sep (truthyStrings [x; y])) = present x || present y.
Proof.
  destruct x as [[|a x]|]; destruct y as [[|b y]|]; reflexivity.
Qed.

Lemma pair_length (x y : option string) :
  (0 <? List.length (truthyStrings [x; y])) = present x || present y.
Proof.
  destruct x as [[|a x]|]; destruct y as [[|b y]|]; reflexivity.
Qed.

Lemma pair_includes_l (sep p : string) (y : option string) :
  JS.nonEmpty p = true ->
  JS.includes p (join sep (truthyStrings [Some p; y])) = true.
Proof.
  destruct p as [|a p]; [discriminate|]. intros _.
  destruct y as [[|b y]|].
  - apply includes_self.
  - change (JS.includes (String a p) (String a p ++ sep ++ String b y) = true).
    apply includes_left, includes_self.
  - apply includes_self.
Qed.

Lemma pair_includes_r (sep p : string) (x : option string) :
  JS.nonEmpty p = true ->
  JS.includes p (join sep (truthyStrings [x; Some p])) = true.
Proof.
  destruct p as [|b p]; [discriminate|]. intros _.
  destruct x as [[|a x]|].
  - apply includes_self.
  - change (JS.includes (String b p) (String a x ++ sep ++ String b p) = true).
    apply includes_right, includes_right, includes_self.
  - apply includes_self.
Qed.

End JoinFacts.

(** X24: the location line of a result card is never empty; it is "Location
    confidential" when the result has no city, state or country, and
    otherwise every one of these that is there and not empty occurs in
    it. *)
Theorem formatLocation_shows_parts (job : JobResult) :
  JS.nonEmpty (formatLocation job) = true /\
  (present (city job) = false -> present (state job) = false ->
   present (country job) = false ->
   formatLocation job = "Location confidential") /\
  (forall part,
     In (Some part) [city job; state job; country job] ->
     JS.nonEmpty part = true ->
     JS.includes part (formatLocation job) = true).
Proof.
  unfold formatLocation.
  set (cityState := join ", " (truthyStrings [city job; state job])).
  assert (Hcs : JS.nonEmpty cityState = present (city job) || present (state job))
    by apply pair_nonEmpty.
  rewrite pair_length. cbn [present]. rewrite Hcs.
  split; [|split].
  - destruct (present (city job) || present (state job) || present (country job))
      eqn:E; [|reflexivity].
    rewrite pair_nonEmpty. cbn [present]. now rewrite Hcs.
  - intros -> -> ->. reflexivity.
  - intros part Hin Hne.
    assert (Hp : present (Some part) = true) by exact Hne.
    destruct Hin as [Hin|[Hin|[Hin|[]]]].
    + rewrite Hin in Hcs |- *. rewrite Hp in Hcs |- *. cbn [orb] in Hcs |- *.
      apply (includes_trans part cityState).
      * unfold cityState. rewrite Hin. now apply pair_includes_l.
      * now apply pair_includes_l.
    + rewrite Hin in Hcs |- *. rewrite Hp, orb_true_r in Hcs |- *.
      cbn [orb] in Hcs |- *.
      apply (includes_trans part cityState).
      * unfold cityState. rewrite Hin. now apply pair_includes_r.
      * now apply pair_includes_l.
    + rewrite Hin. rewrite Hp, orb_true_r.
      now apply pair_includes_r.
Qed.

Lemma formatLocation_shows_parts_witness :
  JS.includes "Pune"
    (formatLocation
       (mkJobResult "j" "t" "c" (Some "Pune") None (Some "India") false None
          None None None [] None [] None)) = true.
Proof.
  apply (formatLocation_shows_parts
           (mkJobResult "j" "t" "c" (Some "Pune") None (Some "India") false None
              None None None [] None [] None)); [now left | reflexivity].
Defined.
